(** * edoping: defect formation energies and the files around them

    A shallow embedding of the parts of [defect.py], [dft.py] and [cli.py]
    that build, write and read formation-energy and DOS tables, together
    with the properties the specification states about them; then of the
    input list, the summary of [formation], the class [Cell] and the
    readers of an OUTCAR, with further properties read off the code.

    Number model.  The program computes with IEEE doubles (numpy float64).
    In this development a float is an exact rational ([Q]): every
    arithmetic operation is the exact one, so statements such as "uniform
    spacing" or "the two lines intersect" are statements about the exact
    values the program approximates.  Where a property does not depend on
    the arithmetic at all (parsing, slicing, dividing a column by another)
    it is stated for every structure of class [Float] instead.

    File model.  A text file is the list of its lines, each with its
    newline, as [readlines()] returns them and as [np.savetxt] writes
    them.  Characters are bytes ([ascii]); only ASCII text is modelled. *)

From Stdlib Require Import ZArith NArith Nnat QArith Qround Qabs Qminmax.
From Stdlib Require Import List Sorted String Ascii Bool Lia Lqa.
From Stdlib Require Reals Lra.
From Stdlib Require Permutation.
Import ListNotations.

(** ** Python values that fail: exceptions as results *)

Inductive PyExn : Type :=
  | IndexError
  | ValueError
  | TypeError
  | RuntimeError (msg : string).

Inductive result (A : Type) : Type :=
  | Ok (a : A)
  | Raise (e : PyExn).

Arguments Ok {A} a.
Arguments Raise {A} e.

Definition bind {A B : Type} (r : result A) (k : A -> result B) : result B :=
  match r with
  | Ok a => k a
  | Raise e => Raise e
  end.

Declare Scope py_scope.
Delimit Scope py_scope with py.
Notation "x <- r ;; k" := (bind r (fun x => k))
  (at level 61, r at next level, right associativity) : py_scope.
Notation "' p <- r ;; k" := (bind r (fun p => k))
  (at level 61, p pattern, r at next level, right associativity) : py_scope.

(** [l[i]] for a non-negative index: [IndexError] out of range. *)
Definition getitem {A : Type} (l : list A) (i : nat) : result A :=
  match nth_error l i with
  | Some a => Ok a
  | None => Raise IndexError
  end.

(** [[f(x) for x in l]] where [f] may raise: the first exception wins and
    no partial list is produced. *)
Fixpoint map_result {A B : Type} (f : A -> result B) (l : list A)
  : result (list B) :=
  match l with
  | [] => Ok []
  | x :: l' =>
      match f x with
      | Raise e => Raise e
      | Ok y =>
          match map_result f l' with
          | Raise e => Raise e
          | Ok ys => Ok (y :: ys)
          end
      end
  end.

(** ** [formation]: the numeric core (defect.py, lines 285-305) *)

Module Formation.

Local Open Scope Q_scope.

Definition Qlt_bool (x y : Q) : bool := negb (Qle_bool y x).

(** [np.linspace(start, stop, num)]: [arange(0, num) * step + start] with
    [step = (stop - start) / (num - 1)], the last sample then overwritten
    with [stop]. *)
Definition linspace (start stop : Q) (num : nat) : list Q :=
  match num with
  | O => []
  | S O => [start]
  | S div =>
      let step := (stop - start) / inject_Z (Z.of_nat div) in
      map (fun i => inject_Z (Z.of_nat i) * step + start) (seq 0 div)
        ++ [stop]
  end.

(** One row of [Eform = q * miu + E0q] (broadcast over the charge
    states).  [formation] builds [E0q] with one entry per valence; numpy
    refuses to broadcast arrays of different lengths, and the properties
    below are stated for lists of equal length. *)
Definition Eform_row (valence : list Z) (E0q : list Q) (mu : Q) : list Q :=
  map (fun qe => inject_Z (fst qe) * mu + snd qe) (combine valence E0q).

(** [row.min()]; numpy raises on an empty row, which [formation] never
    builds (an empty valence list fails earlier, in [InputList.check]). *)
Definition row_min (row : list Q) : Q :=
  match row with
  | [] => 0
  | x :: row' => fold_left Qmin row' x
  end.

(** [np.argmin(row)]: the first index of the minimum. *)
Fixpoint argmin_from (best : Q) (besti i : nat) (row : list Q) : nat :=
  match row with
  | [] => besti
  | x :: row' =>
      if Qlt_bool x best then argmin_from x i (S i) row'
      else argmin_from best besti (S i) row'
  end.

Definition argmin (row : list Q) : nat :=
  match row with
  | [] => O
  | x :: row' => argmin_from x 0 1 row'
  end.

(** [np.unique]: the sorted distinct values. *)
Fixpoint insert_uniq (x : nat) (l : list nat) : list nat :=
  match l with
  | [] => [x]
  | y :: l' =>
      if (x <? y)%nat then x :: l
      else if (x =? y)%nat then l
      else y :: insert_uniq x l'
  end.

Definition unique (l : list nat) : list nat := fold_right insert_uniq [] l.

Record Input : Type := {
  valence : list Z;
  E0q : list Q;
  emin : Q;
  emax : Q;
  npts : nat
}.

Definition miu (ipt : Input) : list Q := linspace (emin ipt) (emax ipt) (npts ipt).

Definition Eform (ipt : Input) : list (list Q) :=
  map (Eform_row (valence ipt) (E0q ipt)) (miu ipt).

Definition Efmin (ipt : Input) : list Q := map row_min (Eform ipt).

(** [np.hstack([miu, Efmin, Eform])]: the table handed to [np.savetxt]. *)
Definition table (ipt : Input) : list (list Q) :=
  map (fun mu =>
         let row := Eform_row (valence ipt) (E0q ipt) mu in
         mu :: row_min row :: row)
      (miu ipt).

(** The charge states that are the ground state somewhere on the grid. *)
Definition idx (ipt : Input) : list nat := unique (map argmin (Eform ipt)).
Definition tq (ipt : Input) : list Z := map (fun i => nth i (valence ipt) 0%Z) (idx ipt).
Definition eq (ipt : Input) : list Q := map (fun i => nth i (E0q ipt) 0) (idx ipt).






(** The grid [0, 0.5, 1] over the two charge states of the scenario. *)
Definition scenario_input : Input :=
  {| valence := [0; 1]%Z; E0q := [2; 1]; emin := 0; emax := 1; npts := 3 |}.


End Formation.


(** ** Text: the string operations of Python the readers and writers use *)

Module Text.

Local Open Scope string_scope.
Local Open Scope N_scope.

(** The line feed that ends a line. *)
Definition lf : string := String (ascii_of_N 10) "".

(** [str.isspace] on ASCII: tab, line feed, vertical tab, form feed,
    carriage return, the four separators 28-31 and the space. *)
Definition isspace (c : ascii) : bool :=
  let n := N_of_ascii c in
  ((9 <=? n) && (n <=? 13)) || ((28 <=? n) && (n <=? 32)).

(** [s.split()] (and [s.strip().split()], which is the same list): the
    maximal runs of non-space characters. *)
Fixpoint split (s : string) : list string :=
  match s with
  | EmptyString => []
  | String c s' =>
      if isspace c then split s'
      else
        match s' with
        | EmptyString => [String c EmptyString]
        | String c' _ =>
            if isspace c' then String c EmptyString :: split s'
            else
              match split s' with
              | tok :: toks => String c tok :: toks
              | [] => [String c EmptyString]
              end
        end
  end.

(** [sep.join(toks)]. *)
Fixpoint join (sep : string) (toks : list string) : string :=
  match toks with
  | [] => ""
  | [t] => t
  | t :: toks' => t ++ sep ++ join sep toks'
  end.

(** [s.startswith('#')]. *)
Definition startswith_hash (s : string) : bool :=
  match s with
  | String c _ => Ascii.eqb c "#"
  | EmptyString => false
  end.

(** The part of a line before its first ['#'] ([np.loadtxt] drops the
    comment). *)
Fixpoint before_hash (s : string) : string :=
  match s with
  | EmptyString => ""
  | String c s' => if Ascii.eqb c "#" then "" else String c (before_hash s')
  end.

Fixpoint spaces (n : nat) : string :=
  match n with
  | O => ""
  | S n' => String " " (spaces n')
  end.

(** [format(s, '>w')]: right-aligned in a field of width [w]. *)
Definition rjust (w : nat) (s : string) : string :=
  spaces (w - String.length s) ++ s.

(** *** Decimal digits *)

Definition digit_char (d : N) : ascii := ascii_of_N (48 + d).

Definition digit_val (c : ascii) : option N :=
  let n := N_of_ascii c in
  if (48 <=? n) && (n <=? 57) then Some (n - 48) else None.

(** The [k] low decimal digits of [n], zero-padded. *)
Fixpoint digits_fixed (k : nat) (n : N) : string :=
  match k with
  | O => ""
  | S k' => digits_fixed k' (n / 10) ++ String (digit_char (n mod 10)) ""
  end.

Fixpoint digits_loop (fuel : nat) (n : N) (acc : string) : string :=
  match fuel with
  | O => acc
  | S fuel' =>
      let acc' := String (digit_char (n mod 10)) acc in
      if n / 10 =? 0 then acc' else digits_loop fuel' (n / 10) acc'
  end.

(** [str(n)] for a natural number: no leading zero, ["0"] for zero.  The
    number of binary digits bounds the number of decimal ones. *)
Definition string_of_N (n : N) : string :=
  digits_loop (S (N.to_nat (N.size n))) n "".

(** ['{:+d}'.format(z)]. *)
Definition format_plus_d (z : Z) : string :=
  ((if (z <? 0)%Z then "-" else "+") ++ string_of_N (Z.abs_N z))%string.

(** A run of digits read as a number, most significant first. *)
Fixpoint digits_value (s : string) (acc : N) : option N :=
  match s with
  | EmptyString => Some acc
  | String c s' =>
      match digit_val c with
      | Some d => digits_value s' (10 * acc + d)
      | None => None
      end
  end.

(** The text before the first ['.'] and, when there is one, the text
    after it. *)
Fixpoint cut_at_dot (s : string) : string * option string :=
  match s with
  | EmptyString => ("", None)
  | String c s' =>
      if Ascii.eqb c "." then ("", Some s')
      else let (a, b) := cut_at_dot s' in (String c a, b)
  end.

Definition cut_sign (s : string) : bool * string :=
  match s with
  | String "-" s' => (true, s')
  | String "+" s' => (false, s')
  | _ => (false, s)
  end.

(** [int(tok)] for a token of the form [[+-]digits]; anything else is a
    [ValueError] ([None]). *)
Definition int_of_token (tok : string) : option Z :=
  let (neg, body) := cut_sign tok in
  match body with
  | EmptyString => None
  | _ =>
      match digits_value body 0 with
      | Some n => Some (if neg then (- Z.of_N n)%Z else Z.of_N n)
      | None => None
      end
  end.

(** [float(tok)] for a token in plain positional notation,
    [[+-]digits[.digits]] with a digit on at least one side of the point;
    the value is exact.  Python's [float] also reads exponents, [inf],
    [nan] and underscores; the writers of this program never produce
    them, and here such a token is a [ValueError] ([None]). *)
Definition decimal_of_token (tok : string) : option Q :=
  let (neg, body) := cut_sign tok in
  let (ip, fp) := cut_at_dot body in
  let fp := match fp with Some f => f | None => "" end in
  match (String.length ip + String.length fp)%nat with
  | O => None
  | _ =>
      match digits_value ip 0, digits_value fp 0 with
      | Some a, Some b =>
          let scale := (10 ^ Z.of_nat (String.length fp))%Z in
          let m := (Z.of_N a * scale + Z.of_N b)%Z in
          Some (Qmake (if neg then (- m)%Z else m) (Z.to_pos scale))
      | _, _ => None
      end
  end.

(** *** ['%.4f'] *)

(** Rounding a non-negative rational to the nearest integer, ties to the
    even one (what a correctly rounded [printf] does with the exact value
    of a double). *)
Definition round_half_even (q : Q) : Z :=
  let f := Qfloor q in
  match Qcompare (q - inject_Z f) (1 # 2) with
  | Lt => f
  | Gt => (f + 1)%Z
  | Eq => if Z.even f then f else (f + 1)%Z
  end.

(** The number of ten-thousandths ['%.4f'] prints for [x], sign apart. *)
Definition ten_thousandths (x : Q) : N :=
  Z.to_N (round_half_even (Qabs x * inject_Z 10000)).

Definition is_negative (x : Q) : bool := negb (Qle_bool 0 x).

(** The unsigned part of ['%.4f' % x]: integer part, point, four
    decimals. *)
Definition magnitude_4f (x : Q) : string :=
  string_of_N (ten_thousandths x / 10000)
    ++ String "." (digits_fixed 4 (ten_thousandths x mod 10000)).

(** ['%.4f' % x]: sign, integer part, point, four decimals. *)
Definition format_4f (x : Q) : string :=
  ((if is_negative x then "-" else "") ++ magnitude_4f x)%string.

(** The value of the text ['%.4f' % x]. *)
Definition rounded_4f (x : Q) : Q :=
  let m := Z.of_N (ten_thousandths x) in
  Qmake (if is_negative x then (- m)%Z else m) 10000.

(** The text is empty or begins with white space: a field that precedes
    it ends there. *)
Definition at_break (s : string) : bool :=
  match s with
  | EmptyString => true
  | String c _ => isspace c
  end.

(** Every character of [s] passes the test [p]. *)
Fixpoint all_chars (p : ascii -> bool) (s : string) : bool :=
  match s with
  | EmptyString => true
  | String c s' => p c && all_chars p s'
  end.

(** A field as [split] returns them: not empty, no white space. *)
Definition is_field (s : string) : bool :=
  negb (String.length s =? 0)%nat && all_chars (fun c => negb (isspace c)) s.

Definition is_digit (c : ascii) : bool :=
  let n := N_of_ascii c in (48 <=? n) && (n <=? 57).

(** The characters ['%.4f'] can print. *)
Definition is_numeric (c : ascii) : bool :=
  is_digit c || Ascii.eqb c "-" || Ascii.eqb c ".".

(** [*_, a, b = toks]: the last two items; fewer than two is a
    [ValueError]. *)
Fixpoint last_two {A : Type} (toks : list A) : result (A * A) :=
  match toks with
  | [] | [_] => Raise ValueError
  | [a; b] => Ok (a, b)
  | _ :: toks' => last_two toks'
  end.

End Text.


(** ** Floats as the readers handle them

    What the file readers and the command line need from a float: the
    conversions [float(tok)] and [int(tok)] ([None] is Python's
    [ValueError]), subtraction, division and comparison.  Nothing else
    about the numbers matters to them, so they are stated for any such
    structure; [QFloat] is the exact-rational one. *)

Class Float : Type := {
  float : Type;
  float_of_string : string -> option float;
  int_of_string : string -> option Z;
  fsub : float -> float -> float;
  fdiv : float -> float -> float;
  fltb : float -> float -> bool
}.

#[export] Instance QFloat : Float := {|
  float := Q;
  float_of_string := Text.decimal_of_token;
  int_of_string := Text.int_of_token;
  fsub := Qminus;
  fdiv := Qdiv;
  fltb := Formation.Qlt_bool
|}.

Definition py_float `{Float} (tok : string) : result float :=
  match float_of_string tok with
  | Some x => Ok x
  | None => Raise ValueError
  end.

Definition py_int `{Float} (tok : string) : result Z :=
  match int_of_string tok with
  | Some z => Ok z
  | None => Raise ValueError
  end.

(** [l[start:stop]] with Python's treatment of negative and overlong
    indices. *)
Definition slice {A : Type} (l : list A) (start stop : Z) : list A :=
  let n := Z.of_nat (List.length l) in
  let norm i := if (i <? 0)%Z then Z.max 0 (i + n) else Z.min i n in
  let a := norm start in
  let b := norm stop in
  firstn (Z.to_nat (b - a)) (skipn (Z.to_nat a) l).

(** ** numpy arrays of the ranks the readers meet *)

Inductive ndarray (F : Type) : Type :=
  | Scalar (x : F)                   (* shape () *)
  | Vector (v : list F)              (* shape (n,) *)
  | Matrix (rows : list (list F)).   (* shape (r, c) *)

Arguments Scalar {F} x.
Arguments Vector {F} v.
Arguments Matrix {F} rows.

Module Numpy.
Section Numpy.
Context `{Float}.

Local Open Scope py_scope.

(** [np.squeeze] of the [r x c] block [np.loadtxt] has read ([c >= 1]:
    blank lines are skipped): axes of length one disappear. *)
Definition squeeze (rows : list (list float)) : ndarray float :=
  match rows with
  | [] => Vector []
  | [row] => match row with [x] => Scalar x | _ => Vector row end
  | row :: _ =>
      if (List.length row =? 1)%nat then Vector (List.concat rows)
      else Matrix rows
  end.

(** [data.shape[-1]]; a 0-d array has the empty shape. *)
Definition shape_last (data : ndarray float) : result nat :=
  match data with
  | Scalar _ => Raise IndexError
  | Vector v => Ok (List.length v)
  | Matrix rows => Ok (List.length (hd [] rows))
  end.

(** The fields of the data lines: comments dropped, blank lines
    skipped. *)
Definition data_fields (lines : list string) : list (list string) :=
  filter (fun toks => negb (List.length toks =? 0)%nat)
         (map (fun line => Text.split (Text.before_hash line)) lines).

Definition same_width (rows : list (list float)) : bool :=
  match rows with
  | [] => true
  | row :: rest =>
      forallb (fun r => (List.length r =? List.length row)%nat) rest
  end.

(** [np.loadtxt(filename)]: every field of every data line converted, all
    lines of one width, the result squeezed.  Any failure is a
    [ValueError]. *)
Definition loadtxt (lines : list string) : result (ndarray float) :=
  rows <- map_result (map_result py_float) (data_fields lines) ;;
  if same_width rows then Ok (squeeze rows) else Raise ValueError.

(** One line under [usecols=(0, 1, 2)]: only the selected fields are
    looked up and converted (numpy 1.23 and later; a missing field is a
    [ValueError]). *)
Definition field (toks : list string) (j : nat) : result float :=
  match nth_error toks j with
  | Some tok => py_float tok
  | None => Raise ValueError
  end.

Definition fields012 (toks : list string) : result (float * float * float) :=
  a <- field toks 0 ;;
  b <- field toks 1 ;;
  c <- field toks 2 ;;
  Ok (a, b, c).

(** [np.loadtxt(filename, usecols=(0, 1, 2), unpack=True)]: the three
    columns as vectors; with a single data line the block is squeezed to
    a vector and unpacks into three 0-d arrays. *)
Definition loadtxt_unpack3 (lines : list string)
  : result (ndarray float * ndarray float * ndarray float) :=
  rows <- map_result fields012 (data_fields lines) ;;
  match rows with
  | [(a, b, c)] => Ok (Scalar a, Scalar b, Scalar c)
  | _ =>
      Ok (Vector (map (fun r => fst (fst r)) rows),
          Vector (map (fun r => snd (fst r)) rows),
          Vector (map snd rows))
  end.

(** [np.unique(v, return_index=True)]: the sorted distinct values, each
    with the index of its first occurrence. *)
Fixpoint insert_first (x : float) (i : nat) (l : list (float * nat))
  : list (float * nat) :=
  match l with
  | [] => [(x, i)]
  | (y, j) :: l' =>
      if fltb x y then (x, i) :: l
      else if fltb y x then (y, j) :: insert_first x i l'
      else l
  end.

Definition unique_index (v : list float) : list (float * nat) :=
  fold_left (fun acc xi => insert_first (fst xi) (snd xi) acc)
            (combine v (seq 0 (List.length v))) [].

(** [v[index]] for an index array. *)
Definition take (v : list float) (index : list nat) : result (list float) :=
  map_result (getitem v) index.

End Numpy.
End Numpy.

(** ** [dft.py]: [read_dos] and [_read_dos] *)

Module Dft.
Section Dft.
Context `{Float}.

Local Open Scope py_scope.

(** A line that is not skipped as a comment. *)
Definition is_data_line (line : string) : bool :=
  negb (Text.startswith_hash line).

(** [[float(item) for item in line.strip().split()]]. *)
Definition row_fields (line : string) : result (list float) :=
  map_result py_float (Text.split line).

(** The shape [_read_dos] needs of a data line: every field converts and
    there are at least two. *)
Definition good_row (line : string) : Prop :=
  exists x d rest, row_fields line = Ok (x :: d :: rest).

(** The body of the loop of [_read_dos] for a line that is not a
    comment. *)
Definition dos_row (fermi : float) (line : string) : result (float * float) :=
  data <- row_fields line ;;
  e <- getitem data 0 ;;
  d <- getitem data 1 ;;
  Ok (fsub e fermi, d).

Fixpoint _read_dos (data : list string) (fermi : float)
  : result (list float * list float) :=
  match data with
  | [] => Ok ([], [])
  | line :: rest =>
      if Text.startswith_hash line then _read_dos rest fermi
      else
        ed <- dos_row fermi line ;;
        acc <- _read_dos rest fermi ;;
        Ok (fst ed :: fst acc, snd ed :: snd acc)
  end.

(** The auto-detection: the numbers of fields of lines 0, 2 and 3. *)
Definition isDOSCAR (data : list string) : result bool :=
  let num_i := map (fun line => List.length (Text.split line)) (firstn 6 data) in
  n0 <- getitem num_i 0 ;;
  n2 <- getitem num_i 2 ;;
  n3 <- getitem num_i 3 ;;
  Ok ((n0 =? 4)%nat && (n2 =? 1)%nat && (n3 =? 1)%nat).

Definition data_select (data : list string) : result (list string) :=
  is_doscar <- isDOSCAR data ;;
  if is_doscar then
    line <- getitem data 5 ;;
    tok <- getitem (Text.split line) 2 ;;
    NEDOS <- py_int tok ;;
    Ok (slice data 6 (6 + NEDOS))
  else Ok data.

(** [read_dos(doscar, efermi)] on the lines of the file. *)
Definition read_dos (data : list string) (efermi : float)
  : result (list float * list float) :=
  sel <- data_select data ;;
  _read_dos sel efermi.

End Dft.

(** The ordering invariant the specification gives a DOS table: energies
    strictly increasing. *)
Fixpoint strictly_increasing (energy : list Q) : bool :=
  match energy with
  | x :: (y :: _) as rest => Formation.Qlt_bool x y && strictly_increasing rest
  | _ => true
  end.

(** A plain two-column file of two lines. *)
Definition two_line_file : list string :=
  ["0.0 1.0" ++ Text.lf; "1.0 2.0" ++ Text.lf]%string.

(** A plain two-column file whose energies decrease. *)
Definition unordered_file : list string :=
  ["3.0 1.0" ++ Text.lf; "2.0 1.5" ++ Text.lf;
   "1.0 2.0" ++ Text.lf; "0.0 2.5" ++ Text.lf]%string.

(** The same file with a line that is not numeric. *)
Definition malformed_file : list string :=
  ["3.0 1.0" ++ Text.lf; "2.0 n/a" ++ Text.lf;
   "1.0 2.0" ++ Text.lf; "0.0 2.5" ++ Text.lf]%string.

End Dft.


(** ** [defect.py]: the data file [formation] writes and its readers *)

Module Defect.

Local Open Scope string_scope.
Local Open Scope py_scope.

Definition newline : string := Text.lf.

(** [np.savetxt(filedata, X, fmt='%.4f', header=header)]: the header as a
    comment line, then one line per row, fields separated by a space. *)
Definition savetxt (X : list (list Q)) (header : string) : list string :=
  ("# " ++ header ++ newline)
    :: map (fun row => Text.join " " (map Text.format_4f row) ++ newline) X.

(** Lines 307-309: the column names, then the volume and the default
    [gx = 1]. *)
Definition header (valence : list Z) (Volume : Q) : string :=
  "Ef, Eformation"
    ++ String.concat "" (map (fun q => ", q_" ++ Text.format_plus_d q) valence)
    ++ "; " ++ Text.rjust 12 (Text.format_4f Volume) ++ "    1".

(** [formation], from "calculation" on: the file it writes.  The report
    printed on the way reads [miu[0, 0]], which fails on an empty grid
    before anything is written. *)
Definition formation (ipt : Formation.Input) (Volume : Q) : result (list string) :=
  match Formation.miu ipt with
  | [] => Raise IndexError
  | _ => Ok (savetxt (Formation.table ipt)
                     (header (Formation.valence ipt) Volume))
  end.

(** What [unpack=True] makes of a column: a 0-d array when the file has
    one data line, a vector otherwise. *)
Definition unpacked {F : Type} (col : list F) : ndarray F :=
  match col with
  | [x] => Scalar x
  | _ => Vector col
  end.

Section Readers.
Context `{Float}.

(** [f.readline()]: the first line, or the empty string at end of file. *)
Definition readline (lines : list string) : string :=
  match lines with
  | [] => ""
  | line :: _ => line
  end.

(** [*_, volume, gx = header.strip().split()] and the two conversions. *)
Definition read_header (lines : list string) : result (float * float) :=
  vg <- Text.last_two (Text.split (readline lines)) ;;
  volume <- py_float (fst vg) ;;
  gx <- py_float (snd vg) ;;
  Ok (volume, gx).

(** The branch [to_reduce]: one sample per distinct value of the third
    column.  A 0-d array cannot be indexed by the index array. *)
Definition reduce (cols : ndarray float * ndarray float * ndarray float)
  : result (ndarray float * ndarray float * ndarray float) :=
  match cols with
  | (Vector Efermi, Vector energy, Vector charge) =>
      let ui := Numpy.unique_index charge in
      let index := map snd ui in
      Efermi' <- Numpy.take Efermi index ;;
      energy' <- Numpy.take energy index ;;
      Ok (Vector Efermi', Vector energy', Vector (map fst ui))
  | _ => Raise IndexError
  end.

Definition read_formation (lines : list string) (to_reduce : bool)
  : result ((ndarray float * ndarray float * ndarray float) * float * float) :=
  vg <- read_header lines ;;
  cols <- Numpy.loadtxt_unpack3 lines ;;
  cols <- (if to_reduce then reduce cols else Ok cols) ;;
  Ok (cols, fst vg, snd vg).

(** [np.pad(data, ((0, 0), (0, 1)), constant_values=gx)]: one more column;
    the two-axis pad width does not fit an array of another rank. *)
Definition pad_column (data : ndarray float) (gx : float) : result (ndarray float) :=
  match data with
  | Matrix rows => Ok (Matrix (map (fun row => (row ++ [gx])%list) rows))
  | _ => Raise ValueError
  end.

(** [data[:, :3]]: two indices need two axes. *)
Definition first_three_columns (data : ndarray float) : result (ndarray float) :=
  match data with
  | Matrix rows => Ok (Matrix (map (firstn 3) rows))
  | _ => Raise IndexError
  end.

Definition read_H0 (lines : list string) : result (ndarray float * float) :=
  vg <- read_header lines ;;
  data <- Numpy.loadtxt lines ;;
  n <- Numpy.shape_last data ;;
  if (n =? 3)%nat then Ok (data, fst vg)
  else if (n =? 2)%nat then
    data' <- pad_column data (snd vg) ;; Ok (data', fst vg)
  else if (n <? 2)%nat then
    Raise (RuntimeError "Charge and H0 columns must be included.")
  else
    data' <- first_three_columns data ;; Ok (data', fst vg).

(** The number of columns of a block of rows. *)
Definition width (rows : list (list float)) : nat := List.length (hd [] rows).

(** The fields [usecols=(0, 1, 2)] needs of a data line. *)
Definition good_fields (toks : list string) : Prop :=
  exists a b c, Numpy.fields012 toks = Ok (a, b, c).

End Readers.

(** A charge/H0 file with a single column: header, then three lines of
    one number. *)
Definition one_column_file : list string :=
  ["# q H0; 100.0 1" ++ Text.lf; "1" ++ Text.lf; "2" ++ Text.lf;
   "3" ++ Text.lf].

(** A charge/H0 file with two columns and two rows. *)
Definition two_column_file : list string :=
  ["# q H0; 100.0 4" ++ Text.lf; "0 1.5" ++ Text.lf; "1 0.5" ++ Text.lf].

End Defect.

(** ** [cli.py]: the branches [scfermi] and [equi] of [cmd] *)

Module Cli.

Local Open Scope string_scope.
Local Open Scope py_scope.

Section Cli.
Context `{Float}.

(** An item of the tuple [scfermi] returns: a number, or a sequence of
    numbers (one per defect). *)
Inductive value : Type :=
  | Num (x : float)
  | Seq (xs : list float).

(** What [print] is given. *)
Inductive printed : Type :=
  | Raw (items : list value)
  | Labelled (label : string) (x : float).

(** ['{:.3f}'.format(v)] and the like: a sequence has no such format. *)
Definition as_number (v : value) : result float :=
  match v with
  | Num x => Ok x
  | Seq _ => Raise TypeError
  end.

Definition dsp : string * string * string :=
  ("Self-consistent Fermi level (eV)",
   "Equilibrium carrier concentration (cm^-3)",
   "Net number of electron in cell").

(** Lines 175-190: what the branch [scfermi] prints for the tuple [out]
    returned by [scfermi(..., detail=is_detail)]. *)
Definition scfermi_report (is_quiet is_detail : bool) (out : list value)
  : result (list printed) :=
  if is_quiet then Ok [Raw out]
  else if is_detail then
    match out with
    | [n_p; EF; Ne] =>
        EF <- as_number EF ;;
        Ne <- as_number Ne ;;
        n_p <- as_number n_p ;;
        Ok [Labelled (fst (fst dsp)) EF;
            Labelled (snd (fst dsp)) Ne;
            Labelled (snd dsp) n_p]
    | _ => Raise ValueError
    end
  else
    match out with
    | [EF; Ne] =>
        EF <- as_number EF ;;
        Ne <- as_number Ne ;;
        Ok [Labelled (fst (fst dsp)) EF; Labelled (snd (fst dsp)) Ne]
    | _ => Raise ValueError
    end.

(** [X /= D] row by row, [D] being [data[:, 3:4]]: one divisor per row,
    or no column at all when the table has at most three. *)
Definition divide_row (xs ds : list float) : list float :=
  match ds with
  | [d] => map (fun x => fdiv x d) xs
  | _ => xs
  end.

(** [data[:, 4:] /= data[:, 3:4]]. *)
Definition divide_by_total (data : list (list float)) : list (list float) :=
  map (fun row =>
         (firstn 4 row ++ divide_row (skipn 4 row) (firstn 1 (skipn 3 row)))%list)
      data.

(** Lines 241-243. *)
Definition equi_data (is_detail ratio : bool) (data : list (list float))
  : list (list float) :=
  if is_detail && ratio then divide_by_total data else data.

(** [Ef, q_eff, H_eff, *Nq = dd] in [disp]. *)
Definition disp_row (dd : list float)
  : result (float * float * float * list float) :=
  match dd with
  | Ef :: q_eff :: H_eff :: Nq => Ok (Ef, q_eff, H_eff, Nq)
  | _ => Raise ValueError
  end.

(** The branch [equi] after the call of [equ_defect]: the header when not
    quiet, and the rows [disp] prints. *)
Definition equi_report (is_quiet is_detail ratio : bool)
  (out : string * list (list float))
  : result (option string * list (float * float * float * list float)) :=
  let data := equi_data is_detail ratio (snd out) in
  rows <- map_result disp_row data ;;
  Ok (if is_quiet then None else Some (fst out), rows).


End Cli.

(** A scan of two Fermi levels in detail mode: Fermi level, effective
    charge, effective energy, total concentration and two per-charge
    concentrations. *)
Definition scan : list (list Q) :=
  [[0; 1; 2; 10; 4; 6]; [1 # 2; 0; 3; 8; 2; 6]]%Q.

End Cli.


(** ** The self-consistent solver, from the specification *)

Module Fermi.

Local Open Scope Q_scope.

(** Modelled from the spec: the fatal error of section 7 that [solve]
    raises, "charge-neutrality unsolvable in given interval". *)
Inductive SolverError : Type :=
  | NoBracketError.

(** Modelled from the spec: the flag that comes with the Fermi level,
    reached the tolerance or ran out of iterations ([ConvergenceWarning],
    "non-fatal, best estimate returned with a flag"). *)
Inductive Status : Type :=
  | Converged
  | ConvergenceWarning.

(** The sign of a residual: [-1], [0] or [1]. *)
Definition sign (x : Q) : Z := Z.sgn (Qnum x).

Section Solve.

(** The charge-neutrality residual [R(Ef)], the absolute tolerance on
    [Ef] and the iteration budget. *)
Variable R : Q -> Q.
Variable tol : Q.
Variable max_iter : nat.

Definition opposite_signs (a b : Q) : bool :=
  (sign a * sign b <? 0)%Z.

(** Modelled from the spec: the root finder of [scfermi] ([fermi.py] is
    not among the sources).  Section 4.3: "bisection (or equivalent
    bracketing method) over [Emin, Emax]"; "converge to a fixed absolute
    tolerance on Ef or max iteration count; on non-convergence within
    the iteration budget, return the best estimate and signal a
    ConvergenceWarning".  The bracket is halved; the left half is kept
    unless the residuals at its two ends have the same strict sign. *)
Fixpoint bisect (n : nat) (lo hi : Q) : Q * Q * Status :=
  match n with
  | O => (lo, hi, ConvergenceWarning)
  | S n' =>
      if Qle_bool (hi - lo) tol then (lo, hi, Converged)
      else
        let mid := (lo + hi) / 2 in
        if (0 <? sign (R lo) * sign (R mid))%Z then bisect n' mid hi
        else bisect n' lo mid
  end.

(** Modelled from the spec: [solve] of section 4.3 ([scfermi], absent
    from the sources): "requiring R(Emin) and R(Emax) to have opposite
    signs - if not, fail with a NoBracketError"; otherwise the Fermi
    level is the middle of the last bracket. *)
Definition solve (Emin Emax : Q) : SolverError + Q * Status :=
  if opposite_signs (R Emin) (R Emax) then
    let '(lo, hi, status) := bisect max_iter Emin Emax in
    inr ((lo + hi) / 2, status)
  else inl NoBracketError.

End Solve.

(** A residual with one root in the gap: [R(Ef) = 1/2 - Ef]. *)
Definition sample_residual (Ef : Q) : Q := (1 # 2) - Ef.

End Fermi.


(** ** Carrier concentrations, from the specification *)

Module Carrier.
Import Reals.
Local Open Scope R_scope.

(** Modelled from the spec: the DOS table of section 3, an "ordered
    array of [(energy, dos)] pairs". *)
Definition DOSTable : Type := list (R * R).

(** Modelled from the spec: its invariant, "energy strictly increasing;
    dos >= 0". *)
Definition valid (dos : DOSTable) : Prop :=
  StronglySorted (fun p q => fst p < fst q) dos /\
  Forall (fun p => 0 <= snd p) dos.

Section Carrier.

(** The physical constants (Boltzmann constant in eV/K, the conversion
    from per cubic angstrom to per cubic centimetre), the threshold
    beyond which the occupation is saturated, and the band edges: the
    valence onset and the conduction onset. *)
Variable kB : R.
Variable per_cm3 : R.
Variable cutoff : R.
Variable E_valence : R.
Variable E_conduction : R.

(** Modelled from the spec: the Fermi-Dirac occupation of section 4.1
    ([fermi.py] is not among the sources), [f(x, T) = 1/(1 + exp(x/kT))],
    with the exponent clamped: "saturate occupation to 0 or 1 beyond a
    numeric threshold". *)
Definition occupation (x T : R) : R :=
  let t := x / (kB * T) in
  if Rlt_dec cutoff t then 0
  else if Rlt_dec t (- cutoff) then 1
  else / (1 + exp t).

(** Modelled from the spec: "integration is numerical (trapezoid over the
    tabulated grid)". *)
Fixpoint trapezoid (pts : list (R * R)) : R :=
  match pts with
  | p :: (q :: _) as rest =>
      (fst q - fst p) * (snd p + snd q) / 2 + trapezoid rest
  | _ => 0
  end.

(** The points of the table from an energy on, and up to an energy. *)
Definition above (E0 : R) (dos : DOSTable) : DOSTable :=
  filter (fun p => if Rle_dec E0 (fst p) then true else false) dos.

Definition below (E0 : R) (dos : DOSTable) : DOSTable :=
  filter (fun p => if Rle_dec (fst p) E0 then true else false) dos.

(** Modelled from the spec: "integrate [dos(E) * f(E - Ef, T)] over
    energies above the conduction onset"; "result divided by [volume]"
    with the fixed unit conversion. *)
Definition n_electron (dos : DOSTable) (Ef T volume : R) : R :=
  per_cm3
  * trapezoid (map (fun p => (fst p, snd p * occupation (fst p - Ef) T))
                   (above E_conduction dos))
  / volume.

(** Modelled from the spec: "hole concentration integrates
    [dos(E) * (1 - f(E - Ef, T))] below the valence onset". *)
Definition n_hole (dos : DOSTable) (Ef T volume : R) : R :=
  per_cm3
  * trapezoid (map (fun p => (fst p, snd p * (1 - occupation (fst p - Ef) T)))
                   (below E_valence dos))
  / volume.

(** Modelled from the spec: the contract of section 4.1,
    [carrier_concentrations(dos, Ef, T, volume) -> (n_electron, n_hole)]. *)
Definition carrier_concentrations (dos : DOSTable) (Ef T volume : R) : R * R :=
  (n_electron dos Ef T volume, n_hole dos Ef T volume).

End Carrier.

(** A valence band over [[-1, 0]] eV and a conduction band over
    [[1, 2]] eV, three samples each, around a gap of 1 eV. *)
Definition two_band_dos : DOSTable :=
  [(-1, 1); (-1 / 2, 2); (0, 1); (1, 1); (3 / 2, 2); (2, 1)].

End Carrier.


(** ** More of [defect.py], [dft.py] and [cli.py] *)

(** Exceptions the functions below raise besides those of [PyExn]. *)
Inductive Failure : Type :=
  | Python (e : PyExn)
  | UnboundLocalError (name : string)
  | AttributeError (name : string)
  | KeyError (key : string)
  | ZeroDivisionError.

Inductive outcome (A : Type) : Type :=
  | Done (a : A)
  | Fails (e : Failure).

Arguments Done {A} a.
Arguments Fails {A} e.

Definition and_then {A B : Type} (r : outcome A) (k : A -> outcome B)
  : outcome B :=
  match r with
  | Done a => k a
  | Fails e => Fails e
  end.

Definition lift {A : Type} (r : result A) : outcome A :=
  match r with
  | Ok a => Done a
  | Raise e => Fails (Python e)
  end.

Declare Scope outcome_scope.
Delimit Scope outcome_scope with outcome.
Notation "x <-- r ;; k" := (and_then r (fun x => k))
  (at level 61, r at next level, right associativity) : outcome_scope.

Module DefectMore.

Local Open Scope Q_scope.

(** The energy [E0q[a] + q[a] * mu] of charge state number [a]: entry
    [a] of a row of [Eform]. *)
Definition state_energy (ipt : Formation.Input) (a : nat) (mu : Q) : Q :=
  inject_Z (nth a (Formation.valence ipt) 0%Z) * mu
  + nth a (Formation.E0q ipt) 0.

(** The order [np.unique] sorts the pairs (value, first index) by. *)
Definition value_lt (p q : Q * nat) : Prop := fst p < fst q.

(** What [np.unique] has to have found once the samples [pre] are
    scanned: values in strictly increasing order, each with the index of
    its first occurrence, every sample represented. *)
Definition scanned (pre : list Q) (acc : list (Q * nat)) : Prop :=
  StronglySorted value_lt acc /\
  (forall y j, In (y, j) acc ->
     nth_error pre j = Some y /\
     forall j' y', (j' < j)%nat -> nth_error pre j' = Some y' -> ~ y' == y) /\
  (forall j x, nth_error pre j = Some x ->
     exists y j0, In (y, j0) acc /\ x == y).

(** Three charge states, each the ground state somewhere on the grid
    [0, 1/2, ..., 3]: [+1] up to [Ef = 1], [0] up to [Ef = 2], [-1] beyond. *)
Definition three_state_input : Formation.Input :=
  {| Formation.valence := [-1; 0; 1]%Z;
     Formation.E0q := [4; 2; 1];
     Formation.emin := 0; Formation.emax := 3; Formation.npts := 7 |}.

(** The same states on the single-point grid [Ef = 0]. *)
Definition single_point_input : Formation.Input :=
  {| Formation.valence := [-1; 0; 1]%Z;
     Formation.E0q := [4; 2; 1];
     Formation.emin := 0; Formation.emax := 3; Formation.npts := 1 |}.

(** A data file whose third column takes the values 1 and 0 twice each. *)
Definition repeated_charge_file : list string :=
  [ "# Ef, Eformation, q; 100.0 1" ++ Text.lf;
    "0.0 1.5 1" ++ Text.lf;
    "0.5 1.0 0" ++ Text.lf;
    "1.0 0.5 1" ++ Text.lf;
    "1.5 1.0 0" ++ Text.lf ]%string.

End DefectMore.

(** ** Further inputs of the readers *)

Module ReaderInputs.

Local Open Scope string_scope.

(** A charge/H0 file of three lines, each with charge, H0 and a
    degeneracy of its own. *)
Definition three_column_file : list string :=
  ["# q H0 gx; 100.0 4" ++ Text.lf; "0 1.5 2" ++ Text.lf;
   "1 0.5 1" ++ Text.lf; "2 0.1 3" ++ Text.lf].

(** A charge/H0 file with a single data line of two fields. *)
Definition single_row_file : list string :=
  ["# q H0; 100.0 4" ++ Text.lf; "0 1.5" ++ Text.lf].

(** A charge/H0 file that stops after its header line. *)
Definition header_only_file : list string :=
  ["# q H0; 100.0 4" ++ Text.lf].

(** The six header lines of a DOSCAR that announces two DOS lines
    ([NEDOS], the third field of the sixth line). *)
Definition doscar_header : list string :=
  ["   2   2   1   0" ++ Text.lf;
   "  0.2E+02  0.5E-09  0.5E-09  0.5E-09  0.5E-15" ++ Text.lf;
   "  1.0E-04" ++ Text.lf;
   "  CAR" ++ Text.lf;
   " unknown system" ++ Text.lf;
   "     10.0  -5.0  2  4.5  1.0" ++ Text.lf].

(** The total DOS block: energy, DOS, integrated DOS. *)
Definition doscar_block : list string :=
  ["  -5.0  0.0  0.0" ++ Text.lf; "  10.0  1.5  3.0" ++ Text.lf].

(** What follows the total DOS in a DOSCAR: the header of the first
    projected block. *)
Definition doscar_tail : list string :=
  ["     10.0  -5.0  2  4.5  1.0" ++ Text.lf; "  -5.0  s p d" ++ Text.lf].

End ReaderInputs.

(** ** [cli.py]: the Fermi levels of the task [equi] *)

Module CliMore.

Local Open Scope Q_scope.


End CliMore.

(** ** [defect.py]: [InputList.check] *)

Module InputList.

Local Open Scope string_scope.

(** The attribute [ddname]: the string ['auto'], or the names of the
    directories of the charge states. *)
Inductive Ddname : Type :=
  | Auto
  | Names (names : list string).

(** Lines 65-70: the directory [check] names for the charge [van]. *)
Definition auto_name (prefix : string) (van : Z) : string :=
  if (van =? 0)%Z then prefix ++ "0" else prefix ++ Text.format_plus_d van.

(** [sorted(pairs, key=lambda x: x[0])]: pairs of equal valence keep
    their order. *)
Fixpoint insert_sorted (p : Z * string) (l : list (Z * string))
  : list (Z * string) :=
  match l with
  | [] => [p]
  | q :: l' =>
      if (fst p <=? fst q)%Z then p :: l else q :: insert_sorted p l'
  end.

Definition sorted_by_valence (l : list (Z * string)) : list (Z * string) :=
  fold_right insert_sorted [] l.

(** The names [check] pairs with the valences. *)
Definition names_of (valence : list Z) (ddname : Ddname) (prefix : string)
  : list string :=
  match ddname with
  | Auto => map (auto_name prefix) valence
  | Names names => names
  end.

(** [check]: the new attributes [valence] and [ddname].  [zip] stops at
    the shorter list, and no pair of tuples can be unpacked when there is
    nothing to unzip. *)
Definition check (valence : list Z) (ddname : Ddname) (prefix : string)
  : result (list Z * list string) :=
  match sorted_by_valence (combine valence (names_of valence ddname prefix)) with
  | [] => Raise ValueError
  | dd => Ok (map fst dd, map snd dd)
  end.

End InputList.

(** ** [defect.py]: the summary of [formation] *)

Module Summary.

Local Open Scope Q_scope.
Local Open Scope outcome_scope.

(** A float parameter of the input list: a number, or [float('inf')],
    the default that stands for "not given". *)
Inductive setting : Type :=
  | Given (x : Q)
  | Inf.

(** [l[::2]]. *)
Fixpoint every_other (l : list Q) : list Q :=
  match l with
  | [] => []
  | [x] => [x]
  | x :: _ :: rest => x :: every_other rest
  end.

(** [sum(l)]. *)
Definition sum (l : list Q) : Q := fold_left Qplus l 0.

(** Lines 217-227: [Dcm] is bound only on the branch of a non-empty
    [cmpot]; [rm] and [ad] are its entries of even and odd index. *)
Definition chemical_potential (cmpot : list Q) : option Q :=
  match cmpot with
  | [] => None
  | _ => Some (sum (every_other cmpot) - sum (every_other (tl cmpot)))
  end.

(** Lines 230-241: [Eic_q2], the image-charge correction per squared
    charge. *)
Definition image_charge (ewald epsilon : setting) : outcome Q :=
  match ewald, epsilon with
  | Given w, Given e =>
      if Formation.Qlt_bool (inject_Z 100000000) e then Done 0
      else if Qeq_bool e 0 then Fails ZeroDivisionError
      else Done (2 / 3 * w / e)
  | _, _ => Done 0
  end.

(** The body of the loop of lines 272-279. *)
Definition E0_of (Evbm Eperfect pot1 Eic_q2 Dcm : Q) (row : Z * Q * Q) : Q :=
  let '(q, Ed, pot) := row in
  let dE := Ed - Eperfect in
  let Eq := inject_Z q * Evbm in
  let Eic := inject_Z (q ^ 2) * Eic_q2 in
  let Epa := inject_Z q * (pot - pot1) in
  dE + Dcm + Eq + Epa + Eic.

(** Lines 216-283, the files read on the way taken as read: the energy
    [E0q] of each charge state from the valence band maximum [Evbm], the
    energy [Eperfect] and the potential [pot1] of the perfect cell, and the
    energies [Edefect] and potentials [pot2] of the defect cells. *)
Definition summary (cmpot : list Q) (ewald epsilon : setting)
    (Evbm Eperfect pot1 : Q)
    (valence : list Z) (Edefect pot2 : list Q) : outcome (list Q) :=
  Eic_q2 <-- image_charge ewald epsilon ;;
  match chemical_potential cmpot with
  | None => Fails (UnboundLocalError "Dcm")
  | Some Dcm =>
      Done (map (E0_of Evbm Eperfect pot1 Eic_q2 Dcm)
                (combine (combine valence Edefect) pot2))
  end.

End Summary.

(** ** [dft.py]: the class [Cell] *)

Module Cell.

Local Open Scope string_scope.
Local Open Scope outcome_scope.

(** The attributes of a [Cell] that [uniquepos] and [replace] read or
    write ([atom_pot] is never assigned). *)
Record Cell : Type := {
  basis : list (list Q);
  sites : list (list Q);
  atoms : list string;
  labels : list string;
  atom_type : list string;
  atom_num : list Z
}.

(** An [OrderedDict] from symbols to lists of positions: the items in
    the order of insertion. *)
Definition OrderedDict : Type := list (string * list nat).

Definition contains (d : OrderedDict) (k : string) : bool :=
  existsb (fun kv => String.eqb k (fst kv)) d.

(** [if elmt not in atoms_uni: atoms_uni[elmt] = []]. *)
Definition add_key (d : OrderedDict) (elmt : string) : OrderedDict :=
  if contains d elmt then d else (d ++ [(elmt, [])])%list.

(** [atoms_uni[atom].append(pidx)]. *)
Fixpoint append_to (d : OrderedDict) (atom : string) (pidx : nat)
  : outcome OrderedDict :=
  match d with
  | [] => Fails (KeyError atom)
  | (k, l) :: d' =>
      if String.eqb atom k then Done ((k, (l ++ [pidx])%list) :: d')
      else d'' <-- append_to d' atom pidx ;; Done ((k, l) :: d'')
  end.

(** The body of the loop of lines 91-94 for one pair of
    [zip(number, atoms)]: [num] positions from [pidx] on go to [atom]. *)
Definition fill (st : outcome (OrderedDict * nat)) (pair : Z * string)
  : outcome (OrderedDict * nat) :=
  st <-- st ;;
  d <-- fold_left (fun d i => d <-- d ;; append_to d (snd pair) i)
                  (seq (snd st) (Z.to_nat (fst pair))) (Done (fst st)) ;;
  Done (d, (snd st + Z.to_nat (fst pair))%nat).

(** The loop that renews [atoms]: each symbol as many times as it has
    sites. *)
Definition symbols (number : list nat) (types : list string) : list string :=
  flat_map (fun ns => repeat (snd ns) (fst ns)) (combine number types).

(** The loop that renews [labels]: symbol and running number from 1. *)
Definition numbered (number : list nat) (types : list string) : list string :=
  flat_map (fun ns =>
              map (fun idx => snd ns ++ Text.string_of_N (N.of_nat idx))
                  (seq 1 (fst ns)))
           (combine number types).

Definition uniquepos (c : Cell) : outcome Cell :=
  let atoms_uni := fold_left add_key (atom_type c) [] in
  st <-- fold_left fill (combine (atom_num c) (atom_type c))
                   (Done (atoms_uni, O)) ;;
  let atoms_uni := fst st in
  let atoms2 := map fst atoms_uni in
  let number2 := map (fun kv => List.length (snd kv)) atoms_uni in
  let posidx := List.concat (map snd atoms_uni) in
  sites' <-- lift (map_result (getitem (sites c)) posidx) ;;
  Done {| basis := basis c;
          sites := sites';
          atoms := symbols number2 atoms2;
          labels := numbered number2 atoms2;
          atom_type := atoms2;
          atom_num := map Z.of_nat number2 |}.

(** [l.index(x)]. *)
Fixpoint index (x : string) (l : list string) : option nat :=
  match l with
  | [] => None
  | y :: l' => if String.eqb x y then Some O else option_map S (index x l')
  end.

(** [l[idx] = x] for an index in range. *)
Fixpoint set_item {A : Type} (l : list A) (idx : nat) (x : A) : list A :=
  match l, idx with
  | [], _ => []
  | _ :: l', O => x :: l'
  | y :: l', S idx' => y :: set_item l' idx' x
  end.

(** [l.insert(idx, x)]. *)
Definition insert {A : Type} (l : list A) (idx : nat) (x : A) : list A :=
  (firstn idx l ++ x :: skipn idx l)%list.

Definition replace (c : Cell) (atom1 atom2 : string) : outcome Cell :=
  match index atom1 (atom_type c) with
  | None => Fails (Python (RuntimeError ("Failed to locate " ++ atom1)))
  | Some idx =>
      n <-- lift (getitem (atom_num c) idx) ;;
      let types_nums :=
        if (n =? 1)%Z then (set_item (atom_type c) idx atom2, atom_num c)
        else (insert (atom_type c) idx atom2,
              insert (set_item (atom_num c) idx (n - 1)%Z) idx 1%Z) in
      uniquepos {| basis := basis c;
                   sites := sites c;
                   atoms := atoms c;
                   labels := labels c;
                   atom_type := fst types_nums;
                   atom_num := snd types_nums |}
  end.

(** The symbol of every site in the order of the file: each symbol of
    [zip(number, atoms)] as many times as its number says, the way the
    loop of [uniquepos] hands out the positions. *)
Definition species (number : list Z) (types : list string) : list string :=
  flat_map (fun ns => repeat (snd ns) (Z.to_nat (fst ns)))
           (combine number types).

(** The positions the loop hands out, each with its symbol, counting
    from [pidx]. *)
Fixpoint assigned (pairs : list (Z * string)) (pidx : nat)
  : list (string * nat) :=
  match pairs with
  | [] => []
  | (num, atom) :: rest =>
      (map (pair atom) (seq pidx (Z.to_nat num))
         ++ assigned rest (pidx + Z.to_nat num))%list
  end.

(** The value of a key, the empty list for an absent one. *)
Fixpoint lookup (d : OrderedDict) (k : string) : list nat :=
  match d with
  | [] => []
  | (k', l) :: d' => if String.eqb k k' then l else lookup d' k
  end.

(** Two Ga, one As, two Ga again: the positions of a cell that is not
    yet grouped by species. *)
Definition scattered_cell : Cell :=
  {| basis := [[1; 0; 0]; [0; 1; 0]; [0; 0; 1]];
     sites := [[0; 0; 0]; [1 # 2; 0; 0]; [0; 1 # 2; 0];
               [0; 0; 1 # 2]; [1 # 2; 1 # 2; 0]];
     atoms := []; labels := [];
     atom_type := ["Ga"; "As"; "Ga"];
     atom_num := [2; 1; 2]%Z |}.

(** The same cell with its last site missing. *)
Definition short_cell : Cell :=
  {| basis := basis scattered_cell;
     sites := firstn 4 (sites scattered_cell);
     atoms := []; labels := [];
     atom_type := atom_type scattered_cell;
     atom_num := atom_num scattered_cell |}.

(** The same cell once [uniquepos] has run. *)
Definition grouped_cell : Cell :=
  {| basis := [[1; 0; 0]; [0; 1; 0]; [0; 0; 1]];
     sites := [[0; 0; 0]; [1 # 2; 0; 0]; [0; 0; 1 # 2];
               [1 # 2; 1 # 2; 0]; [0; 1 # 2; 0]];
     atoms := ["Ga"; "Ga"; "Ga"; "Ga"; "As"];
     labels := ["Ga1"; "Ga2"; "Ga3"; "Ga4"; "As1"];
     atom_type := ["Ga"; "As"];
     atom_num := [4; 1]%Z |}.

End Cell.

(** ** Methods of [str] *)

Module Strings.

Local Open Scope string_scope.

(** [needle in hay]. *)
Fixpoint substring_in (needle hay : string) : bool :=
  String.prefix needle hay
  || match hay with
     | EmptyString => false
     | String _ hay' => substring_in needle hay'
     end.

(** [c in s] for a character. *)
Fixpoint char_in (c : ascii) (s : string) : bool :=
  match s with
  | EmptyString => false
  | String a s' => Ascii.eqb a c || char_in c s'
  end.

(** [s.lstrip()], [s.rstrip()] and [s.strip()]. *)
Fixpoint lstrip (s : string) : string :=
  match s with
  | EmptyString => EmptyString
  | String c s' => if Text.isspace c then lstrip s' else s
  end.

Fixpoint rstrip (s : string) : string :=
  match s with
  | EmptyString => EmptyString
  | String c s' =>
      match rstrip s' with
      | EmptyString => if Text.isspace c then EmptyString
                       else String c EmptyString
      | rest => String c rest
      end
  end.

Definition strip (s : string) : string := rstrip (lstrip s).

(** [s.lower()] on ASCII. *)
Definition lower_char (c : ascii) : ascii :=
  let n := N_of_ascii c in
  if (65 <=? n)%N && (n <=? 90)%N then ascii_of_N (n + 32) else c.

Fixpoint lower (s : string) : string :=
  match s with
  | EmptyString => EmptyString
  | String c s' => String (lower_char c) (lower s')
  end.

(** [s.split(sep, 1)] for a string that contains [sep]: what precedes
    the first [sep] and what follows it. *)
Fixpoint split_once (sep : ascii) (s : string) : string * string :=
  match s with
  | EmptyString => (EmptyString, EmptyString)
  | String c s' =>
      if Ascii.eqb c sep then (EmptyString, s')
      else let (a, b) := split_once sep s' in (String c a, b)
  end.

(** [s.split(sep)] for a separator of one character: the pieces between
    the separators, empty ones included. *)
Fixpoint split_on (sep : ascii) (s : string) : list string :=
  match s with
  | EmptyString => [EmptyString]
  | String c s' =>
      if Ascii.eqb c sep then EmptyString :: split_on sep s'
      else
        match split_on sep s' with
        | piece :: pieces => String c piece :: pieces
        | [] => [String c EmptyString]
        end
  end.

End Strings.

(** ** [dft.py]: the readers of single numbers of an OUTCAR *)

Module Outcar.
Import Strings.

Local Open Scope string_scope.
Local Open Scope py_scope.
Local Open Scope outcome_scope.

(** The line at which [for line in reversed(data): if ...: break]
    stops. *)
Definition last_match (needle : string) (data : list string)
  : option string :=
  find (substring_in needle) (rev data).

(** [toks[-1]]. *)
Definition last_item (toks : list string) : result string :=
  match rev toks with
  | tok :: _ => Ok tok
  | [] => Raise IndexError
  end.

Section Readers.
Context `{Float}.

(** [float(s)] for a string that may carry blanks around the number:
    they are stripped, and what is left has to be one token. *)
Definition float_of_padded (s : string) : result float :=
  match Text.split s with
  | [tok] => py_float tok
  | _ => Raise ValueError
  end.

(** [float(line.rstrip().split()[-1])]. *)
Definition last_number (line : string) : result float :=
  tok <- last_item (Text.split (rstrip line)) ;; py_float tok.

(** [read_energy]: [energy] is assigned in the loop only. *)
Definition read_energy (data : list string) : outcome float :=
  match last_match "sigma" data with
  | Some line => lift (last_number line)
  | None => Fails (UnboundLocalError "energy")
  end.

(** [read_volume]: the conversion comes after the loop, and applies to
    whatever [line] is then: the line of the [break], or the line the
    loop ended with, the first of the file. *)
Definition read_volume (data : list string) : outcome float :=
  match last_match "volume" data with
  | Some line => lift (last_number line)
  | None =>
      match data with
      | line :: _ => lift (last_number line)
      | [] => Fails (UnboundLocalError "line")
      end
  end.

End Readers.

(** [read_ewald]: the number after the last [=] of the line, without
    its sign. *)
Definition read_ewald (data : list string) : outcome Q :=
  match last_match "Ewald energy   TEWEN" data with
  | Some line =>
      ewald <-- lift (piece <- last_item (split_on "=" (rstrip line)) ;;
                      float_of_padded (H := QFloat) piece) ;;
      Done (Qabs ewald)
  | None => Fails (UnboundLocalError "ewald")
  end.

(** The lines of an OUTCAR that matter here: two ionic steps, each with
    its energy, then the Ewald energy and the volume. *)
Definition outcar : list string :=
  ["  energy  without entropy=      -10.5  energy(sigma->0) =      -10.25"
     ++ Text.lf;
   "  volume of cell :      100.5" ++ Text.lf;
   "  Ewald energy   TEWEN  =      -139.5" ++ Text.lf;
   "  energy  without entropy=      -11.5  energy(sigma->0) =      -11.25"
     ++ Text.lf;
   " writing wavefunctions" ++ Text.lf].

End Outcar.

(** ** [cli.py]: the tasks that print one number *)

Module CliNumbers.

Local Open Scope string_scope.
Local Open Scope outcome_scope.

(** The tasks [energy], [ewald] and [volume]. *)
Inductive task : Type :=
  | Energy
  | Ewald
  | Volume.

Definition label (t : task) : string :=
  match t with
  | Energy => "Final energy: "
  | Ewald => "Final (absolute) Ewald: "
  | Volume => "Final volume of cell: "
  end.



End CliNumbers.

(** ** [defect.py]: [InputList.parse], [from_file] and [set_default] *)

Module InputFile.
Import Strings.

Local Open Scope string_scope.
Local Open Scope py_scope.
Local Open Scope outcome_scope.

Section Parse.
Context `{Float}.

(** The values [parse] gives the parameters; [NoValue] is [None], and
    [Infinity] the [float('inf')] of the defaults. *)
Inductive value : Type :=
  | NoValue
  | Str (s : string)
  | Int (z : Z)
  | Flt (x : float)
  | Infinity
  | Ints (l : list Z)
  | Floats (l : list float)
  | Strs (l : list string).

(** [int(s)] and [float(s)] for a string with blanks around the
    number. *)
Definition int_of_padded (s : string) : result Z :=
  match Text.split s with
  | [tok] => py_int tok
  | _ => Raise ValueError
  end.

Definition float_of_padded (s : string) : result float :=
  match Text.split s with
  | [tok] => py_float tok
  | _ => Raise ValueError
  end.

Definition member (name : string) (names : list string) : bool :=
  existsb (String.eqb name) names.

(** The value of the parameter [name] read from the text [p2]; an
    undefined keyword gets a warning and no value. *)
Definition value_of (name p2 : string) : result value :=
  if member name ["dperfect"; "ddefect"; "prefix"] then Ok (Str (strip p2))
  else if member name ["npts"] then z <- int_of_padded p2 ;; Ok (Int z)
  else if member name ["ewald"; "epsilon"; "penergy"; "evbm"; "emin";
                        "emax"; "pvolume"]
  then x <- float_of_padded p2 ;; Ok (Flt x)
  else if member name ["valence"]
  then l <- map_result py_int (Text.split p2) ;; Ok (Ints l)
  else if member name ["cmpot"]
  then l <- map_result py_float (Text.split p2) ;; Ok (Floats l)
  else if String.eqb name "ddname" then
    let ck1 := negb (char_in " " (strip p2)) in
    let ck2 := String.prefix "auto" (lower p2) in
    let ck3 := String.prefix "pre" (lower p2) in
    if ck1 || ck2 || ck3 then Ok (Str "auto")
    else Ok (Strs (Text.split (strip p2)))
  else Ok NoValue.

(** [parse] on one line: name, value and comment. *)
Definition parse_line (line : string)
  : result (option string * value * option string) :=
  let pc := if char_in "#" line
            then let (pairs, comment) := split_once "#" (strip line) in
                 (pairs, Some comment)
            else (line, None) in
  let pairs := fst pc in
  if char_in "=" pairs then
    let (p1, p2) := split_once "=" pairs in
    if existsb (fun ig => char_in ig p2) ["="; ","; ";"; "?"]%char
    then Raise ValueError
    else
      let name := lower (strip p1) in
      v <- value_of name p2 ;; Ok (Some name, v, snd pc)
  else Ok (None, NoValue, snd pc).

(** [parse] on a list of lines: the lines that name a parameter. *)
Fixpoint parse (lines : list string)
  : result (list (string * value * option string)) :=
  match lines with
  | [] => Ok []
  | line :: rest =>
      para <- parse_line line ;;
      paras <- parse rest ;;
      match fst (fst para) with
      | Some name => Ok ((name, snd (fst para), snd para) :: paras)
      | None => Ok paras
      end
  end.

(** The attributes of an [InputList] in the order of [__slots__]. *)
Definition slots : list string :=
  ["dperfect"; "ddefect"; "valence"; "ddname"; "prefix"; "evbm";
   "penergy"; "pvolume"; "ewald"; "epsilon"; "cmpot"; "emin"; "emax";
   "npts"].

Definition attributes : Type := list (string * value).

(** [__init__] without a file name: every attribute is [None]. *)
Definition empty : attributes := map (fun key => (key, NoValue)) slots.

Fixpoint getattr (self : attributes) (key : string) : value :=
  match self with
  | [] => NoValue
  | (k, v) :: rest => if String.eqb key k then v else getattr rest key
  end.

(** What [setattr] raises for a name that is not a slot.  The class has
    [__slots__] and its instances no [__dict__], so the name is looked up
    on the type: [AttributeError], whether the type has no such attribute
    or a read-only one (a method, [_default], [__doc__]).  The one data
    descriptor it inherits from [object] is [__class__], whose setter
    takes a class: [parse] gives an undefined keyword the value [None],
    and the assignment is a [TypeError]. *)
Definition not_a_slot (key : string) : Failure :=
  if String.eqb key "__class__" then Python TypeError
  else AttributeError key.

(** [setattr(self, key, v)]: only the slots can be assigned. *)
Fixpoint setattr (self : attributes) (key : string) (v : value)
  : outcome attributes :=
  match self with
  | [] => Fails (not_a_slot key)
  | (k, v0) :: rest =>
      if String.eqb key k then Done ((k, v) :: rest)
      else rest' <-- setattr rest key v ;; Done ((k, v0) :: rest')
  end.

(** [from_file] on the lines of the file: everything is parsed first,
    then assigned in order. *)
Definition from_file (self : attributes) (lines : list string)
  : outcome attributes :=
  opts <-- lift (parse lines) ;;
  fold_left (fun self opt =>
               self <-- self ;; setattr self (fst (fst opt)) (snd (fst opt)))
            opts (Done self).

End Parse.

Arguments value {H}.
Arguments attributes {H}.

(** An input file: a comment, two parameters, and a parameter given
    twice. *)
Definition input_file : list string :=
  ["# defect calculation" ++ Text.lf;
   "VALENCE = -1 0 1   # charge states" ++ Text.lf;
   Text.lf;
   "emin = 0.5" ++ Text.lf;
   "Emin = 0.25" ++ Text.lf].

End InputFile.

(* ================================================================== *)
(** * Properties *)

Module FormationFacts.
Import Formation.
Local Open Scope Q_scope.


Lemma Qlt_bool_iff (x y : Q) : Qlt_bool x y = true <-> x < y.
Proof.
  unfold Qlt_bool. rewrite negb_true_iff.
  destruct (Qle_bool y x) eqn:E.
  - apply Qle_bool_iff in E. split; [discriminate|]. intro H.
    exfalso. apply (Qlt_irrefl x). eapply Qlt_le_trans; eauto.
  - split; [intros _|reflexivity].
    apply Qnot_le_lt. intro H. apply Qle_bool_iff in H. congruence.
Qed.

Lemma length_linspace (a b : Q) (n : nat) : List.length (linspace a b n) = n.
Proof.
  destruct n as [|[|d]]; try reflexivity.
  unfold linspace. rewrite length_app, length_map, length_seq. simpl. lia.
Qed.


Lemma fold_Qmin_le_init (l : list Q) (x : Q) : fold_left Qmin l x <= x.
Proof.
  revert x. induction l as [|y l IH]; intro x; simpl.
  - apply Qle_refl.
  - eapply Qle_trans; [apply IH|]. apply Q.le_min_l.
Qed.

Lemma fold_Qmin_le_In (l : list Q) (x y : Q) :
  In y l -> fold_left Qmin l x <= y.
Proof.
  revert x. induction l as [|z l IH]; intros x Hin; simpl in *; [tauto|].
  destruct Hin as [->|Hin].
  - eapply Qle_trans; [apply fold_Qmin_le_init|]. apply Q.le_min_r.
  - apply IH, Hin.
Qed.

Lemma fold_Qmin_attained (l : list Q) (x : Q) :
  exists y, In y (x :: l) /\ fold_left Qmin l x == y.
Proof.
  revert x. induction l as [|z l IH]; intro x; simpl.
  - exists x. split; [now left|reflexivity].
  - destruct (IH (Qmin x z)) as (y & [Hy|Hy] & Heq).
    + destruct (Q.min_spec x z) as [[_ Hm]|[_ Hm]].
      * exists x. split; [now left|]. rewrite Heq, <- Hy. exact Hm.
      * exists z. split; [right; now left|]. rewrite Heq, <- Hy. exact Hm.
    + exists y. split; [right; now right|exact Heq].
Qed.

Lemma row_min_le (row : list Q) (y : Q) : In y row -> row_min row <= y.
Proof.
  destruct row as [|x row]; simpl; [tauto|].
  intros [->|Hin]; [apply fold_Qmin_le_init|now apply fold_Qmin_le_In].
Qed.

Lemma row_min_attained (row : list Q) :
  row <> [] -> exists y, In y row /\ row_min row == y.
Proof.
  destruct row as [|x row]; [congruence|]. intros _. apply fold_Qmin_attained.
Qed.

Lemma nth_map_in_range {A B : Type} (f : A -> B) (l : list A) (i : nat) (d : B) (d' : A) :
  (i < List.length l)%nat -> nth i (map f l) d = f (nth i l d').
Proof.
  intro Hi. rewrite nth_indep with (d' := f d') by (now rewrite length_map).
  apply map_nth.
Qed.



Lemma Eform_row_nonempty (v : list Z) (e : list Q) (mu : Q) :
  v <> [] -> List.length v = List.length e -> Eform_row v e mu <> [].
Proof.
  destruct v as [|q v]; [congruence|]. destruct e as [|e0 e]; [discriminate|].
  intros _ _. unfold Eform_row. simpl. discriminate.
Qed.















End FormationFacts.

(** ** Splitting, joining, printing and reading numbers *)

Module TextFacts.
Import Text.
Local Open Scope string_scope.

Lemma append_assoc (a b c : string) : (a ++ b) ++ c = a ++ (b ++ c).
Proof. induction a as [|x a IH]; simpl; [reflexivity|now rewrite IH]. Qed.

Lemma append_empty_r (a : string) : a ++ "" = a.
Proof. induction a as [|x a IH]; simpl; [reflexivity|now rewrite IH]. Qed.

Lemma length_append (a b : string) :
  String.length (a ++ b) = (String.length a + String.length b)%nat.
Proof. induction a as [|x a IH]; simpl; [reflexivity|now rewrite IH]. Qed.

Lemma all_chars_append (p : ascii -> bool) (a b : string) :
  all_chars p (a ++ b) = all_chars p a && all_chars p b.
Proof.
  induction a as [|x a IH]; simpl; [reflexivity|].
  now rewrite IH, andb_assoc.
Qed.

Lemma all_chars_weaken (p q : ascii -> bool) (s : string) :
  (forall c, p c = true -> q c = true) ->
  all_chars p s = true -> all_chars q s = true.
Proof.
  intro Hpq. induction s as [|c s IH]; simpl; [reflexivity|].
  intro H. apply andb_true_iff in H. destruct H as [Hc Hs].
  now rewrite (Hpq c Hc), IH.
Qed.

Lemma split_space (c : ascii) (s : string) :
  isspace c = true -> split (String c s) = split s.
Proof. intro Hc. simpl. now rewrite Hc. Qed.

Lemma split_nonspace_nonempty (c : ascii) (s : string) :
  isspace c = false -> split (String c s) <> [].
Proof.
  intro Hc. simpl. rewrite Hc. destruct s as [|c' s']; [discriminate|].
  destruct (isspace c'); [discriminate|].
  destruct (split (String c' s')); discriminate.
Qed.

Lemma split_last_char (c : ascii) (s : string) :
  isspace c = false -> at_break s = true ->
  split (String c s) = String c "" :: split s.
Proof.
  intros Hc Hs. simpl. rewrite Hc. destruct s as [|c' s']; [reflexivity|].
  simpl in Hs. now rewrite Hs.
Qed.

Lemma split_inner_char (c : ascii) (s : string) :
  isspace c = false -> at_break s = false ->
  exists tok toks, split s = tok :: toks /\
                   split (String c s) = String c tok :: toks.
Proof.
  intros Hc Hs. destruct s as [|c' s']; [discriminate|]. simpl in Hs.
  pose proof (split_nonspace_nonempty c' s' Hs) as Hne.
  destruct (split (String c' s')) as [|tok toks] eqn:E; [congruence|].
  exists tok, toks. split; [reflexivity|].
  change (split (String c (String c' s')))
    with (if isspace c then split (String c' s')
          else if isspace c' then String c "" :: split (String c' s')
               else match split (String c' s') with
                    | tok :: toks => String c tok :: toks
                    | [] => [String c ""]
                    end).
  now rewrite Hc, Hs, E.
Qed.

Lemma at_break_app (a b : string) (sp : ascii) :
  at_break (String sp b) = true ->
  at_break (a ++ String sp b) = at_break a.
Proof. intro H. destruct a; [exact H|reflexivity]. Qed.

(** A white-space character between two texts separates their fields. *)
Lemma split_app_space (a b : string) (sp : ascii) :
  isspace sp = true -> split (a ++ String sp b) = (split a ++ split b)%list.
Proof.
  intro Hsp. induction a as [|c a IH].
  - simpl append. now rewrite split_space.
  - change (String c a ++ String sp b) with (String c (a ++ String sp b)).
    destruct (isspace c) eqn:Hc.
    + rewrite !split_space by assumption. exact IH.
    + destruct (at_break a) eqn:Ha.
      * rewrite !split_last_char; try assumption.
        -- now rewrite IH.
        -- now rewrite at_break_app.
      * destruct (split_inner_char c a Hc Ha) as (tok & toks & E1 & E2).
        assert (Ha' : at_break (a ++ String sp b) = false)
          by now rewrite at_break_app.
        destruct (split_inner_char c _ Hc Ha') as (tok' & toks' & E3 & E4).
        rewrite E4, E2. rewrite IH, E1 in E3. simpl in E3.
        now inversion E3.
Qed.

Lemma split_field (t : string) : is_field t = true -> split t = [t].
Proof.
  unfold is_field. intro H. apply andb_true_iff in H. destruct H as [Hne H].
  destruct t as [|c t]; [discriminate|]. clear Hne.
  revert c H. induction t as [|c' t IH]; intros c H; simpl in H.
  - apply andb_true_iff in H. destruct H as [Hc _].
    apply negb_true_iff in Hc. simpl. now rewrite Hc.
  - apply andb_true_iff in H. destruct H as [Hc H].
    apply negb_true_iff in Hc.
    assert (Hc' : isspace c' = false).
    { apply andb_true_iff in H. destruct H as [Hc' _].
      now apply negb_true_iff in Hc'. }
    destruct (split_inner_char c (String c' t) Hc Hc')
      as (tok & toks & E1 & E2).
    rewrite (IH c') in E1 by exact H. inversion E1; subst. exact E2.
Qed.

Lemma split_spaces (n : nat) (s : string) : split (spaces n ++ s) = split s.
Proof. induction n as [|n IH]; [reflexivity|]. simpl. exact IH. Qed.

Lemma split_lf : split lf = [].
Proof. reflexivity. Qed.

(** A line made of fields separated by single spaces splits back into
    them. *)
Lemma split_join (toks : list string) :
  Forall (fun t => is_field t = true) toks ->
  split (join " " toks ++ lf) = toks.
Proof.
  induction 1 as [|t toks Ht Htoks IH]; [reflexivity|].
  destruct toks as [|t' toks'].
  - simpl join. unfold lf.
    rewrite split_app_space by reflexivity.
    rewrite split_field by assumption. reflexivity.
  - change (join " " (t :: t' :: toks'))
      with (t ++ String " " (join " " (t' :: toks'))).
    rewrite append_assoc.
    change ((String " " (join " " (t' :: toks'))) ++ lf)
      with (String " " (join " " (t' :: toks') ++ lf)).
    rewrite split_app_space by reflexivity.
    rewrite IH, split_field by assumption. reflexivity.
Qed.

(** *** Digits *)

Local Open Scope N_scope.

Lemma N_of_digit_char (d : N) : d < 10 -> N_of_ascii (digit_char d) = 48 + d.
Proof. intro Hd. unfold digit_char. apply N_ascii_embedding. lia. Qed.

Lemma digit_val_char (d : N) : d < 10 -> digit_val (digit_char d) = Some d.
Proof.
  intro Hd. unfold digit_val. rewrite N_of_digit_char by assumption.
  replace (48 <=? 48 + d) with true by (symmetry; apply N.leb_le; lia).
  replace (48 + d <=? 57) with true by (symmetry; apply N.leb_le; lia).
  cbn [andb]. f_equal. lia.
Qed.

Lemma is_digit_char (d : N) : d < 10 -> is_digit (digit_char d) = true.
Proof.
  intro Hd. unfold is_digit. rewrite N_of_digit_char by assumption.
  apply andb_true_iff. split; apply N.leb_le; lia.
Qed.

Lemma mod10_lt (n : N) : n mod 10 < 10.
Proof. apply N.mod_lt. discriminate. Qed.

Lemma digits_value_append (s1 s2 : string) (a : N) :
  digits_value (s1 ++ s2) a =
  match digits_value s1 a with
  | Some a' => digits_value s2 a'
  | None => None
  end.
Proof.
  revert a. induction s1 as [|c s1 IH]; intro a; simpl; [reflexivity|].
  destruct (digit_val c); [apply IH|reflexivity].
Qed.

Lemma digits_fixed_value (k : nat) (n a : N) :
  digits_value (digits_fixed k n) a
  = Some (10 ^ N.of_nat k * a + n mod 10 ^ N.of_nat k).
Proof.
  revert n a. induction k as [|k IH]; intros n a.
  - cbn [digits_fixed digits_value]. change (N.of_nat 0) with 0.
    rewrite N.pow_0_r, N.mod_1_r. f_equal. lia.
  - cbn [digits_fixed]. rewrite digits_value_append, IH.
    cbn [digits_value].
    rewrite digit_val_char by apply mod10_lt. f_equal.
    rewrite Nat2N.inj_succ, N.pow_succ_r by lia.
    rewrite (N.Div0.mod_mul_r n 10 (10 ^ N.of_nat k)). lia.
Qed.

Lemma length_digits_fixed (k : nat) (n : N) :
  String.length (digits_fixed k n) = k.
Proof.
  revert n. induction k as [|k IH]; intro n; [reflexivity|].
  cbn [digits_fixed]. rewrite length_append, IH. simpl. lia.
Qed.

Lemma digits_fixed_digits (k : nat) (n : N) :
  all_chars is_digit (digits_fixed k n) = true.
Proof.
  revert n. induction k as [|k IH]; intro n; [reflexivity|].
  cbn [digits_fixed]. rewrite all_chars_append, IH. simpl.
  now rewrite is_digit_char by apply mod10_lt.
Qed.

(** The loop of [string_of_N] puts a non-empty run of digits in front of
    its accumulator, and the run reads back as [n]. *)
Lemma digits_loop_spec (fuel : nat) (n : N) :
  n < 10 ^ N.of_nat (S fuel) ->
  exists ds,
    (String.length ds <> 0)%nat /\
    all_chars is_digit ds = true /\
    (forall acc, digits_loop (S fuel) n acc = ds ++ acc) /\
    (forall a, digits_value ds a
               = Some (10 ^ N.of_nat (String.length ds) * a + n)).
Proof.
  revert n. induction fuel as [|fuel IH]; intros n Hn;
    rewrite Nat2N.inj_succ, N.pow_succ_r in Hn by lia;
    cbn [digits_loop]; destruct (n / 10 =? 0) eqn:Hq.
  1, 3: apply N.eqb_eq in Hq;
    assert (Hn10 : n mod 10 = n) by (pose proof (N.div_mod n 10); lia);
    exists (String (digit_char (n mod 10)) "");
    split; [discriminate|]; split;
    [ simpl; now rewrite is_digit_char by apply mod10_lt | ];
    split; [reflexivity|];
    intro a; cbn [digits_value String.length];
    rewrite digit_val_char by apply mod10_lt;
    change (N.of_nat 1) with 1; rewrite N.pow_1_r; f_equal; lia.
  - apply N.eqb_neq in Hq. exfalso. apply Hq.
    change (N.of_nat 0) with 0 in Hn. rewrite N.pow_0_r in Hn.
    apply N.div_small. lia.
  - apply N.eqb_neq in Hq.
    assert (Hlt : n / 10 < 10 ^ N.of_nat (S fuel))
      by (apply N.Div0.div_lt_upper_bound; exact Hn).
    destruct (IH _ Hlt) as (ds & Hne & Hdig & Happ & Hval).
    exists (ds ++ String (digit_char (n mod 10)) "").
    split; [rewrite length_append; simpl; lia|]. split.
    { rewrite all_chars_append, Hdig. simpl.
      now rewrite is_digit_char by apply mod10_lt. }
    split.
    * intro acc. rewrite append_assoc. apply Happ.
    * intro a. rewrite digits_value_append, Hval. cbn [digits_value].
      rewrite digit_val_char by apply mod10_lt. f_equal.
      rewrite length_append. simpl String.length.
      rewrite Nat.add_1_r, Nat2N.inj_succ, N.pow_succ_r by lia.
      pose proof (N.div_mod n 10). lia.
Qed.

Lemma below_power_of_ten (n : N) : n < 10 ^ N.of_nat (S (N.to_nat (N.size n))).
Proof.
  rewrite Nat2N.inj_succ, N2Nat.id, N.pow_succ_r by lia.
  pose proof (N.size_gt n) as H2.
  assert (Hle : 2 ^ N.size n <= 10 ^ N.size n)
    by (apply N.pow_le_mono_l; lia).
  assert (0 < 10 ^ N.size n) by (apply N.neq_0_lt_0, N.pow_nonzero; lia).
  lia.
Qed.

Lemma string_of_N_spec (n : N) :
  (String.length (string_of_N n) <> 0)%nat /\
  all_chars is_digit (string_of_N n) = true /\
  digits_value (string_of_N n) 0 = Some n.
Proof.
  unfold string_of_N.
  destruct (digits_loop_spec _ _ (below_power_of_ten n))
    as (ds & Hne & Hdig & Happ & Hval).
  rewrite Happ, append_empty_r. repeat split; try assumption.
  rewrite Hval. f_equal. lia.
Qed.

(** *** ['%.4f'] and back *)

Ltac each_ascii c :=
  destruct c as [[] [] [] [] [] [] [] []]; try discriminate; try reflexivity.

Lemma digit_not_space (c : ascii) :
  is_numeric c = true -> negb (isspace c) = true.
Proof. each_ascii c. Qed.

Lemma digit_not_hash (c : ascii) :
  is_numeric c = true -> negb (Ascii.eqb c "#") = true.
Proof. each_ascii c. Qed.

Lemma digit_is_numeric (c : ascii) : is_digit c = true -> is_numeric c = true.
Proof. each_ascii c. Qed.

Lemma cut_sign_digit (c : ascii) (s : string) :
  is_digit c = true -> cut_sign (String c s) = (false, String c s).
Proof. each_ascii c. Qed.

Lemma digit_not_dot (c : ascii) : is_digit c = true -> Ascii.eqb c "." = false.
Proof. each_ascii c. Qed.

Lemma cut_at_dot_digits (ip fp : string) :
  all_chars is_digit ip = true ->
  cut_at_dot (ip ++ String "." fp) = (ip, Some fp).
Proof.
  induction ip as [|c ip IH]; intro H; [reflexivity|].
  simpl in H. apply andb_true_iff in H. destruct H as [Hc H].
  simpl. rewrite (digit_not_dot c Hc), (IH H). reflexivity.
Qed.

Lemma format_4f_unfold (x : Q) :
  format_4f x = (if is_negative x then "-" else "") ++ magnitude_4f x.
Proof. reflexivity. Qed.

Lemma magnitude_4f_numeric (x : Q) :
  all_chars is_numeric (magnitude_4f x) = true.
Proof.
  unfold magnitude_4f.
  destruct (string_of_N_spec (ten_thousandths x / 10000)) as (_ & Hd & _).
  rewrite all_chars_append.
  rewrite (all_chars_weaken is_digit is_numeric _ digit_is_numeric Hd).
  cbn [all_chars andb]. change (is_numeric ".") with true. cbn [andb].
  apply (all_chars_weaken is_digit is_numeric _ digit_is_numeric).
  apply digits_fixed_digits.
Qed.

Lemma format_4f_numeric (x : Q) : all_chars is_numeric (format_4f x) = true.
Proof.
  rewrite format_4f_unfold, all_chars_append, magnitude_4f_numeric.
  now destruct (is_negative x).
Qed.

Lemma format_4f_nonempty (x : Q) : (String.length (format_4f x) <> 0)%nat.
Proof.
  rewrite format_4f_unfold. unfold magnitude_4f.
  rewrite !length_append. simpl String.length. lia.
Qed.

Lemma format_4f_is_field (x : Q) : is_field (format_4f x) = true.
Proof.
  unfold is_field. apply andb_true_iff. split.
  - apply negb_true_iff, Nat.eqb_neq, format_4f_nonempty.
  - apply (all_chars_weaken is_numeric _ _ digit_not_space).
    apply format_4f_numeric.
Qed.

Lemma before_hash_none (s : string) :
  all_chars (fun c => negb (Ascii.eqb c "#")) s = true -> before_hash s = s.
Proof.
  induction s as [|c s IH]; [reflexivity|]. simpl. intro H.
  apply andb_true_iff in H. destruct H as [Hc H].
  apply negb_true_iff in Hc. now rewrite Hc, IH.
Qed.

Lemma magnitude_4f_value (x : Q) :
  cut_sign (magnitude_4f x) = (false, magnitude_4f x) /\
  decimal_of_token (magnitude_4f x)
  = Some (Qmake (Z.of_N (ten_thousandths x)) 10000).
Proof.
  set (m := ten_thousandths x).
  destruct (string_of_N_spec (m / 10000)) as (Hne & Hd & Hv).
  assert (Hsign : cut_sign (magnitude_4f x) = (false, magnitude_4f x)).
  { unfold magnitude_4f. fold m.
    destruct (string_of_N (m / 10000)) as [|c ip]; [now elim Hne|].
    simpl in Hd. apply andb_true_iff in Hd.
    apply cut_sign_digit. tauto. }
  split; [exact Hsign|].
  unfold decimal_of_token. rewrite Hsign.
  unfold magnitude_4f. fold m. rewrite cut_at_dot_digits by exact Hd.
  rewrite length_digits_fixed.
  destruct (String.length (string_of_N (m / 10000)) + 4)%nat eqn:Hlen; [lia|].
  rewrite Hv, digits_fixed_value. f_equal.
  change (Z.of_nat 4) with 4%Z. change (10 ^ 4)%Z with 10000%Z.
  change (N.of_nat 4) with 4. change (10 ^ 4) with 10000.
  rewrite N.mul_0_r, N.add_0_l, N.Div0.mod_mod.
  change (Z.to_pos 10000) with 10000%positive. f_equal.
  rewrite (N.div_mod m 10000) at 3 by discriminate. lia.
Qed.

(** Reading back what ['%.4f'] printed gives the printed value. *)
Lemma decimal_of_format_4f (x : Q) :
  decimal_of_token (format_4f x) = Some (rounded_4f x).
Proof.
  destruct (magnitude_4f_value x) as [Hsign Hval].
  rewrite format_4f_unfold. unfold rounded_4f.
  destruct (is_negative x).
  - change ("-" ++ magnitude_4f x) with (String "-" (magnitude_4f x)).
    unfold decimal_of_token in *. cbn [cut_sign]. rewrite Hsign in Hval.
    destruct (cut_at_dot (magnitude_4f x)) as [ip fp].
    destruct (String.length ip
              + String.length match fp with Some f => f | None => "" end)%nat;
      [discriminate|].
    destruct (digits_value ip 0); [|discriminate].
    destruct (digits_value match fp with Some f => f | None => "" end 0);
      [|discriminate].
    inversion Hval as [[Hm Hs]]. rewrite Hm. reflexivity.
  - exact Hval.
Qed.

(** *** How far the printed value is from the number *)

Local Open Scope Q_scope.

Lemma round_half_even_close (q : Q) :
  0 <= q ->
  (0 <= round_half_even q)%Z /\
  Qabs (inject_Z (round_half_even q) - q) <= 1 # 2.
Proof.
  intro Hq. pose proof (Qfloor_le q) as Hlo. pose proof (Qlt_floor q) as Hhi.
  rewrite inject_Z_plus in Hhi. change (inject_Z 1) with 1 in Hhi.
  assert (Hf : (0 <= Qfloor q)%Z).
  { change 0%Z with (Qfloor (inject_Z 0)) at 1. now apply Qfloor_resp_le. }
  unfold round_half_even.
  destruct (Qcompare_spec (q - inject_Z (Qfloor q)) (1 # 2)) as [E|E|E].
  - destruct (Z.even (Qfloor q)).
    + split; [exact Hf|]. apply Qabs_Qle_condition. lra.
    + split; [lia|]. rewrite inject_Z_plus. change (inject_Z 1) with 1.
      apply Qabs_Qle_condition. lra.
  - split; [exact Hf|]. apply Qabs_Qle_condition. lra.
  - split; [lia|]. rewrite inject_Z_plus. change (inject_Z 1) with 1.
    apply Qabs_Qle_condition. lra.
Qed.

Lemma is_negative_iff (x : Q) : is_negative x = true <-> x < 0.
Proof.
  unfold is_negative. rewrite negb_true_iff. split.
  - intro E. apply Qnot_le_lt. intro Hle. apply Qle_bool_iff in Hle. congruence.
  - intro Hlt. destruct (Qle_bool 0 x) eqn:E; [|reflexivity].
    apply Qle_bool_iff in E. lra.
Qed.

(** The text ['%.4f' % x] is [x] to within half a ten-thousandth. *)
Lemma rounded_4f_close (x : Q) : Qabs (rounded_4f x - x) <= 1 # 20000.
Proof.
  unfold rounded_4f, ten_thousandths.
  destruct (round_half_even_close (Qabs x * inject_Z 10000)) as [Hm Hclose].
  { apply Qmult_le_0_compat; [apply Qabs_nonneg|discriminate]. }
  rewrite Z2N.id by exact Hm.
  set (m := round_half_even (Qabs x * inject_Z 10000)) in *.
  apply Qabs_Qle_condition in Hclose.
  change (inject_Z 10000) with 10000 in Hclose.
  destruct (is_negative x) eqn:Eneg.
  - apply is_negative_iff in Eneg.
    assert (Hx : Qabs x == - x) by (apply Qabs_neg; lra).
    rewrite Hx in Hclose.
    assert (Hv : (- m # 10000) == - inject_Z m / 10000).
    { unfold Qeq, Qdiv, Qmult, Qinv, inject_Z, Qopp. simpl. lia. }
    rewrite Hv. apply Qabs_Qle_condition.
    split.
    + apply Qle_minus_iff.
      setoid_replace (- inject_Z m / 10000 - x + - - (1 # 20000))
        with ((- inject_Z m - x * 10000 + (1 # 2)) / 10000) by field.
      apply Qle_shift_div_l; [reflexivity|]. lra.
    + apply Qle_minus_iff.
      setoid_replace ((1 # 20000) + - (- inject_Z m / 10000 - x))
        with (((1 # 2) + inject_Z m + x * 10000) / 10000) by field.
      apply Qle_shift_div_l; [reflexivity|]. lra.
  - assert (Hpos : 0 <= x).
    { apply Qnot_lt_le. intro Hlt. apply is_negative_iff in Hlt. congruence. }
    assert (Hx : Qabs x == x) by now apply Qabs_pos.
    rewrite Hx in Hclose.
    assert (Hv : (m # 10000) == inject_Z m / 10000).
    { unfold Qeq, Qdiv, Qmult, Qinv, inject_Z. simpl. lia. }
    rewrite Hv. apply Qabs_Qle_condition.
    split.
    + apply Qle_minus_iff.
      setoid_replace (inject_Z m / 10000 - x + - - (1 # 20000))
        with ((inject_Z m - x * 10000 + (1 # 2)) / 10000) by field.
      apply Qle_shift_div_l; [reflexivity|]. lra.
    + apply Qle_minus_iff.
      setoid_replace ((1 # 20000) + - (inject_Z m / 10000 - x))
        with (((1 # 2) - inject_Z m + x * 10000) / 10000) by field.
      apply Qle_shift_div_l; [reflexivity|]. lra.
Qed.

End TextFacts.

(** ** The data file of [formation] read back *)

Module DefectFacts.
Import Text TextFacts Defect.
Local Open Scope string_scope.

Lemma last_two_app {A : Type} (pre : list A) (a b : A) :
  last_two (pre ++ [a; b]) = Ok (a, b).
Proof.
  induction pre as [|x pre IH]; [reflexivity|].
  simpl. destruct (pre ++ [a; b])%list as [|y [|z rest]] eqn:E.
  - now destruct pre.
  - destruct pre as [|? [|? ?]]; discriminate.
  - exact IH.
Qed.

Lemma map_result_ok {A B : Type} (f : A -> result B) (g : A -> B) (l : list A) :
  (forall x, In x l -> f x = Ok (g x)) -> map_result f l = Ok (map g l).
Proof.
  induction l as [|x l IH]; intro Hf; [reflexivity|].
  simpl. rewrite (Hf x) by now left.
  rewrite IH by (intros y Hy; apply Hf; now right). reflexivity.
Qed.

Lemma map_result_map_ok {A B C : Type}
  (f : B -> result C) (h : A -> B) (g : A -> C) (l : list A) :
  (forall x, In x l -> f (h x) = Ok (g x)) ->
  map_result f (map h l) = Ok (map g l).
Proof.
  induction l as [|x l IH]; intro Hf; [reflexivity|].
  cbn [map map_result]. rewrite (Hf x) by now left.
  rewrite IH by (intros y Hy; apply Hf; now right). reflexivity.
Qed.

Lemma header_line_fields (valence : list Z) (Volume : Q) :
  exists names,
    split ("# " ++ header valence Volume ++ newline)
    = (names ++ [format_4f Volume; "1"])%list.
Proof.
  set (cols := String.concat "" (map (fun q => ", q_" ++ format_plus_d q)
                                     valence)).
  set (pad := spaces (12 - String.length (format_4f Volume))).
  exists (split ("# Ef, Eformation" ++ cols ++ ";")).
  assert (E : "# " ++ header valence Volume ++ newline
              = ("# Ef, Eformation" ++ cols ++ ";")
                  ++ String " " (pad ++ (format_4f Volume
                                   ++ String " " ("   1" ++ newline)))).
  { unfold header, rjust. fold cols pad. rewrite !append_assoc. reflexivity. }
  rewrite E, split_app_space by reflexivity. f_equal.
  unfold pad. rewrite split_spaces, split_app_space by reflexivity.
  rewrite split_field by apply format_4f_is_field. reflexivity.
Qed.

Lemma all_chars_join (p : ascii -> bool) (toks : list string) :
  p " "%char = true ->
  Forall (fun t => all_chars p t = true) toks ->
  all_chars p (join " " toks) = true.
Proof.
  intros Hsp. induction 1 as [|t toks Ht Htoks IH]; [reflexivity|].
  destruct toks as [|t' toks']; [exact Ht|].
  change (join " " (t :: t' :: toks'))
    with (t ++ String " " (join " " (t' :: toks'))).
  rewrite all_chars_append, Ht.
  change (all_chars p (String " " (join " " (t' :: toks'))))
    with (p " "%char && all_chars p (join " " (t' :: toks'))).
  now rewrite Hsp, IH.
Qed.

(** A data line of the file splits back into the fields written. *)
Lemma data_line_fields (row : list Q) :
  split (before_hash (join " " (map format_4f row) ++ newline))
  = map format_4f row.
Proof.
  rewrite before_hash_none.
  - apply split_join. apply Forall_forall. intros t Ht.
    apply in_map_iff in Ht. destruct Ht as (x & <- & _).
    apply format_4f_is_field.
  - rewrite all_chars_append. apply andb_true_iff. split; [|reflexivity].
    apply all_chars_join; [reflexivity|].
    apply Forall_forall. intros t Ht.
    apply in_map_iff in Ht. destruct Ht as (x & <- & _).
    apply (all_chars_weaken is_numeric _ _ digit_not_hash).
    apply format_4f_numeric.
Qed.

(** [np.loadtxt] sees the rows of the table and not the header. *)
Lemma data_fields_savetxt (X : list (list Q)) (hdr : string) :
  Forall (fun row => row <> []) X ->
  Numpy.data_fields (savetxt X hdr) = map (map format_4f) X.
Proof.
  intro HX. unfold Numpy.data_fields, savetxt.
  cbn [map]. change (before_hash ("# " ++ hdr ++ newline)) with "".
  cbn [split List.length Nat.eqb negb filter].
  induction HX as [|row X Hrow HX IH]; [reflexivity|].
  cbn [map filter]. rewrite data_line_fields.
  destruct row as [|x row]; [congruence|].
  cbn [map List.length Nat.eqb negb]. now rewrite IH.
Qed.

Lemma fields012_formatted (a b c : Q) (rest : list Q) :
  Numpy.fields012 (map format_4f (a :: b :: c :: rest))
  = Ok (rounded_4f a, rounded_4f b, rounded_4f c).
Proof.
  unfold Numpy.fields012, Numpy.field, py_float. cbn [map nth_error].
  cbn [float_of_string QFloat]. rewrite !decimal_of_format_4f. reflexivity.
Qed.

Lemma unpacked_map {A B : Type} (f : A -> B) (l : list A) :
  unpacked (map f l)
  = match l with [x] => Scalar (f x) | _ => Vector (map f l) end.
Proof. destruct l as [|x [|y l]]; reflexivity. Qed.

(** C5.  [formation] writes a file whose header line ends in the two
    fields volume (four decimals) and [gx = 1], and whose data lines are
    the rows of the table (Fermi level, minimum formation energy, one
    energy per charge state) printed with four decimals and separated by
    spaces.  [read_formation] applied to that file returns the volume and
    the [gx] of the header as numbers, and the first three columns with
    the values printed in the file; the volume read is the value of the
    header field, half a ten-thousandth at most from the volume written. *)
Theorem formation_read_formation_round_trip
  (ipt : Formation.Input) (Volume : Q) :
  Formation.valence ipt <> [] ->
  List.length (Formation.valence ipt) = List.length (Formation.E0q ipt) ->
  Formation.npts ipt <> O ->
  exists file,
    formation ipt Volume = Ok file /\
    (exists names,
       split (readline file) = (names ++ [format_4f Volume; "1"])%list) /\
    List.tl file
    = map (fun row => join " " (map format_4f row) ++ newline)
          (Formation.table ipt) /\
    Forall (fun row =>
              exists Ef Emin Eq,
                row = Ef :: Emin :: Eq /\
                List.length Eq = List.length (Formation.valence ipt))
           (Formation.table ipt) /\
    read_formation file false
    = Ok (unpacked (map rounded_4f (Formation.miu ipt)),
          unpacked (map rounded_4f (Formation.Efmin ipt)),
          unpacked (map (fun Eq => rounded_4f (hd 0%Q Eq)) (Formation.Eform ipt)),
          rounded_4f Volume, 1%Q) /\
    float_of_string (format_4f Volume) = Some (rounded_4f Volume) /\
    (Qabs (rounded_4f Volume - Volume) <= 1 # 20000)%Q.
Proof.
  intros Hv Hlen Hn.
  set (file := savetxt (Formation.table ipt)
                       (header (Formation.valence ipt) Volume)).
  assert (Hmiu : Formation.miu ipt <> []).
  { intro E. apply Hn. rewrite <- (FormationFacts.length_linspace
      (Formation.emin ipt) (Formation.emax ipt) (Formation.npts ipt)).
    unfold Formation.miu in E. now rewrite E. }
  assert (Hrow : forall mu,
            exists e0 Eq, Formation.Eform_row (Formation.valence ipt)
                            (Formation.E0q ipt) mu = e0 :: Eq).
  { intro mu. pose proof (FormationFacts.Eform_row_nonempty _ _ mu Hv Hlen) as Hne.
    destruct (Formation.Eform_row _ _ mu) as [|e0 Eq]; [congruence|].
    now exists e0, Eq. }
  exists file. split.
  { unfold formation. destruct (Formation.miu ipt); [congruence|reflexivity]. }
  split; [apply header_line_fields|]. split; [reflexivity|]. split.
  { unfold Formation.table. apply Forall_forall. intros row Hin.
    apply in_map_iff in Hin. destruct Hin as (mu & <- & _).
    eexists _, _, _. split; [reflexivity|].
    unfold Formation.Eform_row. rewrite length_map, length_combine. lia. }
  split; [|split; [apply decimal_of_format_4f|apply rounded_4f_close]].
  unfold read_formation, read_header.
  destruct (header_line_fields (Formation.valence ipt) Volume) as (names & E).
  change (readline file)
    with ("# " ++ header (Formation.valence ipt) Volume ++ newline).
  rewrite E, last_two_app. cbn [bind fst snd]. unfold py_float at 1 2.
  cbn [float_of_string QFloat]. rewrite decimal_of_format_4f.
  change (decimal_of_token "1") with (Some 1%Q). cbn [bind fst snd].
  unfold Numpy.loadtxt_unpack3. unfold file at 1.
  rewrite data_fields_savetxt.
  2:{ unfold Formation.table. apply Forall_forall. intros row Hin.
      apply in_map_iff in Hin. destruct Hin as (mu & <- & _). discriminate. }
  unfold Formation.table. rewrite map_map.
  rewrite map_result_map_ok
    with (g := fun mu =>
                 (rounded_4f mu,
                  rounded_4f (Formation.row_min
                     (Formation.Eform_row (Formation.valence ipt)
                        (Formation.E0q ipt) mu)),
                  rounded_4f (hd 0%Q
                     (Formation.Eform_row (Formation.valence ipt)
                        (Formation.E0q ipt) mu)))).
  2:{ intros mu _. destruct (Hrow mu) as (e0 & Eq & ->).
      apply fields012_formatted. }
  cbn [bind]. unfold Formation.Efmin, Formation.Eform.
  rewrite !map_map. rewrite !unpacked_map.
  destruct (Formation.miu ipt) as [|mu [|mu' mus]]; [congruence| |].
  - reflexivity.
  - reflexivity.
Qed.

(** Volume [123.4567891] over the grid of the scenario. *)
Lemma formation_read_formation_round_trip_witness :
  exists file,
    formation Formation.scenario_input (1234567891 # 10000000) = Ok file /\
    read_formation file false
    = Ok (Vector [0 # 10000; 5000 # 10000; 10000 # 10000],
          Vector [10000 # 10000; 15000 # 10000; 20000 # 10000],
          Vector [20000 # 10000; 20000 # 10000; 20000 # 10000],
          1234568 # 10000, 1)%Q.
Proof.
  destruct (formation_read_formation_round_trip
              Formation.scenario_input (1234567891 # 10000000))
    as (file & Hfile & _ & _ & _ & Hread & _).
  - discriminate.
  - reflexivity.
  - discriminate.
  - exists file. split; [exact Hfile|]. rewrite Hread. reflexivity.
Defined.

End DefectFacts.

(** ** [read_dos] *)

Module DftFacts.
Import Text Dft.

Section Generic.
Context `{Float}.

Lemma map_result_Forall2 {A B : Type} (f : A -> result B)
  (l : list A) (ys : list B) :
  map_result f l = Ok ys <-> Forall2 (fun x y => f x = Ok y) l ys.
Proof.
  revert ys. induction l as [|x l IH]; intro ys; simpl.
  - split; [intros [= <-]; constructor|intro HF; now inversion HF].
  - destruct (f x) as [y|e] eqn:Ex.
    + destruct (map_result f l) as [ys'|e] eqn:El.
      * split.
        -- intros [= <-]. constructor; [exact Ex|]. now apply IH.
        -- intro HF. inversion HF as [|? y' ? ys'' Hy Hys]; subst.
           apply IH in Hys. congruence.
      * split; [discriminate|]. intro HF.
        inversion HF as [|? y' ? ys'' Hy Hys]; subst.
        apply IH in Hys. discriminate.
    + split; [discriminate|]. intro HF. inversion HF; congruence.
Qed.

(** A list comprehension fails exactly when one of its items does, and
    with an exception one of them raises. *)
Lemma map_result_raise {A B : Type} (f : A -> result B) (l : list A) :
  (exists x e, In x l /\ f x = Raise e) ->
  exists x e, In x l /\ f x = Raise e /\ map_result f l = Raise e.
Proof.
  induction l as [|x l IH]; intros (x0 & e0 & Hin & Hx0); [now elim Hin|].
  simpl. destruct (f x) as [y|e] eqn:Ex.
  - destruct Hin as [->|Hin]; [congruence|].
    destruct IH as (x1 & e1 & Hin1 & Hx1 & Hl); [now exists x0, e0|].
    exists x1, e1. rewrite Hl. auto.
  - exists x, e. auto.
Qed.

(** [_read_dos] is a list comprehension over the lines that are not
    comments. *)
Lemma _read_dos_as_map (data : list string) (fermi : float) :
  _read_dos data fermi
  = bind (map_result (dos_row fermi) (filter is_data_line data))
         (fun rows => Ok (map fst rows, map snd rows)).
Proof.
  induction data as [|line rest IH]; [reflexivity|].
  cbn [_read_dos filter]. unfold is_data_line at 1.
  destruct (startswith_hash line); cbn [negb]; [exact IH|].
  cbn [map_result]. destruct (dos_row fermi line) as [[e d]|err]; [|reflexivity].
  cbn [bind]. rewrite IH.
  destruct (map_result (dos_row fermi) (filter is_data_line rest));
    reflexivity.
Qed.

Lemma dos_row_ok (fermi : float) (line : string) (e d : float) :
  dos_row fermi line = Ok (e, d) <->
  exists x rest, row_fields line = Ok (x :: d :: rest) /\ e = fsub x fermi.
Proof.
  unfold dos_row. destruct (row_fields line) as [[|x [|d' rest]]|err];
    cbn [bind getitem nth_error].
  - split; [discriminate|]. intros (x & rest & [=] & _).
  - split; [discriminate|]. intros (x' & rest & [=] & _).
  - split.
    + intros [= <- <-]. now exists x, rest.
    + intros (x' & rest' & [= <- <- <-] & ->). reflexivity.
  - split; [discriminate|]. intros (x & rest & [=] & _).
Qed.

Lemma py_float_raises (tok : string) (e : PyExn) :
  py_float tok = Raise e -> e = ValueError.
Proof. unfold py_float. destruct (float_of_string tok); congruence. Qed.

Lemma row_fields_raises (line : string) (e : PyExn) :
  row_fields line = Raise e -> e = ValueError.
Proof.
  unfold row_fields. generalize (split line). intro toks.
  induction toks as [|tok toks IH]; simpl; [discriminate|].
  destruct (py_float tok) eqn:Et.
  - destruct (map_result py_float toks); [discriminate|].
    intros [= <-]. now apply IH.
  - intros [= <-]. eapply py_float_raises; eauto.
Qed.

(** A line of another shape stops the loop: [ValueError] from [float],
    [IndexError] from [data[0]] or [data[1]]. *)
Lemma dos_row_bad (fermi : float) (line : string) :
  ~ good_row line ->
  dos_row fermi line = Raise ValueError \/ dos_row fermi line = Raise IndexError.
Proof.
  unfold good_row, dos_row. intro Hbad.
  destruct (row_fields line) as [[|x [|d rest]]|err] eqn:E;
    cbn [bind getitem nth_error]; auto.
  - exfalso. apply Hbad. now exists x, d, rest.
  - left. now rewrite (row_fields_raises _ _ E).
Qed.

Lemma dos_row_raises (fermi : float) (line : string) (e : PyExn) :
  dos_row fermi line = Raise e ->
  ~ good_row line /\ (e = ValueError \/ e = IndexError).
Proof.
  unfold good_row, dos_row. intro Hr.
  destruct (row_fields line) as [[|x [|d rest]]|err] eqn:E;
    cbn [bind getitem nth_error] in Hr; try discriminate.
  - split; [intros (? & ? & ? & [=])|right; congruence].
  - split; [intros (? & ? & ? & [=])|right; congruence].
  - split; [intros (? & ? & ? & [=])|].
    left. rewrite (row_fields_raises _ _ E) in Hr. congruence.
Qed.

(** Fewer than four lines: the detection itself fails, whatever the
    lines are. *)
Lemma isDOSCAR_short (data : list string) :
  (List.length data < 4)%nat -> isDOSCAR data = Raise IndexError.
Proof.
  intro Hlen. unfold isDOSCAR.
  destruct data as [|l0 [|l1 [|l2 [|l3 rest]]]]; try reflexivity.
  simpl in Hlen. lia.
Qed.

(** C6.  Every file of fewer than four lines is refused, a plain
    two-column file included: the detection of the file kind looks at the
    numbers of fields of lines 0, 2 and 3 and fails with [IndexError]
    before any line is read as data, for every notion of float. *)
Theorem read_dos_short_file (data : list string) (efermi : float) :
  (List.length data < 4)%nat -> read_dos data efermi = Raise IndexError.
Proof.
  intro Hlen. unfold read_dos, data_select.
  now rewrite isDOSCAR_short.
Qed.

Lemma isDOSCAR_long (data : list string) :
  (4 <= List.length data)%nat -> exists b, isDOSCAR data = Ok b.
Proof.
  intro Hlen. unfold isDOSCAR.
  destruct data as [|l0 [|l1 [|l2 [|l3 rest]]]]; try (simpl in Hlen; lia).
  eexists. reflexivity.
Qed.

Lemma read_dos_plain (data : list string) (efermi : float) :
  isDOSCAR data = Ok false -> read_dos data efermi = _read_dos data efermi.
Proof. intro E. unfold read_dos, data_select. now rewrite E. Qed.

Lemma slice_from_6 {A : Type} (l : list A) (n : Z) :
  (0 <= n)%Z -> slice l 6 (6 + n) = firstn (Z.to_nat n) (skipn 6 l).
Proof.
  intro Hn. unfold slice.
  replace (6 <? 0)%Z with false by reflexivity.
  replace (6 + n <? 0)%Z with false by (symmetry; apply Z.ltb_ge; lia).
  set (len := Z.of_nat (List.length l)).
  destruct (Z.le_gt_cases len 6) as [Hs|Hs].
  - rewrite (Z.min_r 6 len) by lia. rewrite (Z.min_r (6 + n) len) by lia.
    rewrite Z.sub_diag. rewrite !skipn_all2 by (subst len; lia).
    now rewrite !firstn_nil.
  - rewrite (Z.min_l 6 len) by lia. change (Z.to_nat 6) with 6%nat.
    destruct (Z.le_gt_cases (6 + n) len) as [Hb|Hb].
    + rewrite Z.min_l by lia. f_equal. lia.
    + rewrite Z.min_r by lia.
      assert (Hsk : List.length (skipn 6 l) = Z.to_nat (len - 6))
        by (rewrite length_skipn; subst len; lia).
      rewrite !firstn_all2; try reflexivity; lia.
Qed.

Lemma read_dos_doscar (data : list string) (efermi : float)
  (line tok : string) (NEDOS : Z) :
  isDOSCAR data = Ok true ->
  nth_error data 5 = Some line ->
  nth_error (split line) 2 = Some tok ->
  int_of_string tok = Some NEDOS ->
  (0 <= NEDOS)%Z ->
  read_dos data efermi
  = _read_dos (firstn (Z.to_nat NEDOS) (skipn 6 data)) efermi.
Proof.
  intros E H5 H2 Hint Hn. unfold read_dos, data_select, getitem, py_int.
  rewrite E. cbn [bind]. rewrite H5. cbn [bind]. rewrite H2. cbn [bind].
  rewrite Hint. cbn [bind]. now rewrite slice_from_6.
Qed.

(** What [_read_dos] returns: an energy and a DOS value per line that is
    not a comment, the first field minus [fermi] and the second field. *)
Lemma _read_dos_entries (data : list string) (fermi : float)
  (energy dos : list float) :
  _read_dos data fermi = Ok (energy, dos) <->
  List.length energy = List.length dos /\
  Forall2 (fun line ed =>
             exists x rest,
               row_fields line = Ok (x :: snd ed :: rest) /\
               fst ed = fsub x fermi)
          (filter is_data_line data) (combine energy dos).
Proof.
  rewrite _read_dos_as_map.
  destruct (map_result (dos_row fermi) (filter is_data_line data))
    as [rows|err] eqn:E; cbn [bind].
  - apply map_result_Forall2 in E. split.
    + intros [= <- <-]. split; [now rewrite !length_map|].
      assert (Hc : combine (map fst rows) (map snd rows) = rows).
      { clear. induction rows as [|[a b] rows IH]; simpl; congruence. }
      rewrite Hc. eapply Forall2_impl; [|exact E].
      intros line [e d] Hrow. now apply dos_row_ok.
    + intros [Hlen HF].
      assert (Hrows : Forall2 (fun x y => dos_row fermi x = Ok y)
                        (filter is_data_line data) (combine energy dos)).
      { eapply Forall2_impl; [|exact HF].
        intros line [e d] Hrow. now apply dos_row_ok. }
      apply map_result_Forall2 in Hrows.
      apply map_result_Forall2 in E. rewrite Hrows in E.
      inversion E; subst rows.
      f_equal. f_equal.
      * clear -Hlen. revert dos Hlen.
        induction energy as [|e energy IH]; intros [|d dos] Hlen;
          simpl in *; try discriminate; try reflexivity.
        f_equal. apply IH. lia.
      * clear -Hlen. revert dos Hlen.
        induction energy as [|e energy IH]; intros [|d dos] Hlen;
          simpl in *; try discriminate; try reflexivity.
        f_equal. apply IH. lia.
  - split; [discriminate|]. intros [Hlen HF].
    assert (Hrows : Forall2 (fun x y => dos_row fermi x = Ok y)
                      (filter is_data_line data) (combine energy dos)).
    { eapply Forall2_impl; [|exact HF].
      intros line [e d] Hrow. now apply dos_row_ok. }
    apply map_result_Forall2 in Hrows. congruence.
Qed.

(** What [read_dos] returns when it returns: the lines read are the whole
    file, or the slice after the six header lines of a DOSCAR, and each
    line of them that is not a comment gives its first field minus
    [efermi] and its second field. *)
Lemma read_dos_entries (data : list string) (efermi : float)
  (energy dos : list float) :
  read_dos data efermi = Ok (energy, dos) ->
  exists sel,
    data_select data = Ok sel /\
    (sel = data \/ exists NEDOS, sel = slice data 6 (6 + NEDOS)) /\
    List.length energy = List.length dos /\
    Forall2 (fun line ed =>
               exists x rest,
                 row_fields line = Ok (x :: snd ed :: rest) /\
                 fst ed = fsub x efermi)
            (filter is_data_line sel) (combine energy dos).
Proof.
  unfold read_dos. destruct (data_select data) as [sel|err] eqn:Esel;
    cbn [bind]; [|discriminate].
  intro Hread. exists sel. split; [reflexivity|]. split.
  - unfold data_select in Esel.
    destruct (isDOSCAR data) as [[|]|?]; cbn [bind] in Esel;
      try discriminate.
    + right. destruct (getitem data 5); cbn [bind] in Esel; [|discriminate].
      destruct (getitem (split a) 2); cbn [bind] in Esel; [|discriminate].
      destruct (py_int a0) as [NEDOS|]; cbn [bind] in Esel; [|discriminate].
      exists NEDOS. congruence.
    + left. congruence.
  - now apply _read_dos_entries.
Qed.

Lemma map_result_total {A B : Type} (f : A -> result B) (l : list A) :
  (forall x, In x l -> exists y, f x = Ok y) ->
  exists ys, map_result f l = Ok ys /\ List.length ys = List.length l.
Proof.
  induction l as [|x l IH]; intro Hf; [now exists []|].
  destruct (Hf x) as (y & Hy); [now left|].
  destruct IH as (ys & Hys & Hlen); [intros z Hz; apply Hf; now right|].
  exists (y :: ys). simpl. rewrite Hy, Hys. split; [reflexivity|]. lia.
Qed.

Lemma good_row_dos_row (fermi : float) (line : string) :
  good_row line -> exists ed, dos_row fermi line = Ok ed.
Proof.
  intros (x & d & rest & E). exists (fsub x fermi, d).
  apply dos_row_ok. now exists x, rest.
Qed.

(** [_read_dos] succeeds exactly on lines of the right shape, whatever
    their order, and then returns one entry per data line. *)
Lemma _read_dos_total (sel : list string) (fermi : float) :
  (forall line, In line sel -> is_data_line line = true -> good_row line) ->
  exists energy dos,
    _read_dos sel fermi = Ok (energy, dos) /\
    List.length energy = List.length (filter is_data_line sel) /\
    List.length dos = List.length (filter is_data_line sel).
Proof.
  intro Hgood. rewrite _read_dos_as_map.
  destruct (map_result_total (dos_row fermi) (filter is_data_line sel))
    as (rows & Hrows & Hlen).
  { intros line Hin. apply filter_In in Hin. destruct Hin as [Hin Hd].
    now apply good_row_dos_row, Hgood. }
  rewrite Hrows. cbn [bind]. exists (map fst rows), (map snd rows).
  now rewrite !length_map.
Qed.

Lemma _read_dos_bad (sel : list string) (fermi : float) :
  (exists line, In line sel /\ is_data_line line = true /\ ~ good_row line) ->
  _read_dos sel fermi = Raise ValueError \/
  _read_dos sel fermi = Raise IndexError.
Proof.
  intros (line & Hin & Hd & Hbad). rewrite _read_dos_as_map.
  destruct (map_result_raise (dos_row fermi) (filter is_data_line sel))
    as (l1 & e & Hin1 & Hl1 & Hraise).
  { destruct (dos_row_bad fermi line Hbad) as [E|E];
      eexists line, _; (split; [apply filter_In; now split|exact E]). }
  rewrite Hraise. cbn [bind].
  destruct (dos_row_raises _ _ _ Hl1) as [_ [->| ->]]; auto.
Qed.

Lemma _read_dos_lengths (sel : list string) (fermi : float)
  (energy dos : list float) :
  _read_dos sel fermi = Ok (energy, dos) ->
  List.length energy = List.length (filter is_data_line sel) /\
  List.length dos = List.length (filter is_data_line sel).
Proof.
  rewrite _read_dos_as_map.
  destruct (map_result (dos_row fermi) (filter is_data_line sel))
    as [rows|err] eqn:E; cbn [bind]; [|discriminate].
  intros [= <- <-]. apply map_result_Forall2, Forall2_length in E.
  now rewrite !length_map.
Qed.

Lemma read_dos_selected (data sel : list string) (efermi : float) :
  data_select data = Ok sel -> read_dos data efermi = _read_dos sel efermi.
Proof. intro E. unfold read_dos. now rewrite E. Qed.

Lemma fields012_raises (toks : list string) (e : PyExn) :
  Numpy.fields012 toks = Raise e -> e = ValueError.
Proof.
  unfold Numpy.fields012, Numpy.field, py_float.
  repeat match goal with
         | |- context [match ?x with _ => _ end] => destruct x
         end; cbn [bind]; congruence.
Qed.

Lemma read_header_raises (lines : list string) (e : PyExn) :
  Defect.read_header lines = Raise e -> e = ValueError.
Proof.
  unfold Defect.read_header, py_float.
  assert (Hl : forall toks : list string,
             last_two toks = Raise e -> e = ValueError).
  { induction toks as [|a [|b [|c toks]] IH]; simpl; try congruence.
    exact IH. }
  destruct (last_two (split (Defect.readline lines))) as [[v g]|e'] eqn:E;
    cbn [bind fst snd].
  - destruct (float_of_string v); cbn [bind]; [|congruence].
    destruct (float_of_string g); cbn [bind]; congruence.
  - intros [= ->]. now apply Hl in E.
Qed.

(** C7 (as amended).  The readers test the shape of the lines and
    nothing else.  [read_dos]: once the lines to read are selected, a
    data line with a field [float] rejects or with fewer than two fields
    makes it raise [ValueError] or [IndexError] and return nothing; when
    every data line has the shape, it returns one energy and one DOS value
    per data line, in whatever order the energies come; a returned
    result is never partial.  [read_formation]: a data line without three
    leading numeric fields makes it raise [ValueError], and with a sound
    header and sound lines it returns. *)
Theorem readers_check_shape_not_order :
  (forall (data sel : list string) (efermi : float),
     data_select data = Ok sel ->
     ((exists line, In line sel /\ is_data_line line = true /\ ~ good_row line) ->
      read_dos data efermi = Raise ValueError \/
      read_dos data efermi = Raise IndexError) /\
     ((forall line, In line sel -> is_data_line line = true -> good_row line) ->
      exists energy dos, read_dos data efermi = Ok (energy, dos)) /\
     (forall energy dos,
        read_dos data efermi = Ok (energy, dos) ->
        List.length energy = List.length (filter is_data_line sel) /\
        List.length dos = List.length (filter is_data_line sel))) /\
  (forall (lines : list string) (to_reduce : bool),
     ((exists toks, In toks (Numpy.data_fields lines) /\
                    ~ Defect.good_fields toks) ->
      Defect.read_formation lines to_reduce = Raise ValueError) /\
     ((exists vg, Defect.read_header lines = Ok vg) ->
      (forall toks, In toks (Numpy.data_fields lines) ->
                    Defect.good_fields toks) ->
      exists r, Defect.read_formation lines false = Ok r)).
Proof.
  split.
  - intros data sel efermi Hsel.
    rewrite (read_dos_selected data sel efermi Hsel).
    split; [apply _read_dos_bad|]. split.
    + intro Hgood. destruct (_read_dos_total sel efermi Hgood)
        as (energy & dos & E & _). now exists energy, dos.
    + apply _read_dos_lengths.
  - intros lines to_reduce. split.
    + intros (toks & Hin & Hbad). unfold Defect.read_formation.
      destruct (Defect.read_header lines) as [vg|e] eqn:Eh; cbn [bind].
      * unfold Numpy.loadtxt_unpack3.
        destruct (map_result_raise Numpy.fields012 (Numpy.data_fields lines))
          as (t1 & e & _ & Ht1 & Hraise).
        { destruct (Numpy.fields012 toks) as [[[a b] c]|e] eqn:Et.
          - exfalso. apply Hbad. now exists a, b, c.
          - now exists toks, e. }
        rewrite Hraise. cbn [bind].
        now rewrite (fields012_raises _ _ Ht1).
      * now rewrite (read_header_raises _ _ Eh).
    + intros (vg & Eh) Hgood. unfold Defect.read_formation.
      rewrite Eh. cbn [bind]. unfold Numpy.loadtxt_unpack3.
      destruct (map_result_total Numpy.fields012 (Numpy.data_fields lines))
        as (rows & Hrows & _).
      { intros toks Hin. destruct (Hgood toks Hin) as (a & b & c & E).
        now exists (a, b, c). }
      rewrite Hrows. cbn [bind].
      destruct rows as [|[[a b] c] [|row rows]]; cbn [bind]; eexists;
        reflexivity.
Qed.

End Generic.

(** The energies of [unordered_file] come back as written, in decreasing
    order. *)
(** The plain two-column file of two lines. *)
Lemma read_dos_short_file_witness :
  read_dos two_line_file 0%Q = Raise IndexError.
Proof. apply (read_dos_short_file (H := QFloat)). simpl. lia. Defined.

Lemma readers_check_shape_not_order_witness :
  read_dos malformed_file 0%Q = Raise ValueError \/
  read_dos malformed_file 0%Q = Raise IndexError.
Proof.
  destruct (readers_check_shape_not_order (H := QFloat)) as [Hdos _].
  destruct (Hdos malformed_file malformed_file 0%Q) as [Hbad _].
  - reflexivity.
  - apply Hbad. exists ("2.0 n/a" ++ lf)%string.
    split; [right; left; reflexivity|]. split; [reflexivity|].
    intros (x & d & rest & E). vm_compute in E. discriminate.
Defined.

Lemma unordered_dos_is_returned :
  exists energy dos,
    read_dos unordered_file 0%Q = Ok (energy, dos) /\
    Forall2 Qeq energy [3; 2; 1; 0]%Q /\
    strictly_increasing energy = false.
Proof.
  eexists _, _. split; [vm_compute; reflexivity|].
  split; [|reflexivity].
  repeat (constructor; [vm_compute; reflexivity|]). constructor.
Qed.

End DftFacts.

(** ** [read_H0] *)

Module H0Facts.
Import Text Defect.

Section Generic.
Context `{Float}.

Lemma same_width_all (rows : list (list float)) (c : nat) :
  Forall (fun row => List.length row = c) rows ->
  Numpy.same_width rows = true.
Proof.
  intro HF. destruct rows as [|row rest]; [reflexivity|].
  inversion HF as [|? ? Hrow Hrest]; subst. simpl.
  apply forallb_forall. intros r Hr. apply Nat.eqb_eq.
  rewrite Forall_forall in Hrest. now apply Hrest.
Qed.

(** At least two rows of at least two columns: the block stays a
    matrix and its last axis is the number of columns. *)
Lemma squeeze_matrix (rows : list (list float)) (c : nat) :
  (2 <= List.length rows)%nat -> (2 <= c)%nat ->
  Forall (fun row => List.length row = c) rows ->
  Numpy.squeeze rows = Matrix rows /\ width rows = c.
Proof.
  intros Hr Hc HF. destruct rows as [|r0 [|r1 rest]]; try (simpl in Hr; lia).
  inversion HF as [|? ? H0 _]; subst. unfold Numpy.squeeze, width. simpl hd.
  destruct (Nat.eqb_spec (List.length r0) 1); [lia|]. now split.
Qed.

(** What [read_H0] returns for a file whose numeric block has at least
    two rows and at least two columns: the block when it has three
    columns, the block with a column of [gx] when it has two, its first
    three columns when it has more. *)
Lemma read_H0_matrix (lines : list string) (volume gx : float)
  (rows : list (list float)) (c : nat) :
  read_header lines = Ok (volume, gx) ->
  map_result (map_result py_float) (Numpy.data_fields lines) = Ok rows ->
  (2 <= List.length rows)%nat -> (2 <= c)%nat ->
  Forall (fun row => List.length row = c) rows ->
  read_H0 lines
  = Ok (Matrix (if (c =? 3)%nat then rows
                else if (c =? 2)%nat then map (fun row => row ++ [gx]) rows
                else map (firstn 3) rows),
        volume).
Proof.
  intros Hh Hrows Hr Hc HF. unfold read_H0, Numpy.loadtxt.
  rewrite Hh, Hrows. cbn [bind fst snd].
  rewrite (same_width_all rows c HF).
  destruct (squeeze_matrix rows c Hr Hc HF) as [-> Hw].
  cbn [bind Numpy.shape_last]. fold (width rows). rewrite Hw.
  destruct (Nat.eqb_spec c 3); [reflexivity|].
  destruct (Nat.eqb_spec c 2); [reflexivity|].
  destruct (Nat.ltb_spec c 2); [lia|]. reflexivity.
Qed.

(** C9.  A table of a single column is not rejected with the
    [RuntimeError] kept for tables of fewer than two columns:
    [np.loadtxt] squeezes a block of one column and at least two rows to
    a vector, and [data.shape[-1]] is then the number of rows.  Three rows
    pass for three columns and are returned, two rows reach [np.pad]
    ([ValueError]), more reach [data[:, :3]] ([IndexError]). *)
Theorem read_H0_one_column (lines : list string) (volume gx : float)
  (col : list float) :
  read_header lines = Ok (volume, gx) ->
  map_result (map_result py_float) (Numpy.data_fields lines)
  = Ok (map (fun x => [x]) col) ->
  (2 <= List.length col)%nat ->
  read_H0 lines
  = if (List.length col =? 3)%nat then Ok (Vector col, volume)
    else if (List.length col =? 2)%nat then Raise ValueError
    else Raise IndexError.
Proof.
  intros Hh Hrows Hr. unfold read_H0, Numpy.loadtxt.
  rewrite Hh, Hrows. cbn [bind fst snd].
  rewrite (same_width_all _ 1)
    by (apply Forall_forall; intros row Hin; apply in_map_iff in Hin;
        destruct Hin as (x & <- & _); reflexivity).
  assert (Hsq : Numpy.squeeze (map (fun x => [x]) col) = Vector col).
  { destruct col as [|x [|y col]]; try (simpl in Hr; lia).
    unfold Numpy.squeeze. cbn [map List.length Nat.eqb]. f_equal.
    change (List.concat ([x] :: [y] :: map (fun z => [z]) col))
      with (x :: y :: List.concat (map (fun z => [z]) col)).
    do 2 f_equal. clear. induction col as [|z col IH]; [reflexivity|].
    simpl. now rewrite IH. }
  rewrite Hsq. cbn [bind Numpy.shape_last].
  destruct (Nat.eqb_spec (List.length col) 3); [reflexivity|].
  destruct (Nat.eqb_spec (List.length col) 2); [reflexivity|].
  destruct (Nat.ltb_spec (List.length col) 2); [lia|]. reflexivity.
Qed.

End Generic.

(** Two columns, two rows: the column of [gx = 4] is added. *)
Lemma read_H0_two_column_file :
  read_H0 two_column_file
  = Ok (Matrix [[0; 15 # 10; 4]; [1; 5 # 10; 4]]%Q, 1000 # 10).
Proof. reflexivity. Qed.

(** The file of three rows and one column: the vector and the volume
    come back. *)
Lemma read_H0_one_column_witness :
  read_H0 one_column_file = Ok (Vector [1; 2; 3]%Q, 1000 # 10).
Proof.
  apply (read_H0_one_column (H := QFloat) one_column_file
           (1000 # 10) 1%Q [1; 2; 3]%Q).
  - reflexivity.
  - reflexivity.
  - simpl. lia.
Defined.

End H0Facts.

(** ** The command line: what [cmd] does with the results *)

Module CliFacts.
Import Cli.

Section Generic.
Context `{Float}.

Lemma divide_row_length (xs ds : list float) :
  List.length (divide_row xs ds) = List.length xs.
Proof.
  unfold divide_row. destruct ds as [|d [|d' ds]]; try reflexivity.
  apply length_map.
Qed.

(** One row of [data[:, 4:] /= data[:, 3:4]]: the first four entries
    stay, each later one is divided by the fourth. *)
Lemma divide_by_total_row (row : list float) :
  let row' := firstn 4 row
                ++ divide_row (skipn 4 row) (firstn 1 (skipn 3 row)) in
  List.length row' = List.length row /\
  (forall j x, (j < 4)%nat -> nth_error row j = Some x ->
               nth_error row' j = Some x) /\
  (forall j x total, (4 <= j)%nat -> nth_error row j = Some x ->
                     nth_error row 3 = Some total ->
                     nth_error row' j = Some (fdiv x total)).
Proof.
  intro row'. subst row'.
  destruct row as [|a [|b [|c [|t rest]]]];
    try (cbn [firstn skipn divide_row app List.length];
         repeat split; try reflexivity;
         [ intros j x Hj Hx; exact Hx
         | intros j x total Hj Hx Ht;
           do 4 (destruct j as [|j]; try lia); now destruct j ]).
  cbn [firstn skipn divide_row app List.length].
  split; [now rewrite length_map|]. split.
  - intros j x Hj Hx. do 4 (destruct j as [|j]; [exact Hx|]). lia.
  - intros j x total Hj Hx [= <-].
    do 4 (destruct j as [|j]; [lia|]). cbn [nth_error] in *.
    rewrite nth_error_map, Hx. reflexivity.
Qed.

(** C8.  The scan is shown raw or ratio-normalized.  Raw, the table is
    the one [equ_defect] returned.  With the ratio requested, in every row
    the entries after the total concentration (index 3) are divided by
    the total of that row, and the Fermi level, the effective charge, the
    effective energy and the total stay as they are.  In detail mode this
    is the in-place division of [cmd]; without detail the table has the
    three columns [(Ef, q_eff, H_eff)] and no concentration to divide. *)
Theorem equi_ratio_divides_by_total
  (is_detail : bool) (data : list (list float)) :
  (is_detail = false -> Forall (fun row => List.length row = 3%nat) data) ->
  equi_data is_detail false data = data /\
  Forall2
    (fun row row' =>
       List.length row' = List.length row /\
       (forall j x, (j < 4)%nat -> nth_error row j = Some x ->
                    nth_error row' j = Some x) /\
       (forall j x total, (4 <= j)%nat -> nth_error row j = Some x ->
                          nth_error row 3 = Some total ->
                          nth_error row' j = Some (fdiv x total)))
    data (equi_data is_detail true data).
Proof.
  intro Hshape. split.
  - unfold equi_data. now rewrite andb_false_r.
  - unfold equi_data. destruct is_detail; cbn [andb].
    + unfold divide_by_total. clear Hshape.
      induction data as [|row data IH]; constructor; [|exact IH].
      apply divide_by_total_row.
    + specialize (Hshape eq_refl).
      induction Hshape as [|row data Hrow Hdata IH]; constructor; [|exact IH].
      split; [reflexivity|]. split; [auto|].
      intros j x total Hj Hx _.
      assert (Hlt : (j < List.length row)%nat)
        by (apply nth_error_Some; congruence).
      lia.
Qed.




(** Whatever follows the quiet pair, a per-defect sequence among the
    items makes the detail branch fail: more than three items cannot be
    unpacked, and a sequence cannot be printed as a number. *)
Lemma sequence_is_rejected (Ef n_net : float) (xs : list float)
  (more : list value) :
  scfermi_report false true (Num Ef :: Num n_net :: Seq xs :: more)
  = Raise (match more with [] => TypeError | _ => ValueError end).
Proof. destruct more; reflexivity. Qed.

End Generic.

Lemma equi_ratio_divides_by_total_witness :
  exists row' rest,
    equi_data true true scan = row' :: rest /\
    nth_error row' 3 = Some 10%Q /\
    nth_error row' 4 = Some (4 / 10)%Q /\
    nth_error row' 5 = Some (6 / 10)%Q.
Proof.
  destruct (equi_ratio_divides_by_total (H := QFloat) true scan) as [_ HF].
  - discriminate.
  - unfold scan in HF at 1.
    inversion HF as [|r0 r0' t0 t0' (Hl0 & Hk0 & Hd0) HF1 E0 E0']; subst.
    eexists _, _. split; [reflexivity|]. split; [|split].
    + apply Hk0; [lia|reflexivity].
    + apply (Hd0 4%nat); [lia|reflexivity|reflexivity].
    + apply (Hd0 5%nat); [lia|reflexivity|reflexivity].
Defined.


End CliFacts.

(** ** The solver of the specification *)

Module FermiFacts.
Import Fermi.
Local Open Scope Q_scope.

Lemma sign_pos (x : Q) : sign x = 1%Z <-> 0 < x.
Proof.
  unfold sign, Qlt. destruct x as [n d]. simpl. rewrite Z.mul_1_r.
  apply Z.sgn_pos_iff.
Qed.

Lemma sign_neg (x : Q) : sign x = (-1)%Z <-> x < 0.
Proof.
  unfold sign, Qlt. destruct x as [n d]. simpl. rewrite Z.mul_1_r.
  apply Z.sgn_neg_iff.
Qed.

Lemma sign_cases (x : Q) : sign x = (-1)%Z \/ sign x = 0%Z \/ sign x = 1%Z.
Proof. unfold sign. destruct (Qnum x); simpl; auto. Qed.

Lemma opposite_signs_iff (a b : Q) :
  opposite_signs a b = true <->
  (a < 0 /\ 0 < b) \/ (0 < a /\ b < 0).
Proof.
  unfold opposite_signs. rewrite Z.ltb_lt, <- !sign_pos, <- !sign_neg.
  destruct (sign_cases a) as [-> | [-> | ->]],
           (sign_cases b) as [-> | [-> | ->]]; simpl; intuition lia.
Qed.

Lemma same_sign_not_opposite (a b : Q) :
  sign a = sign b -> opposite_signs a b = false.
Proof.
  intro E. unfold opposite_signs. rewrite E. apply Z.ltb_ge.
  destruct (sign_cases b) as [-> | [-> | ->]]; simpl; lia.
Qed.

Section Solve.
Variable R : Q -> Q.
Variable tol : Q.
Variable max_iter : nat.

Lemma pow2_pos (k : nat) : 0 < inject_Z (2 ^ Z.of_nat k).
Proof.
  change 0 with (inject_Z 0). rewrite <- Zlt_Qlt. apply Z.pow_pos_nonneg; lia.
Qed.

Lemma pow2_succ (k : nat) :
  inject_Z (2 ^ Z.of_nat (S k)) == 2 * inject_Z (2 ^ Z.of_nat k).
Proof.
  rewrite Nat2Z.inj_succ, Z.pow_succ_r by lia. now rewrite inject_Z_mult.
Qed.

(** A bracket halved once, then [k] more times. *)
Lemma halved_again (w : Q) (k : nat) :
  w / 2 / inject_Z (2 ^ Z.of_nat k) == w / inject_Z (2 ^ Z.of_nat (S k)).
Proof.
  rewrite pow2_succ. pose proof (pow2_pos k) as Hk. field.
  intro H0. rewrite H0 in Hk. now apply Qlt_irrefl in Hk.
Qed.

(** Bisection keeps its bracket inside the one it started from, with
    residuals that are not of the same strict sign at its ends.  The
    bracket it ends with is the first one halved [k] times, every
    halving being called for by a bracket wider than the tolerance; it
    reports convergence exactly when it stops before the budget is
    spent, and the bracket is then no wider than the tolerance. *)
Lemma bisect_bracket (n : nat) (lo hi : Q) :
  lo <= hi -> (sign (R lo) * sign (R hi) <= 0)%Z ->
  forall lo' hi' status,
    bisect R tol n lo hi = (lo', hi', status) ->
    lo <= lo' /\ lo' <= hi' /\ hi' <= hi /\
    (sign (R lo') * sign (R hi') <= 0)%Z /\
    exists k : nat,
      (k <= n)%nat /\
      hi' - lo' == (hi - lo) / inject_Z (2 ^ Z.of_nat k) /\
      (forall j, (j < k)%nat -> tol < (hi - lo) / inject_Z (2 ^ Z.of_nat j)) /\
      (status = Converged <-> (k < n)%nat) /\
      (status = Converged -> hi' - lo' <= tol).
Proof.
  revert lo hi. induction n as [|n IH]; intros lo hi Hle Hopp lo' hi' status.
  - simpl. intros [= <- <- <-].
    repeat split; try apply Qle_refl; try assumption.
    exists O. split; [lia|]. split; [simpl; field|].
    split; [intros j Hj; lia|]. split; [split; [discriminate|lia]|discriminate].
  - cbn [bisect]. destruct (Qle_bool (hi - lo) tol) eqn:Etol.
    + intros [= <- <- <-]. apply Qle_bool_iff in Etol.
      repeat split; try apply Qle_refl; try assumption.
      exists O. split; [lia|]. split; [simpl; field|].
      split; [intros j Hj; lia|]. split; [split; [lia|reflexivity]|].
      intros _. exact Etol.
    + assert (Hwide : tol < hi - lo).
      { apply Qnot_le_lt. intro Hc. apply Qle_bool_iff in Hc. congruence. }
      set (mid := (lo + hi) / 2).
      assert (Hmid : lo <= mid /\ mid <= hi).
      { unfold mid. split.
        - apply Qle_shift_div_l; [reflexivity|]. lra.
        - apply Qle_shift_div_r; [reflexivity|]. lra. }
      assert (Hleft : mid - lo == (hi - lo) / 2) by (unfold mid; field).
      assert (Hright : hi - mid == (hi - lo) / 2) by (unfold mid; field).
      assert (Hfirst : forall (w : Q) (k : nat),
                 w == (hi - lo) / 2 ->
                 (forall j, (j < k)%nat -> tol < w / inject_Z (2 ^ Z.of_nat j)) ->
                 forall j, (j < S k)%nat ->
                   tol < (hi - lo) / inject_Z (2 ^ Z.of_nat j)).
      { intros w k Hw Hall [|j] Hj.
        - change (inject_Z (2 ^ Z.of_nat 0)) with 1. unfold Qdiv.
          change (/ 1) with 1. now rewrite Qmult_1_r.
        - rewrite <- halved_again, <- Hw. apply Hall. lia. }
      destruct (0 <? sign (R lo) * sign (R mid))%Z eqn:Eside; intro Hb.
      * apply Z.ltb_lt in Eside.
        assert (Hsigns : (sign (R mid) * sign (R hi) <= 0)%Z).
        { destruct (sign_cases (R lo)) as [El | [El | El]],
                   (sign_cases (R mid)) as [Em | [Em | Em]],
                   (sign_cases (R hi)) as [Eh | [Eh | Eh]];
            rewrite ?El, ?Em, ?Eh in *; simpl in *; lia. }
        destruct (IH mid hi (proj2 Hmid) Hsigns _ _ _ Hb)
          as (H1 & H2 & H3 & H4 & k & Hk & Hw & Hall & Hst & Htol).
        repeat split; try assumption.
        { apply Qle_trans with mid; [exact (proj1 Hmid)|exact H1]. }
        exists (S k). split; [lia|].
        split; [now rewrite Hw, Hright, halved_again|].
        split; [now apply (Hfirst (hi - mid))|].
        split; [rewrite Hst; lia|exact Htol].
      * apply Z.ltb_ge in Eside.
        destruct (IH lo mid (proj1 Hmid) Eside _ _ _ Hb)
          as (H1 & H2 & H3 & H4 & k & Hk & Hw & Hall & Hst & Htol).
        repeat split; try assumption.
        { apply Qle_trans with mid; [exact H3|exact (proj2 Hmid)]. }
        exists (S k). split; [lia|].
        split; [now rewrite Hw, Hleft, halved_again|].
        split; [now apply (Hfirst (mid - lo))|].
        split; [rewrite Hst; lia|exact Htol].
Qed.

(** C2.  When the residual has the same sign at [Emin] and at [Emax],
    [solve] fails with [NoBracketError] and returns no Fermi level.  When
    the signs are opposite it does not fail: it returns the middle of a
    bracket found by bisection inside [[Emin, Emax]], at whose ends the
    residual does not have the same strict sign.  That bracket is
    [[Emin, Emax]] halved [k] times, [k] within the iteration budget and
    no halving made on a bracket already within the tolerance; the status
    is [Converged] exactly when the budget was not used up, the bracket is
    then no wider than the tolerance, and a budget that allows a bracket
    within the tolerance always ends in [Converged]. *)
Theorem solve_needs_a_bracket (Emin Emax : Q) :
  (sign (R Emin) = sign (R Emax) ->
   solve R tol max_iter Emin Emax = inl NoBracketError) /\
  (Emin <= Emax ->
   sign (R Emin) = (- sign (R Emax))%Z -> sign (R Emin) <> 0%Z ->
   exists lo hi status (k : nat),
     solve R tol max_iter Emin Emax = inr ((lo + hi) / 2, status) /\
     Emin <= lo /\ lo <= (lo + hi) / 2 /\ (lo + hi) / 2 <= hi /\ hi <= Emax /\
     (sign (R lo) * sign (R hi) <= 0)%Z /\
     (k <= max_iter)%nat /\
     hi - lo == (Emax - Emin) / inject_Z (2 ^ Z.of_nat k) /\
     (forall j, (j < k)%nat ->
        tol < (Emax - Emin) / inject_Z (2 ^ Z.of_nat j)) /\
     (status = Converged <-> (k < max_iter)%nat) /\
     (status = Converged -> hi - lo <= tol) /\
     (forall j, (j < max_iter)%nat ->
        (Emax - Emin) / inject_Z (2 ^ Z.of_nat j) <= tol ->
        status = Converged)).
Proof.
  split.
  - intro Hsame. unfold solve. now rewrite same_sign_not_opposite.
  - intros Hle Hopp Hnz. unfold solve.
    assert (Hlt : (sign (R Emin) * sign (R Emax) < 0)%Z).
    { destruct (sign_cases (R Emin)) as [El | [El | El]],
               (sign_cases (R Emax)) as [Eh | [Eh | Eh]];
        rewrite ?El, ?Eh in *; simpl in *; lia. }
    unfold opposite_signs. rewrite (proj2 (Z.ltb_lt _ _) Hlt).
    destruct (bisect R tol max_iter Emin Emax) as [[lo hi] status] eqn:Eb.
    destruct (bisect_bracket max_iter Emin Emax Hle (Z.lt_le_incl _ _ Hlt)
                _ _ _ Eb)
      as (H1 & H2 & H3 & H4 & k & Hk & Hw & Hall & Hst & Htol).
    exists lo, hi, status, k. split; [reflexivity|].
    split; [exact H1|]. split.
    { apply Qle_shift_div_l; [reflexivity|]. lra. }
    split.
    { apply Qle_shift_div_r; [reflexivity|]. lra. }
    do 6 (split; [assumption|]). split; [exact Htol|].
    intros j Hj Hfits. apply Hst.
    destruct (Nat.lt_ge_cases k max_iter) as [Hdone|Hspent]; [exact Hdone|].
    exfalso. apply (Qlt_irrefl tol).
    eapply Qlt_le_trans; [apply (Hall j); lia|exact Hfits].
Qed.

End Solve.

(** The sample residual over the gap [[0, 1]]: ten halvings bring the
    bracket within a thousandth, well inside the budget of twenty. *)
Lemma solve_needs_a_bracket_witness :
  (exists Ef, solve sample_residual (1 # 1000) 20 0 1 = inr (Ef, Converged)) /\
  solve sample_residual (1 # 1000) 20 1 2 = inl NoBracketError.
Proof.
  split.
  - destruct (solve_needs_a_bracket sample_residual (1 # 1000) 20 0 1)
      as [_ Hopp].
    destruct Hopp as (lo & hi & status & k & E & _ & _ & _ & _ & _ & _ & _ & _
                      & _ & _ & Hdone);
      [discriminate|reflexivity|discriminate|].
    exists ((lo + hi) / 2). rewrite E.
    now rewrite (Hdone 10%nat) by (try lia; discriminate).
  - destruct (solve_needs_a_bracket sample_residual (1 # 1000) 20 1 2)
      as [Hsame _].
    apply Hsame. reflexivity.
Defined.

End FermiFacts.

(** ** Carrier concentrations of the specification *)

Module CarrierFacts.
Import Reals Lra Carrier.
Local Open Scope R_scope.

Lemma exp_le (x y : R) : x <= y -> exp x <= exp y.
Proof.
  intros [Hlt | ->]; [left; now apply exp_increasing|apply Rle_refl].
Qed.

Lemma fermi_dirac_bounds (t : R) : 0 <= / (1 + exp t) <= 1.
Proof.
  pose proof (exp_pos t) as Hexp. split.
  - left. apply Rinv_0_lt_compat. lra.
  - rewrite <- Rinv_1. apply Rinv_le_contravar; lra.
Qed.

Section Carrier.
Variable kB : R.
Variable per_cm3 : R.
Variable cutoff : R.
Variable E_valence : R.
Variable E_conduction : R.

Hypothesis kB_pos : 0 < kB.
Hypothesis per_cm3_nonneg : 0 <= per_cm3.

Lemma occupation_bounds (x T : R) : 0 <= occupation kB cutoff x T <= 1.
Proof.
  unfold occupation.
  destruct (Rlt_dec cutoff (x / (kB * T))); [lra|].
  destruct (Rlt_dec (x / (kB * T)) (- cutoff)); [lra|].
  apply fermi_dirac_bounds.
Qed.

(** The occupation of a level falls as the level rises above the Fermi
    level, with or without saturation. *)
Lemma occupation_antitone (x1 x2 T : R) :
  0 < T -> x1 <= x2 ->
  occupation kB cutoff x2 T <= occupation kB cutoff x1 T.
Proof.
  intros HT Hx.
  assert (HkT : 0 < / (kB * T))
    by (apply Rinv_0_lt_compat, Rmult_lt_0_compat; assumption).
  assert (Ht : x1 / (kB * T) <= x2 / (kB * T))
    by (unfold Rdiv; apply Rmult_le_compat_r; lra).
  pose proof (occupation_bounds x1 T) as B1.
  pose proof (occupation_bounds x2 T) as B2.
  unfold occupation in *.
  destruct (Rlt_dec cutoff (x2 / (kB * T))); [lra|].
  destruct (Rlt_dec cutoff (x1 / (kB * T))); [lra|].
  destruct (Rlt_dec (x1 / (kB * T)) (- cutoff)); [lra|].
  destruct (Rlt_dec (x2 / (kB * T)) (- cutoff)); [lra|].
  pose proof (exp_pos (x1 / (kB * T))).
  apply Rinv_le_contravar; [lra|].
  apply Rplus_le_compat_l, exp_le, Ht.
Qed.

(** The trapezoid sum over an increasing grid grows with the integrand. *)
Lemma trapezoid_monotone (g h : R * R -> R) (pts : list (R * R)) :
  StronglySorted (fun p q => fst p < fst q) pts ->
  (forall p, In p pts -> g p <= h p) ->
  trapezoid (map (fun p => (fst p, g p)) pts)
  <= trapezoid (map (fun p => (fst p, h p)) pts).
Proof.
  induction 1 as [|p pts Hsorted IH Hp]; intro Hgh; [apply Rle_refl|].
  destruct pts as [|q pts]; [apply Rle_refl|].
  change (trapezoid (map (fun p => (fst p, g p)) (p :: q :: pts)))
    with ((fst q - fst p) * (g p + g q) / 2
          + trapezoid (map (fun p => (fst p, g p)) (q :: pts))).
  change (trapezoid (map (fun p => (fst p, h p)) (p :: q :: pts)))
    with ((fst q - fst p) * (h p + h q) / 2
          + trapezoid (map (fun p => (fst p, h p)) (q :: pts))).
  assert (Hstep : fst p < fst q)
    by (rewrite Forall_forall in Hp; apply Hp; now left).
  assert (Hgp : g p <= h p) by (apply Hgh; now left).
  assert (Hgq : g q <= h q) by (apply Hgh; right; now left).
  assert (IH' : trapezoid (map (fun p => (fst p, g p)) (q :: pts))
                <= trapezoid (map (fun p => (fst p, h p)) (q :: pts)))
    by (apply IH; intros r Hr; apply Hgh; now right).
  assert (Hw : (fst q - fst p) * (g p + g q) <= (fst q - fst p) * (h p + h q))
    by (apply Rmult_le_compat_l; lra).
  lra.
Qed.

Lemma filter_sorted (keep : R * R -> bool) (dos : DOSTable) :
  StronglySorted (fun p q => fst p < fst q) dos ->
  StronglySorted (fun p q => fst p < fst q) (filter keep dos).
Proof.
  induction 1 as [|p dos Hsorted IH Hp]; simpl; [constructor|].
  destruct (keep p); [|exact IH]. constructor; [exact IH|].
  rewrite Forall_forall in *. intros q Hq.
  apply filter_In in Hq. now apply Hp.
Qed.

Lemma scale_monotone (a b volume : R) :
  0 < volume -> a <= b -> per_cm3 * a / volume <= per_cm3 * b / volume.
Proof.
  intros Hv Hab. unfold Rdiv. apply Rmult_le_compat_r.
  - left. now apply Rinv_0_lt_compat.
  - now apply Rmult_le_compat_l.
Qed.

(** C3.  For a valid DOS table (energies strictly increasing, density of
    states not negative), a temperature [T > 0] and a volume [> 0], the
    electron concentration does not decrease and the hole concentration
    does not increase when the Fermi level rises. *)
Theorem carrier_concentrations_monotone
  (dos : DOSTable) (T volume Ef1 Ef2 : R) :
  valid dos -> 0 < T -> 0 < volume -> Ef1 <= Ef2 ->
  fst (carrier_concentrations kB per_cm3 cutoff E_valence E_conduction
         dos Ef1 T volume)
  <= fst (carrier_concentrations kB per_cm3 cutoff E_valence E_conduction
            dos Ef2 T volume) /\
  snd (carrier_concentrations kB per_cm3 cutoff E_valence E_conduction
         dos Ef2 T volume)
  <= snd (carrier_concentrations kB per_cm3 cutoff E_valence E_conduction
            dos Ef1 T volume).
Proof.
  intros [Hsorted Hpos] HT Hv HEf. cbn [carrier_concentrations fst snd].
  unfold n_electron, n_hole. split.
  - apply scale_monotone; [exact Hv|].
    apply (trapezoid_monotone
             (fun p => snd p * occupation kB cutoff (fst p - Ef1) T)
             (fun p => snd p * occupation kB cutoff (fst p - Ef2) T)).
    + now apply filter_sorted.
    + intros p Hp. apply filter_In in Hp. destruct Hp as [Hp _].
      rewrite Forall_forall in Hpos. apply Rmult_le_compat_l; [now apply Hpos|].
      apply occupation_antitone; [exact HT|lra].
  - apply scale_monotone; [exact Hv|].
    apply (trapezoid_monotone
             (fun p => snd p * (1 - occupation kB cutoff (fst p - Ef2) T))
             (fun p => snd p * (1 - occupation kB cutoff (fst p - Ef1) T))).
    + now apply filter_sorted.
    + intros p Hp. apply filter_In in Hp. destruct Hp as [Hp _].
      rewrite Forall_forall in Hpos. apply Rmult_le_compat_l; [now apply Hpos|].
      assert (occupation kB cutoff (fst p - Ef1) T
              <= occupation kB cutoff (fst p - Ef2) T)
        by (apply occupation_antitone; [exact HT|lra]).
      lra.
Qed.

End Carrier.

(** Away from saturation the occupation is strictly between 0 and 1. *)
Lemma occupation_inside (kB cutoff x T : R) :
  - cutoff <= x / (kB * T) <= cutoff ->
  0 < occupation kB cutoff x T < 1.
Proof.
  intros [Hlo Hhi]. unfold occupation.
  destruct (Rlt_dec cutoff (x / (kB * T))); [lra|].
  destruct (Rlt_dec (x / (kB * T)) (- cutoff)); [lra|].
  pose proof (exp_pos (x / (kB * T))) as Hexp. split.
  - apply Rinv_0_lt_compat. lra.
  - rewrite <- Rinv_1 at 2. apply Rinv_lt_contravar; lra.
Qed.

Lemma two_band_dos_valid : valid two_band_dos.
Proof.
  unfold valid, two_band_dos. split.
  - repeat (constructor; [|repeat (constructor; [simpl; lra|]); constructor]).
    constructor.
  - repeat (constructor; [simpl; lra|]). constructor.
Qed.

(** The two-band DOS at 300 K ([kB = 1e-4] eV/K, no saturation below
    an exponent of 100), band edges at 0 and 1 eV, the Fermi level
    raised from the valence edge to mid-gap: three samples enter each
    integral, and both concentrations are positive at both levels. *)
Lemma carrier_concentrations_monotone_witness :
  0 < n_electron (1 / 10000) 1 100 1 two_band_dos 0 300 1
    <= n_electron (1 / 10000) 1 100 1 two_band_dos (1 / 2) 300 1 /\
  0 < n_hole (1 / 10000) 1 100 0 two_band_dos (1 / 2) 300 1
    <= n_hole (1 / 10000) 1 100 0 two_band_dos 0 300 1.
Proof.
  destruct (carrier_concentrations_monotone (1 / 10000) 1 100 0 1
              ltac:(lra) ltac:(lra) two_band_dos 300 1 0 (1 / 2)
              two_band_dos_valid ltac:(lra) ltac:(lra) ltac:(lra))
    as [He Hh].
  cbn [carrier_concentrations fst snd] in He, Hh.
  split; (split; [|assumption]).
  - unfold n_electron, above, two_band_dos. cbn [filter fst snd].
    repeat match goal with
           | |- context [Rle_dec ?a ?b] =>
               destruct (Rle_dec a b); [try (exfalso; lra)|try (exfalso; lra)]
           end.
    cbn [map trapezoid fst snd].
    pose proof (occupation_inside (1 / 10000) 100 (1 - 0) 300 ltac:(lra)).
    pose proof (occupation_inside (1 / 10000) 100 (3 / 2 - 0) 300 ltac:(lra)).
    pose proof (occupation_inside (1 / 10000) 100 (2 - 0) 300 ltac:(lra)).
    lra.
  - unfold n_hole, below, two_band_dos. cbn [filter fst snd].
    repeat match goal with
           | |- context [Rle_dec ?a ?b] =>
               destruct (Rle_dec a b); [try (exfalso; lra)|try (exfalso; lra)]
           end.
    cbn [map trapezoid fst snd].
    pose proof (occupation_inside (1 / 10000) 100 (-1 - 1 / 2) 300 ltac:(lra)).
    pose proof (occupation_inside (1 / 10000) 100 (-1 / 2 - 1 / 2) 300
                  ltac:(lra)).
    pose proof (occupation_inside (1 / 10000) 100 (0 - 1 / 2) 300 ltac:(lra)).
    lra.
Defined.

End CarrierFacts.

(* ================================================================== *)
(** * Further properties of the code *)

(** ** [formation]: the stable charge states and their transitions *)

Module StableStates.
Import Formation FormationFacts DefectMore.
Local Open Scope Q_scope.

(** [np.argmin]: either the running best stays, or a later entry beats
    it; in both cases the winner is below every entry scanned. *)
Lemma argmin_from_spec (row : list Q) (best : Q) (besti i : nat) :
  (argmin_from best besti i row = besti /\
   Forall (fun x => best <= x) row) \/
  (exists j, argmin_from best besti i row = (i + j)%nat /\
             (j < List.length row)%nat /\
             nth j row 0 < best /\
             Forall (fun x => nth j row 0 <= x) row).
Proof.
  revert best besti i. induction row as [|x row IH]; intros best besti i.
  - left. split; [reflexivity|constructor].
  - cbn [argmin_from]. destruct (Qlt_bool x best) eqn:E.
    + apply Qlt_bool_iff in E.
      destruct (IH x i (S i)) as [[Hr HF]|(j & Hr & Hj & Hlt & HF)].
      * right. exists 0%nat. rewrite Hr, Nat.add_0_r. cbn [nth List.length].
        split; [reflexivity|]. split; [lia|]. split; [exact E|].
        constructor; [apply Qle_refl|exact HF].
      * right. exists (S j). rewrite Hr. cbn [nth List.length].
        split; [lia|]. split; [lia|]. split; [lra|].
        constructor; [lra|exact HF].
    + assert (Hle : best <= x).
      { apply Qnot_lt_le. intro Hlt. apply Qlt_bool_iff in Hlt. congruence. }
      destruct (IH best besti (S i)) as [[Hr HF]|(j & Hr & Hj & Hlt & HF)].
      * left. split; [exact Hr|]. constructor; assumption.
      * right. exists (S j). rewrite Hr. cbn [nth List.length].
        split; [lia|]. split; [lia|]. split; [exact Hlt|].
        constructor; [lra|exact HF].
Qed.

Lemma argmin_spec (row : list Q) :
  row <> [] ->
  (argmin row < List.length row)%nat /\
  Forall (fun x => nth (argmin row) row 0 <= x) row.
Proof.
  destruct row as [|x row]; [congruence|]. intros _. unfold argmin.
  destruct (argmin_from_spec row x 0 1) as [[Hr HF]|(j & Hr & Hj & Hlt & HF)];
    rewrite Hr.
  - cbn [nth List.length]. split; [lia|].
    constructor; [apply Qle_refl|exact HF].
  - change (1 + j)%nat with (S j). cbn [nth List.length]. split; [lia|].
    constructor; [lra|exact HF].
Qed.

(** [np.argmin] points at the value [min] returns. *)
Lemma argmin_attains_min (row : list Q) :
  row <> [] -> nth (argmin row) row 0 == row_min row.
Proof.
  intro Hne. destruct (argmin_spec row Hne) as [Hlt HF].
  destruct (row_min_attained row Hne) as (y & Hy & Heq).
  rewrite Forall_forall in HF. apply Qle_antisym.
  - rewrite Heq. now apply HF.
  - apply row_min_le. apply nth_In, Hlt.
Qed.

Lemma insert_uniq_In (x y : nat) (l : list nat) :
  In y (insert_uniq x l) <-> y = x \/ In y l.
Proof.
  induction l as [|z l IH]; simpl; [intuition|].
  destruct (Nat.ltb_spec x z); [simpl; intuition|].
  destruct (Nat.eqb_spec x z); simpl; [subst; intuition|].
  rewrite IH. intuition.
Qed.

Lemma unique_In (x : nat) (l : list nat) : In x (unique l) <-> In x l.
Proof.
  unfold unique. induction l as [|y l IH]; simpl; [tauto|].
  rewrite insert_uniq_In, IH. intuition.
Qed.



Lemma nth_Eform_row (v : list Z) (e : list Q) (mu : Q) (a : nat) :
  List.length v = List.length e -> (a < List.length v)%nat ->
  nth a (Eform_row v e mu) 0 = inject_Z (nth a v 0%Z) * mu + nth a e 0.
Proof.
  revert e a. induction v as [|q v IH]; intros [|e0 e] a Hlen Ha;
    simpl in *; try lia.
  destruct a as [|a]; [reflexivity|]. apply IH; lia.
Qed.

Lemma length_Eform_row (v : list Z) (e : list Q) (mu : Q) :
  List.length v = List.length e ->
  List.length (Eform_row v e mu) = List.length v.
Proof.
  intro Hlen. unfold Eform_row. rewrite length_map, length_combine. lia.
Qed.

Section Stable.
Variable ipt : Input.
Hypothesis valence_nonempty : valence ipt <> [].
Hypothesis one_E0_per_valence :
  List.length (valence ipt) = List.length (E0q ipt).

Lemma nth_row_state_energy (mu : Q) (a : nat) :
  (a < List.length (valence ipt))%nat ->
  nth a (Eform_row (valence ipt) (E0q ipt) mu) 0 = state_energy ipt a mu.
Proof. intro Ha. now apply nth_Eform_row. Qed.



Lemma in_idx_argmin (mu : Q) :
  In mu (miu ipt) ->
  In (argmin (Eform_row (valence ipt) (E0q ipt) mu)) (idx ipt).
Proof.
  intro Hmu. unfold idx, Eform. rewrite unique_In, map_map.
  apply in_map_iff. now exists mu.
Qed.

Lemma nth_tq (k : nat) :
  (k < List.length (idx ipt))%nat ->
  nth k (tq ipt) 0%Z = nth (nth k (idx ipt) O) (valence ipt) 0%Z.
Proof.
  intro Hk. unfold tq.
  now rewrite nth_map_in_range with (d' := O) by exact Hk.
Qed.

Lemma nth_eq (k : nat) :
  (k < List.length (idx ipt))%nat ->
  nth k (eq ipt) 0 = nth (nth k (idx ipt) O) (E0q ipt) 0.
Proof.
  intro Hk. unfold eq.
  now rewrite nth_map_in_range with (d' := O) by exact Hk.
Qed.

(** X1.  At every grid sample the minimum formation energy is the energy
    of one of the stable charge states [formation] lists: the one
    [np.argmin] picks there is never left out by [np.unique]. *)
Theorem ground_state_is_listed (i : nat) :
  (i < npts ipt)%nat ->
  exists k,
    (k < List.length (tq ipt))%nat /\
    nth i (Efmin ipt) 0
    == nth k (eq ipt) 0 + inject_Z (nth k (tq ipt) 0%Z) * nth i (miu ipt) 0.
Proof.
  intro Hi. set (mu := nth i (miu ipt) 0).
  assert (Hlen : List.length (miu ipt) = npts ipt) by apply length_linspace.
  assert (Hmu : In mu (miu ipt)) by (apply nth_In; lia).
  set (row := Eform_row (valence ipt) (E0q ipt) mu).
  assert (Hne : row <> []) by now apply Eform_row_nonempty.
  pose proof (in_idx_argmin mu Hmu) as Hin. fold row in Hin.
  destruct (In_nth _ _ O Hin) as (k & Hk & Hnth).
  exists k. split; [unfold tq; now rewrite length_map|].
  rewrite nth_tq, nth_eq, Hnth by exact Hk.
  assert (HEf : nth i (Efmin ipt) 0 = row_min row).
  { unfold Efmin, Eform. rewrite map_map.
    now rewrite nth_map_in_range with (d' := 0) by lia. }
  rewrite HEf, <- (argmin_attains_min row Hne).
  destruct (argmin_spec row Hne) as [Hlt _].
  unfold row in Hlt at 2. rewrite length_Eform_row in Hlt by assumption.
  unfold row. rewrite nth_row_state_energy by exact Hlt.
  unfold state_energy. ring.
Qed.

End Stable.








Section Transitions.
Variable ipt : Input.
Hypothesis valence_nonempty : valence ipt <> [].
Hypothesis one_E0_per_valence :
  List.length (valence ipt) = List.length (E0q ipt).









End Transitions.


Lemma ground_state_is_listed_witness :
  exists k,
    (k < List.length (tq three_state_input))%nat /\
    nth 3 (Efmin three_state_input) 0
    == nth k (eq three_state_input) 0
       + inject_Z (nth k (tq three_state_input) 0%Z)
         * nth 3 (miu three_state_input) 0.
Proof.
  apply (ground_state_is_listed three_state_input).
  - discriminate.
  - reflexivity.
  - simpl. lia.
Defined.



End StableStates.

(** ** [read_formation] with [to_reduce] *)

Module ReduceFacts.
Import Formation FormationFacts Defect DefectMore.
Local Open Scope Q_scope.

Lemma insert_first_In (x : Q) (i : nat) (l : list (Q * nat)) (p : Q * nat) :
  In p (Numpy.insert_first (H := QFloat) x i l) -> p = (x, i) \/ In p l.
Proof.
  induction l as [|[y j] l IH]; simpl; [intuition|].
  destruct (Qlt_bool x y); [simpl; intuition|].
  destruct (Qlt_bool y x); [|simpl; intuition].
  simpl. intuition.
Qed.

Lemma insert_first_keeps (x : Q) (i : nat) (l : list (Q * nat)) (p : Q * nat) :
  In p l -> In p (Numpy.insert_first (H := QFloat) x i l).
Proof.
  induction l as [|[y j] l IH]; simpl; [tauto|].
  destruct (Qlt_bool x y); [simpl; intuition|].
  destruct (Qlt_bool y x); simpl; intuition.
Qed.

Lemma not_lt_either (x y : Q) :
  Qlt_bool x y = false -> Qlt_bool y x = false -> x == y.
Proof.
  intros H1 H2. apply Qle_antisym; apply Qnot_lt_le; intro Hlt;
    apply Qlt_bool_iff in Hlt; congruence.
Qed.

(** The value inserted is represented afterwards. *)
Lemma insert_first_covers (x : Q) (i : nat) (l : list (Q * nat)) :
  exists y j, In (y, j) (Numpy.insert_first (H := QFloat) x i l) /\ x == y.
Proof.
  induction l as [|[y j] l IH]; simpl.
  - exists x, i. split; [now left|reflexivity].
  - destruct (Qlt_bool x y) eqn:E1.
    + exists x, i. split; [now left|reflexivity].
    + destruct (Qlt_bool y x) eqn:E2.
      * destruct IH as (y' & j' & Hin & Heq). exists y', j'.
        split; [now right|exact Heq].
      * exists y, j. split; [now left|now apply not_lt_either].
Qed.

(** A pair is new only when its value was not there. *)
Lemma insert_first_new (x : Q) (i : nat) (l : list (Q * nat)) :
  StronglySorted value_lt l ->
  forall p, In p (Numpy.insert_first (H := QFloat) x i l) ->
            In p l \/ (p = (x, i) /\ forall q, In q l -> ~ fst q == x).
Proof.
  intro Hs. induction Hs as [|[y j] l Hs IH Hy]; intros p Hin.
  - simpl in Hin. destruct Hin as [<-|[]]. right. split; [reflexivity|].
    intros q [].
  - simpl in Hin. destruct (Qlt_bool x y) eqn:E1.
    + destruct Hin as [<-|Hin]; [|now left]. right. split; [reflexivity|].
      apply Qlt_bool_iff in E1. intros q [<-|Hq] Heq.
      * simpl in Heq. rewrite Heq in E1. now apply Qlt_irrefl in E1.
      * rewrite Forall_forall in Hy. specialize (Hy q Hq).
        unfold value_lt in Hy. simpl in Hy. rewrite Heq in Hy.
        apply (Qlt_irrefl x). now apply Qlt_trans with y.
    + destruct (Qlt_bool y x) eqn:E2; [|now left].
      destruct Hin as [<-|Hin]; [left; now left|].
      destruct (IH p Hin) as [Hl|[-> Hnew]]; [left; now right|].
      right. split; [reflexivity|].
      apply Qlt_bool_iff in E2. intros q [<-|Hq] Heq; [|now apply (Hnew q)].
      simpl in Heq. rewrite Heq in E2. now apply Qlt_irrefl in E2.
Qed.

Lemma insert_first_sorted (x : Q) (i : nat) (l : list (Q * nat)) :
  StronglySorted value_lt l -> StronglySorted value_lt (Numpy.insert_first (H := QFloat) x i l).
Proof.
  induction 1 as [|[y j] l Hs IH Hy]; simpl; [repeat constructor|].
  destruct (Qlt_bool x y) eqn:E1.
  - apply Qlt_bool_iff in E1. constructor; [now constructor|].
    constructor; [exact E1|].
    eapply Forall_impl; [|exact Hy]. unfold value_lt. simpl.
    intros q Hq. now apply Qlt_trans with y.
  - destruct (Qlt_bool y x) eqn:E2; [|now constructor].
    apply Qlt_bool_iff in E2. constructor; [exact IH|].
    apply Forall_forall. intros q Hq. apply insert_first_In in Hq.
    rewrite Forall_forall in Hy. destruct Hq as [->|Hq]; [exact E2|auto].
Qed.

Lemma scanned_nil : scanned [] [].
Proof.
  split; [constructor|]. split.
  - intros y j [].
  - intros [|j] x Hx; discriminate.
Qed.

(** One more sample scanned. *)
Lemma scanned_step (pre : list Q) (acc : list (Q * nat)) (x : Q) :
  scanned pre acc ->
  scanned (pre ++ [x])
          (Numpy.insert_first (H := QFloat) x (List.length pre) acc).
Proof.
  intros (Hsorted & Hfirst & Hcover). split; [now apply insert_first_sorted|].
  split.
  - intros y j Hin.
    destruct (insert_first_new x (List.length pre) acc Hsorted _ Hin)
      as [Hold|[[= -> ->] Hnew]].
    + destruct (Hfirst y j Hold) as [Hj Hbefore].
      assert (Hlt : (j < List.length pre)%nat)
        by (apply nth_error_Some; congruence).
      split; [now rewrite nth_error_app1|].
      intros j' y' Hj' Hy'. rewrite nth_error_app1 in Hy' by lia.
      now apply (Hbefore j' y').
    + split; [now rewrite nth_error_app2, Nat.sub_diag|].
      intros j' y' Hj' Hy' Heq. rewrite nth_error_app1 in Hy' by lia.
      destruct (Hcover j' y' Hy') as (y0 & j0 & Hin0 & Heq0).
      apply (Hnew (y0, j0) Hin0). simpl. now rewrite <- Heq0.
  - intros j z Hz.
    destruct (Nat.lt_ge_cases j (List.length pre)) as [Hlt|Hge].
    + rewrite nth_error_app1 in Hz by exact Hlt.
      destruct (Hcover j z Hz) as (y0 & j0 & Hin0 & Heq0).
      exists y0, j0. split; [now apply insert_first_keeps|exact Heq0].
    + rewrite nth_error_app2 in Hz by exact Hge.
      destruct (j - List.length pre)%nat as [|k] eqn:E;
        [|destruct k; discriminate].
      injection Hz as <-. apply insert_first_covers.
Qed.

Lemma scanned_fold (suf pre : list Q) (acc : list (Q * nat)) :
  scanned pre acc ->
  scanned (pre ++ suf)
    (fold_left (fun acc xi =>
                  Numpy.insert_first (H := QFloat) (fst xi) (snd xi) acc)
               (combine suf (seq (List.length pre) (List.length suf))) acc).
Proof.
  revert pre acc. induction suf as [|x suf IH]; intros pre acc Hinv.
  - simpl. now rewrite app_nil_r.
  - cbn [List.length seq combine fold_left fst snd].
    replace (pre ++ x :: suf) with ((pre ++ [x]) ++ suf)
      by (now rewrite <- app_assoc).
    replace (S (List.length pre)) with (List.length (pre ++ [x]))
      by (rewrite length_app; simpl; lia).
    apply IH. now apply scanned_step.
Qed.

(** [np.unique(v, return_index=True)]: strictly increasing values, each
    with the index of its first occurrence, every sample represented. *)
Lemma unique_index_scanned (v : list Q) :
  scanned v (Numpy.unique_index (H := QFloat) v).
Proof. apply (scanned_fold v [] []), scanned_nil. Qed.

Lemma take_in_range (v : list Q) (index : list nat) :
  Forall (fun j => (j < List.length v)%nat) index ->
  Numpy.take (H := QFloat) v index = Ok (map (fun j => nth j v 0) index).
Proof.
  intro HF. unfold Numpy.take. apply DefectFacts.map_result_ok.
  intros j Hj. rewrite Forall_forall in HF. unfold getitem.
  change (match nth_error (A := Q) v j with
          | Some a => Ok a
          | None => Raise IndexError
          end = Ok (nth j v 0)).
  now rewrite (nth_error_nth' v (0 : Q) (HF j Hj)).
Qed.

Lemma unpack3_lengths (lines : list string) (Efermi energy charge : list Q) :
  Numpy.loadtxt_unpack3 (H := QFloat) lines
  = Ok (Vector Efermi, Vector energy, Vector charge) ->
  List.length Efermi = List.length charge /\
  List.length energy = List.length charge.
Proof.
  unfold Numpy.loadtxt_unpack3.
  destruct (map_result Numpy.fields012 (Numpy.data_fields lines))
    as [rows|e]; cbn [bind]; [|discriminate].
  destruct rows as [|[[a b] c] [|row rows]]; intros [= <- <- <-];
    simpl; now rewrite ?length_map.
Qed.

Lemma sorted_picks (charge : list Q) (ui : list (Q * nat)) :
  (forall y j, In (y, j) ui -> nth j charge 0 = y) ->
  StronglySorted value_lt ui ->
  StronglySorted (fun j j' => nth j charge 0 < nth j' charge 0) (map snd ui).
Proof.
  intros Hval Hs. induction Hs as [|[y j] ui Hs IH Hall]; simpl; constructor.
  - apply IH. intros y' j' Hin. apply Hval. now right.
  - rewrite Forall_map. rewrite Forall_forall in Hall |- *.
    intros [y' j'] Hin. simpl.
    rewrite (Hval y j (or_introl eq_refl)), (Hval y' j' (or_intror Hin)).
    exact (Hall _ Hin).
Qed.

(** X4. [read_formation(filename, to_reduce=True)] on a file that reads
    back as three columns: the reduced result keeps whole rows of the file
    (the rows [picks]), the kept charges increase strictly, and every row
    of the file is represented by the first row carrying its charge. *)
Theorem read_formation_reduce_first_rows
    (lines : list string) (Efermi energy charge : list Q) (volume gx : Q) :
  read_formation (H := QFloat) lines false
  = Ok (Vector Efermi, Vector energy, Vector charge, volume, gx) ->
  exists picks : list nat,
    read_formation (H := QFloat) lines true
    = Ok (Vector (map (fun j => nth j Efermi 0) picks),
          Vector (map (fun j => nth j energy 0) picks),
          Vector (map (fun j => nth j charge 0) picks), volume, gx) /\
    Forall (fun j => (j < List.length charge)%nat) picks /\
    StronglySorted (fun j j' => nth j charge 0 < nth j' charge 0) picks /\
    forall j, (j < List.length charge)%nat ->
      exists j0, In j0 picks /\ (j0 <= j)%nat /\
                 nth j charge 0 == nth j0 charge 0.
Proof.
  unfold read_formation.
  destruct (read_header lines) as [vg|e]; cbn [bind]; [|discriminate].
  destruct (Numpy.loadtxt_unpack3 lines) as [cols|e] eqn:Hcols; cbn [bind];
    [|discriminate].
  intros [= -> <- <-].
  destruct (unpack3_lengths _ _ _ _ Hcols) as [HlenE Hlenen].
  destruct (unique_index_scanned charge) as (Hsorted & Hfirst & Hcover).
  set (ui := Numpy.unique_index (H := QFloat) charge) in *.
  assert (Hval : forall y j, In (y, j) ui -> nth j charge 0 = y).
  { intros y j Hin. apply nth_error_nth. now apply Hfirst. }
  assert (Hrange : Forall (fun j => (j < List.length charge)%nat)
                          (map snd ui)).
  { rewrite Forall_map, Forall_forall. intros [y j] Hin. simpl.
    apply nth_error_Some. destruct (Hfirst y j Hin) as [-> _]. discriminate. }
  exists (map snd ui). split; [|split; [exact Hrange|split]].
  - unfold reduce. fold ui.
    rewrite (take_in_range Efermi), (take_in_range energy);
      [|now rewrite Hlenen|now rewrite HlenE].
    cbn [bind].
    replace (map fst ui) with (map (fun j => nth j charge 0) (map snd ui));
      [reflexivity|].
    rewrite map_map. apply map_ext_in.
    intros [y j] Hin. simpl. now apply Hval.
  - now apply sorted_picks.
  - intros j Hj.
    destruct (nth_error charge j) as [x|] eqn:Hx;
      [|apply nth_error_None in Hx; lia].
    destruct (Hcover j x Hx) as (y & j0 & Hin & Heq).
    exists j0. split; [apply (in_map snd _ _ Hin)|]. split.
    + destruct (Nat.le_gt_cases j0 j) as [Hle|Hgt]; [exact Hle|].
      destruct (Hfirst y j0 Hin) as [_ Hbefore].
      now destruct (Hbefore j x Hgt Hx).
    + rewrite (nth_error_nth _ _ 0 Hx), (Hval y j0 Hin). exact Heq.
Qed.

(** What [read_formation] finds in a file written by [formation]: the
    header's numbers and the first three columns as printed. *)
Lemma read_header_formation (ipt : Formation.Input) (Volume : Q) :
  read_header (H := QFloat)
    (savetxt (table ipt) (header (valence ipt) Volume))
  = Ok (Text.rounded_4f Volume, 1).
Proof.
  unfold read_header.
  destruct (DefectFacts.header_line_fields (valence ipt) Volume)
    as (names & E).
  change (readline (savetxt (table ipt) (header (valence ipt) Volume)))
    with ("# " ++ header (valence ipt) Volume ++ newline)%string.
  rewrite E, DefectFacts.last_two_app. cbn [bind fst snd].
  unfold py_float at 1 2. cbn [float_of_string QFloat].
  rewrite TextFacts.decimal_of_format_4f.
  change (Text.decimal_of_token "1") with (Some 1). reflexivity.
Qed.

Lemma loadtxt_unpack3_formation (ipt : Formation.Input) (Volume : Q) :
  valence ipt <> [] ->
  List.length (valence ipt) = List.length (E0q ipt) ->
  Numpy.loadtxt_unpack3 (H := QFloat)
    (savetxt (table ipt) (header (valence ipt) Volume))
  = Ok (unpacked (map Text.rounded_4f (miu ipt)),
        unpacked (map Text.rounded_4f (Efmin ipt)),
        unpacked (map (fun Eq => Text.rounded_4f (hd 0 Eq)) (Eform ipt))).
Proof.
  intros Hv Hlen.
  assert (Hrow : forall mu,
            exists e0 Eq, Eform_row (valence ipt) (E0q ipt) mu = e0 :: Eq).
  { intro mu. pose proof (Eform_row_nonempty _ _ mu Hv Hlen) as Hne.
    destruct (Eform_row _ _ mu) as [|e0 Eq]; [congruence|].
    now exists e0, Eq. }
  unfold Numpy.loadtxt_unpack3.
  rewrite DefectFacts.data_fields_savetxt.
  2:{ unfold table. apply Forall_forall. intros row Hin.
      apply in_map_iff in Hin. destruct Hin as (mu & <- & _). discriminate. }
  unfold table. rewrite map_map.
  rewrite DefectFacts.map_result_map_ok
    with (g := fun mu =>
                 (Text.rounded_4f mu,
                  Text.rounded_4f
                    (row_min (Eform_row (valence ipt) (E0q ipt) mu)),
                  Text.rounded_4f
                    (hd 0 (Eform_row (valence ipt) (E0q ipt) mu)))).
  2:{ intros mu _. destruct (Hrow mu) as (e0 & Eq & ->).
      apply DefectFacts.fields012_formatted. }
  cbn [bind]. unfold Efmin, Eform.
  rewrite !map_map. rewrite !DefectFacts.unpacked_map.
  destruct (miu ipt) as [|mu [|mu' mus]]; reflexivity.
Qed.

(** X5. A table computed on a single-point grid ([npts = 1]) is written
    and read back, but [read_formation(..., to_reduce=True)] raises on it:
    [np.loadtxt] hands back 0-d arrays for a single data line, and those
    cannot be indexed by the index array of [np.unique]. *)
Theorem single_point_table_is_not_reducible
    (ipt : Formation.Input) (Volume : Q) :
  valence ipt <> [] ->
  List.length (valence ipt) = List.length (E0q ipt) ->
  npts ipt = 1%nat ->
  exists file,
    formation ipt Volume = Ok file /\
    read_formation (H := QFloat) file false
    = Ok (Scalar (Text.rounded_4f (emin ipt)),
          Scalar (Text.rounded_4f
                    (row_min (Eform_row (valence ipt) (E0q ipt) (emin ipt)))),
          Scalar (Text.rounded_4f
                    (hd 0 (Eform_row (valence ipt) (E0q ipt) (emin ipt)))),
          Text.rounded_4f Volume, 1) /\
    read_formation (H := QFloat) file true = Raise IndexError.
Proof.
  intros Hv Hlen Hn.
  assert (Hmiu : miu ipt = [emin ipt]) by (unfold miu; now rewrite Hn).
  exists (savetxt (table ipt) (header (valence ipt) Volume)).
  split; [unfold formation; now rewrite Hmiu|].
  unfold read_formation.
  rewrite read_header_formation, (loadtxt_unpack3_formation _ _ Hv Hlen).
  unfold Efmin, Eform. rewrite Hmiu. split; reflexivity.
Qed.

(** Charges [1; 0; 1; 0]: the reduction keeps rows of the file, one per
    charge. *)
Lemma read_formation_reduce_first_rows_witness :
  exists Efermi energy charge volume gx,
    read_formation (H := QFloat) repeated_charge_file false
    = Ok (Vector Efermi, Vector energy, Vector charge, volume, gx) /\
    List.length charge = 4%nat /\
    exists picks : list nat,
      read_formation (H := QFloat) repeated_charge_file true
      = Ok (Vector (map (fun j => nth j Efermi 0) picks),
            Vector (map (fun j => nth j energy 0) picks),
            Vector (map (fun j => nth j charge 0) picks), volume, gx) /\
      Forall (fun j => (j < List.length charge)%nat) picks /\
      StronglySorted (fun j j' => nth j charge 0 < nth j' charge 0) picks /\
      forall j, (j < List.length charge)%nat ->
        exists j0, In j0 picks /\ (j0 <= j)%nat /\
                   nth j charge 0 == nth j0 charge 0.
Proof.
  do 5 eexists. split; [vm_compute; reflexivity|]. split; [reflexivity|].
  apply (read_formation_reduce_first_rows repeated_charge_file).
  vm_compute. reflexivity.
Defined.

Lemma single_point_table_is_not_reducible_witness :
  exists file,
    formation single_point_input 50 = Ok file /\
    read_formation (H := QFloat) file true = Raise IndexError.
Proof.
  destruct (single_point_table_is_not_reducible single_point_input 50)
    as (file & Hfile & _ & Hreduce).
  - discriminate.
  - reflexivity.
  - reflexivity.
  - exists file. split; [exact Hfile|exact Hreduce].
Defined.

End ReduceFacts.

(** ** [read_H0]: the table it hands on *)

Module H0More.
Import Text Defect ReaderInputs.

Section Generic.
Context `{Float}.

(** Blank lines are skipped and conversion keeps the number of fields:
    no row of the numeric block is empty. *)
Lemma data_rows_nonempty (lines : list string) (rows : list (list float)) :
  map_result (map_result py_float) (Numpy.data_fields lines) = Ok rows ->
  Forall (fun row => row <> []) rows.
Proof.
  intro Hrows. apply DftFacts.map_result_Forall2 in Hrows.
  assert (Hne : Forall (fun toks : list string => toks <> [])
                       (Numpy.data_fields lines)).
  { unfold Numpy.data_fields. apply Forall_forall. intros toks Hin.
    apply filter_In in Hin. destruct Hin as [_ Hlen].
    destruct toks; [discriminate|congruence]. }
  induction Hrows as [|toks row tokss rows Hrow _ IH]; constructor.
  - inversion Hne as [|? ? Htoks _]; subst.
    apply DftFacts.map_result_Forall2, Forall2_length in Hrow.
    destruct toks; [congruence|]. destruct row; [discriminate|congruence].
  - apply IH. now inversion Hne.
Qed.

(** X6. A file whose numeric block has at least two rows of at least two
    columns each: [read_H0] returns a table of exactly three columns, row
    for row; charge and H0 are the first two fields of the line, and the
    third entry is the third field of the line where there is one, the
    [gx] of the header otherwise. *)
Theorem read_H0_three_columns (lines : list string) (volume gx : float)
  (rows : list (list float)) (c : nat) :
  read_header lines = Ok (volume, gx) ->
  map_result (map_result py_float) (Numpy.data_fields lines) = Ok rows ->
  (2 <= List.length rows)%nat -> (2 <= c)%nat ->
  Forall (fun row => List.length row = c) rows ->
  exists table,
    read_H0 lines = Ok (Matrix table, volume) /\
    Forall2 (fun row out =>
               List.length out = 3%nat /\
               firstn 2 out = firstn 2 row /\
               forall d, nth 2 out d = nth 2 row gx)
            rows table.
Proof.
  intros Hh Hrows Hr Hc HF.
  rewrite (H0Facts.read_H0_matrix lines volume gx rows c Hh Hrows Hr Hc HF).
  eexists. split; [reflexivity|]. clear Hh Hrows Hr.
  destruct (Nat.eqb_spec c 3) as [->|H3];
    [|destruct (Nat.eqb_spec c 2) as [->|H2]].
  - induction HF as [|row rows Hrow _ IH]; constructor; [|exact IH].
    destruct row as [|a [|b [|g [|? ?]]]]; try discriminate.
    split; [reflexivity|]. split; reflexivity.
  - induction HF as [|row rows Hrow _ IH]; constructor; [|exact IH].
    destruct row as [|a [|b [|? ?]]]; try discriminate.
    split; [reflexivity|]. split; reflexivity.
  - induction HF as [|row rows Hrow _ IH]; constructor; [|exact IH].
    destruct row as [|a [|b [|g rest]]]; try (simpl in Hrow; lia).
    split; [reflexivity|]. split; reflexivity.
Qed.

(** X7. A file with a single data line: [np.loadtxt] squeezes the block
    to a vector (a 0-d array for a single field), so the line comes back,
    as a vector, only when it has exactly three fields; two fields reach
    [np.pad] ([ValueError]), one field or more than three an index the
    array does not have ([IndexError]). *)
Theorem read_H0_single_row (lines : list string) (volume gx : float)
  (row : list float) :
  read_header lines = Ok (volume, gx) ->
  map_result (map_result py_float) (Numpy.data_fields lines) = Ok [row] ->
  read_H0 lines
  = if (List.length row =? 3)%nat then Ok (Vector row, volume)
    else if (List.length row =? 2)%nat then Raise ValueError
    else Raise IndexError.
Proof.
  intros Hh Hrows.
  pose proof (data_rows_nonempty _ _ Hrows) as Hne.
  inversion Hne as [|? ? Hrow _]; subst.
  unfold read_H0, Numpy.loadtxt. rewrite Hh, Hrows. cbn [bind fst snd].
  cbn [Numpy.same_width forallb Numpy.squeeze].
  destruct row as [|a [|b [|g [|h rest]]]]; try congruence; reflexivity.
Qed.

(** X8. A file with a header line and no data line: the empty array has
    zero columns, and [read_H0] raises the [RuntimeError] it keeps for
    tables without the charge and H0 columns. *)
Theorem read_H0_no_data (lines : list string) (volume gx : float) :
  read_header lines = Ok (volume, gx) ->
  Numpy.data_fields lines = [] ->
  read_H0 lines
  = Raise (RuntimeError "Charge and H0 columns must be included.").
Proof.
  intros Hh Hdata. unfold read_H0, Numpy.loadtxt.
  rewrite Hh, Hdata. reflexivity.
Qed.

End Generic.

Lemma read_H0_three_columns_witness :
  exists table,
    read_H0 (H := QFloat) three_column_file = Ok (Matrix table, 1000 # 10) /\
    Forall2 (fun row out =>
               List.length out = 3%nat /\
               firstn 2 out = firstn 2 row /\
               forall d, nth 2 out d = nth 2 row (4 # 1))
            [[0; 15 # 10; 2]; [1; 5 # 10; 1]; [2; 1 # 10; 3]]%Q table.
Proof.
  apply (read_H0_three_columns (H := QFloat) three_column_file
           (1000 # 10) (4 # 1)
           [[0; 15 # 10; 2]; [1; 5 # 10; 1]; [2; 1 # 10; 3]]%Q 3).
  - reflexivity.
  - reflexivity.
  - simpl. lia.
  - lia.
  - repeat constructor.
Defined.

Lemma read_H0_single_row_witness :
  read_H0 (H := QFloat) single_row_file = Raise ValueError.
Proof.
  apply (read_H0_single_row (H := QFloat) single_row_file
           (1000 # 10) (4 # 1) [0; 15 # 10]%Q).
  - reflexivity.
  - reflexivity.
Defined.

Lemma read_H0_no_data_witness :
  read_H0 (H := QFloat) header_only_file
  = Raise (RuntimeError "Charge and H0 columns must be included.").
Proof.
  apply (read_H0_no_data (H := QFloat) header_only_file (1000 # 10) (4 # 1)).
  - reflexivity.
  - reflexivity.
Defined.

End H0More.

(** ** [read_dos]: the reference energy and the lines read *)

Module DosMore.
Import Text Dft ReaderInputs.

Section Generic.
Context `{Float}.

(** The reference energy is subtracted at the very end of the treatment
    of a line: it decides neither whether the line is accepted nor the DOS
    value read. *)
Lemma dos_row_shift (fermi fermi' : float) (line : string) :
  match dos_row fermi line with
  | Ok ed =>
      exists x, ed = (fsub x fermi, snd ed) /\
                dos_row fermi' line = Ok (fsub x fermi', snd ed)
  | Raise e => dos_row fermi' line = Raise e
  end.
Proof.
  unfold dos_row. destruct (row_fields line) as [[|x [|d rest]]|err];
    cbn [bind getitem nth_error]; try reflexivity.
  now exists x.
Qed.

Lemma _read_dos_shift (sel : list string) (fermi fermi' : float) :
  match _read_dos sel fermi with
  | Ok (energy, dos) =>
      exists raw,
        energy = map (fun x => fsub x fermi) raw /\
        _read_dos sel fermi' = Ok (map (fun x => fsub x fermi') raw, dos)
  | Raise e => _read_dos sel fermi' = Raise e
  end.
Proof.
  induction sel as [|line rest IH]; [now exists []|].
  cbn [_read_dos]. destruct (startswith_hash line); [exact IH|].
  pose proof (dos_row_shift fermi fermi' line) as Hrow.
  destruct (dos_row fermi line) as [[e d]|err]; cbn [bind].
  - destruct Hrow as (x & [= ->] & ->). cbn [bind snd].
    destruct (_read_dos rest fermi) as [[energy dos]|err]; cbn [bind].
    + destruct IH as (raw & -> & ->). exists (x :: raw). now split.
    + now rewrite IH.
  - now rewrite Hrow.
Qed.

(** X9. The argument [efermi] of [read_dos] only moves the origin of the
    energies: with another reference the same lines are read, the DOS
    column is the same and the energies are the same numbers minus the
    other reference; a file that is refused is refused with the same
    exception whatever the reference. *)
Theorem read_dos_reference_only_shifts
    (data : list string) (efermi efermi' : float) :
  (forall energy dos,
     read_dos data efermi = Ok (energy, dos) ->
     exists raw,
       energy = map (fun x => fsub x efermi) raw /\
       read_dos data efermi' = Ok (map (fun x => fsub x efermi') raw, dos)) /\
  (forall e, read_dos data efermi = Raise e ->
             read_dos data efermi' = Raise e).
Proof.
  unfold read_dos. destruct (data_select data) as [sel|err]; cbn [bind].
  - pose proof (_read_dos_shift sel efermi efermi') as Hshift.
    destruct (_read_dos sel efermi) as [[energy0 dos0]|err].
    + split; [|discriminate]. now intros energy dos [= <- <-].
    + split; [discriminate|]. now intros e [= <-].
  - split; [discriminate|]. now intros e [= <-].
Qed.

Lemma isDOSCAR_header (head rest : list string) :
  List.length head = 6%nat -> isDOSCAR (head ++ rest) = isDOSCAR head.
Proof.
  intro Hlen. unfold isDOSCAR.
  rewrite firstn_app, Hlen, Nat.sub_diag, firstn_O, app_nil_r.
  reflexivity.
Qed.

(** X10. In a DOSCAR (six header lines, the sixth giving [NEDOS] as its
    third field) [read_dos] reads exactly the [NEDOS] lines that follow
    the header: neither the header nor anything after the block is looked
    at; and when fewer than [NEDOS] lines follow, the ones there are read
    and nothing is reported. *)
Theorem read_dos_reads_the_announced_block
    (head : list string) (line tok : string) (NEDOS : nat) (efermi : float) :
  List.length head = 6%nat ->
  isDOSCAR head = Ok true ->
  nth_error head 5 = Some line ->
  nth_error (split line) 2 = Some tok ->
  int_of_string tok = Some (Z.of_nat NEDOS) ->
  (forall block tail,
     List.length block = NEDOS ->
     read_dos (head ++ block ++ tail) efermi = _read_dos block efermi) /\
  (forall rest,
     (List.length rest <= NEDOS)%nat ->
     read_dos (head ++ rest) efermi = _read_dos rest efermi).
Proof.
  intros Hlen Hdos H5 H2 Hint.
  assert (Hread : forall rest,
            read_dos (head ++ rest) efermi
            = _read_dos (firstn NEDOS rest) efermi).
  { intro rest.
    rewrite (DftFacts.read_dos_doscar (head ++ rest) efermi line tok
               (Z.of_nat NEDOS)).
    - rewrite Nat2Z.id, skipn_app, Hlen, Nat.sub_diag.
      rewrite skipn_all2 by lia. reflexivity.
    - now rewrite isDOSCAR_header.
    - rewrite nth_error_app1 by lia. exact H5.
    - exact H2.
    - exact Hint.
    - lia. }
  split.
  - intros block tail Hblock. rewrite Hread, firstn_app, Hblock.
    rewrite Nat.sub_diag, firstn_O, app_nil_r.
    now rewrite firstn_all2 by lia.
  - intros rest Hrest. rewrite Hread. now rewrite firstn_all2 by lia.
Qed.

End Generic.

Lemma read_dos_reference_only_shifts_witness :
  exists raw,
    [(30 # 10) - (5 # 10); (20 # 10) - (5 # 10);
     (10 # 10) - (5 # 10); (0 # 10) - (5 # 10)]%Q
    = map (fun x => x - (5 # 10))%Q raw /\
    read_dos (H := QFloat) unordered_file 1
    = Ok (map (fun x => x - 1)%Q raw,
          [10 # 10; 15 # 10; 20 # 10; 25 # 10]%Q).
Proof.
  apply (proj1 (read_dos_reference_only_shifts (H := QFloat)
                  unordered_file (5 # 10) 1)).
  reflexivity.
Defined.

Lemma read_dos_reads_the_announced_block_witness :
  read_dos (H := QFloat) (doscar_header ++ doscar_block ++ doscar_tail) 0
  = Ok ([(-50 # 10) - 0; (100 # 10) - 0]%Q, [0 # 10; 15 # 10]%Q) /\
  read_dos (H := QFloat) (doscar_header ++ firstn 1 doscar_block) 0
  = Ok ([(-50 # 10) - 0]%Q, [0 # 10]%Q).
Proof.
  destruct (read_dos_reads_the_announced_block (H := QFloat)
              doscar_header
              ("     10.0  -5.0  2  4.5  1.0" ++ Text.lf)%string "2"%string
              2%nat 0%Q)
    as [Hblock Hshort]; try reflexivity.
  split.
  - rewrite Hblock by reflexivity. reflexivity.
  - rewrite Hshort by (simpl; lia). reflexivity.
Defined.

End DosMore.

(** ** The Fermi levels scanned by [equi] *)

Module GridFacts.
Import Formation CliMore.

Local Open Scope Q_scope.




End GridFacts.

(** ** [InputList.check] *)

Module CheckFacts.
Import Text InputList.
Import Stdlib.Sorting.Permutation.

Local Open Scope Z_scope.

Lemma insert_sorted_perm (p : Z * string) (l : list (Z * string)) :
  Permutation (insert_sorted p l) (p :: l).
Proof.
  induction l as [|q l IH]; simpl; [reflexivity|].
  destruct (fst p <=? fst q); [reflexivity|].
  rewrite IH. apply perm_swap.
Qed.

Lemma sorted_by_valence_perm (l : list (Z * string)) :
  Permutation (sorted_by_valence l) l.
Proof.
  induction l as [|p l IH]; simpl; [reflexivity|].
  rewrite insert_sorted_perm. now constructor.
Qed.

Lemma insert_sorted_sorted (p : Z * string) (l : list (Z * string)) :
  StronglySorted (fun a b => fst a <= fst b) l ->
  StronglySorted (fun a b => fst a <= fst b) (insert_sorted p l).
Proof.
  induction 1 as [|q l Hs IH Hall]; simpl; [repeat constructor|].
  destruct (Z.leb_spec (fst p) (fst q)) as [Hle|Hgt].
  - constructor; [now constructor|]. constructor; [exact Hle|].
    eapply Forall_impl; [|exact Hall]. intros a Ha. simpl in *. lia.
  - constructor; [exact IH|].
    rewrite (insert_sorted_perm p l).
    constructor; [lia|exact Hall].
Qed.

Lemma sorted_by_valence_sorted (l : list (Z * string)) :
  StronglySorted (fun a b => fst a <= fst b) (sorted_by_valence l).
Proof.
  induction l as [|p l IH]; simpl; [constructor|].
  now apply insert_sorted_sorted.
Qed.

(** Sorting leaves a sorted list of pairs as it is. *)
Lemma sorted_by_valence_fixed (l : list (Z * string)) :
  StronglySorted (fun a b => fst a <= fst b) l -> sorted_by_valence l = l.
Proof.
  induction 1 as [|p l Hs IH Hall]; simpl; [reflexivity|]. rewrite IH.
  destruct l as [|q l]; [reflexivity|]. simpl.
  inversion Hall as [|? ? Hpq _]; subst.
  now destruct (Z.leb_spec (fst p) (fst q)); [|lia].
Qed.

Lemma combine_fst_snd (dd : list (Z * string)) :
  combine (map fst dd) (map snd dd) = dd.
Proof. induction dd as [|[v n] dd IH]; simpl; congruence. Qed.

Lemma sorted_map_fst (dd : list (Z * string)) :
  StronglySorted (fun a b => fst a <= fst b) dd ->
  StronglySorted Z.le (map fst dd).
Proof.
  induction 1 as [|p l Hs IH Hall]; simpl; constructor; [exact IH|].
  now rewrite Forall_map.
Qed.

Lemma auto_pairs (prefix : string) (valence : list Z) (v : Z) (n : string) :
  In (v, n) (combine valence (map (auto_name prefix) valence)) ->
  n = auto_name prefix v.
Proof.
  induction valence as [|w valence IH]; intro Hin; [destruct Hin|].
  destruct Hin as [[= <- <-]|Hin]; [reflexivity|now apply IH].
Qed.

Lemma map_fst_combine_map {A B : Type} (f : A -> B) (l : list A) :
  map fst (combine l (map f l)) = l.
Proof. induction l as [|a l IH]; simpl; congruence. Qed.

(** X12. [check] fails with [ValueError] exactly when there is no valence
    or no name to pair.  Otherwise the new [valence] is in non-decreasing
    order, the new pairs (valence, directory) are the old ones in another
    order, cut at the shorter of the two lists, and with ['auto'] every
    valence carries the name made from it. *)
Theorem check_sorts_the_pairs
    (valence : list Z) (ddname : Ddname) (prefix : string) :
  let names := names_of valence ddname prefix in
  (check valence ddname prefix = Raise ValueError <->
   valence = [] \/ names = []) /\
  forall vs ns,
    check valence ddname prefix = Ok (vs, ns) ->
    List.length vs = Nat.min (List.length valence) (List.length names) /\
    List.length ns = List.length vs /\
    StronglySorted Z.le vs /\
    Permutation (combine vs ns) (combine valence names) /\
    (ddname = Auto -> ns = map (auto_name prefix) vs).
Proof.
  intro names. unfold check. fold names.
  pose proof (sorted_by_valence_perm (combine valence names)) as Hperm.
  pose proof (sorted_by_valence_sorted (combine valence names)) as Hsorted.
  destruct (sorted_by_valence (combine valence names)) as [|p dd] eqn:E.
  - apply Permutation_nil in Hperm. split.
    + split; [intros _|reflexivity].
      destruct valence; [now left|]. destruct names; [now right|].
      discriminate.
    + discriminate.
  - split.
    + split; [discriminate|].
      intros [->| Hn]; [|rewrite Hn in Hperm; destruct valence];
        simpl in Hperm; symmetry in Hperm;
        now apply Permutation_nil in Hperm.
    + intros vs ns [= <- <-].
      change (fst p :: map fst dd) with (map fst (p :: dd)).
      change (snd p :: map snd dd) with (map snd (p :: dd)).
      split; [|split; [|split; [|split]]].
      * rewrite length_map, (Permutation_length Hperm).
        apply length_combine.
      * now rewrite !length_map.
      * now apply sorted_map_fst.
      * now rewrite combine_fst_snd.
      * intros ->. subst names. cbn [names_of] in Hperm.
        rewrite map_map. apply map_ext_in. intros [v n] Hin.
        apply (Permutation_in _ Hperm) in Hin.
        now apply auto_pairs in Hin.
Qed.

Lemma append_inj (p a b : string) :
  (p ++ a)%string = (p ++ b)%string -> a = b.
Proof. induction p as [|c p IH]; simpl; [auto|]. intros [= E]. auto. Qed.

Lemma string_of_N_inj (m n : N) : string_of_N m = string_of_N n -> m = n.
Proof.
  intro E. destruct (TextFacts.string_of_N_spec m) as (_ & _ & Hm).
  destruct (TextFacts.string_of_N_spec n) as (_ & _ & Hn).
  rewrite E in Hm. congruence.
Qed.

Lemma string_of_N_head (n : N) :
  exists c s, string_of_N n = String c s /\ is_digit c = true.
Proof.
  destruct (TextFacts.string_of_N_spec n) as (Hlen & Hdig & _).
  destruct (string_of_N n) as [|c s]; [now destruct Hlen|].
  exists c, s. split; [reflexivity|].
  simpl in Hdig. now apply andb_true_iff in Hdig.
Qed.

(** The names of different charges differ. *)
Lemma auto_name_inj (prefix : string) (v w : Z) :
  auto_name prefix v = auto_name prefix w -> v = w.
Proof.
  unfold auto_name, format_plus_d. intro E.
  destruct (Z.eqb_spec v 0) as [Hv|Hv]; destruct (Z.eqb_spec w 0) as [Hw|Hw];
    [congruence| | |]; apply append_inj in E.
  - destruct (w <? 0); discriminate.
  - destruct (v <? 0); discriminate.
  - destruct (Z.ltb_spec v 0); destruct (Z.ltb_spec w 0); try discriminate;
      injection E as E; apply string_of_N_inj in E; lia.
Qed.

Lemma NoDup_map_auto_name (prefix : string) (l : list Z) :
  NoDup l -> NoDup (map (auto_name prefix) l).
Proof.
  induction 1 as [|v l Hv Hl IH]; simpl; constructor; [|exact IH].
  intro Hin. apply in_map_iff in Hin. destruct Hin as (w & E & Hw).
  apply auto_name_inj in E. now subst.
Qed.

(** X13. With ['auto'], charge states of different valence get
    different directories: a list of valences without repetition gives a
    list of names without repetition. *)
Theorem check_auto_names_distinct
    (valence : list Z) (prefix : string) (vs : list Z) (ns : list string) :
  NoDup valence ->
  check valence Auto prefix = Ok (vs, ns) ->
  NoDup ns.
Proof.
  intros Hnodup. unfold check. cbn [names_of].
  pose proof (sorted_by_valence_perm
                (combine valence (map (auto_name prefix) valence))) as Hperm.
  destruct (sorted_by_valence _) as [|p dd]; [discriminate|].
  intros [= <- <-].
  assert (Hns : map snd (p :: dd) = map (auto_name prefix) (map fst (p :: dd))).
  { rewrite map_map. apply map_ext_in. intros [v n] Hin.
    apply (Permutation_in _ Hperm) in Hin. now apply auto_pairs in Hin. }
  change (snd p :: map snd dd) with (map snd (p :: dd)). rewrite Hns.
  apply NoDup_map_auto_name.
  apply (Permutation_NoDup (l := valence)); [|exact Hnodup].
  rewrite <- (map_fst_combine_map (auto_name prefix) valence) at 1.
  symmetry. now apply Permutation_map.
Qed.

(** X14. [check] can be run again (as [set_default] does on every call):
    applied to the valences and names it has produced, it returns them
    unchanged. *)
Theorem check_again_changes_nothing
    (valence : list Z) (ddname : Ddname) (prefix prefix' : string)
    (vs : list Z) (ns : list string) :
  check valence ddname prefix = Ok (vs, ns) ->
  check vs (Names ns) prefix' = Ok (vs, ns).
Proof.
  unfold check.
  pose proof (sorted_by_valence_sorted
                (combine valence (names_of valence ddname prefix))) as Hs.
  destruct (sorted_by_valence _) as [|p dd]; [discriminate|].
  intros [= <- <-]. cbn [names_of].
  change (fst p :: map fst dd) with (map fst (p :: dd)).
  change (snd p :: map snd dd) with (map snd (p :: dd)).
  rewrite combine_fst_snd, (sorted_by_valence_fixed _ Hs). reflexivity.
Qed.

Lemma check_sorts_the_pairs_witness :
  exists vs ns,
    check [1; -1; 0] Auto "charge_" = Ok (vs, ns) /\
    StronglySorted Z.le vs /\
    ns = map (auto_name "charge_") vs.
Proof.
  eexists. eexists. split; [reflexivity|].
  destruct (check_sorts_the_pairs [1; -1; 0] Auto "charge_") as [_ Hok].
  destruct (Hok _ _ eq_refl) as (_ & _ & Hsorted & _ & Hauto).
  split; [exact Hsorted|exact (Hauto eq_refl)].
Defined.

Lemma check_auto_names_distinct_witness :
  exists vs ns,
    check [1; -1; 0] Auto "charge_" = Ok (vs, ns) /\ NoDup ns.
Proof.
  exists [-1; 0; 1], ["charge_-1"; "charge_0"; "charge_+1"]%string.
  split; [reflexivity|].
  apply (check_auto_names_distinct [1; -1; 0] "charge_" [-1; 0; 1]).
  - repeat constructor; simpl; intuition discriminate.
  - reflexivity.
Defined.

Lemma check_again_changes_nothing_witness :
  check [-1; 0; 1] (Names ["charge_-1"; "charge_0"; "charge_+1"]%string) ""
  = Ok ([-1; 0; 1], ["charge_-1"; "charge_0"; "charge_+1"]%string).
Proof.
  apply (check_again_changes_nothing [1; -1; 0] Auto "charge_" "").
  reflexivity.
Defined.

End CheckFacts.

(** ** The summary of [formation] *)

Module SummaryFacts.
Import Summary.

Local Open Scope Q_scope.

Lemma nth_zip3 {B : Type} (f : Z * Q * Q -> B) (d : B)
    (qs : list Z) (xs ys : list Q) (i : nat) :
  (i < List.length (combine (combine qs xs) ys))%nat ->
  nth i (map f (combine (combine qs xs) ys)) d
  = f (nth i qs 1%Z, nth i xs 0, nth i ys 0).
Proof.
  revert xs ys i.
  induction qs as [|q qs IH]; intros [|x xs] [|y ys] i Hi;
    try (simpl in Hi; lia).
  destruct i as [|i]; [reflexivity|]. simpl in *. apply IH. lia.
Qed.


(** X16. When the summary is reached, the energy [E0] of a neutral
    state ([q = 0]) is the energy difference to the perfect cell plus the
    chemical potential change: the valence band maximum, the image-charge
    correction and the potential alignment do not enter it. *)
Theorem neutral_state_energy (cmpot : list Q) (ewald epsilon : setting)
    (Evbm Eperfect pot1 : Q) (valence : list Z) (Edefect pot2 : list Q)
    (E0q : list Q) :
  summary cmpot ewald epsilon Evbm Eperfect pot1 valence Edefect pot2
  = Done E0q ->
  exists Dcm,
    chemical_potential cmpot = Some Dcm /\
    forall i, (i < List.length E0q)%nat -> nth i valence 1%Z = 0%Z ->
              nth i E0q 0 == nth i Edefect 0 - Eperfect + Dcm.
Proof.
  unfold summary.
  destruct (image_charge ewald epsilon) as [Eic_q2|err]; cbn [and_then];
    [|discriminate].
  destruct (chemical_potential cmpot) as [Dcm|]; [|discriminate].
  intros [= <-]. exists Dcm. split; [reflexivity|].
  intros i Hi Hq. rewrite length_map in Hi.
  rewrite nth_zip3 by exact Hi. rewrite Hq. unfold E0_of.
  change (inject_Z 0) with 0. change (inject_Z (0 ^ 2)) with 0. ring.
Qed.


Lemma neutral_state_energy_witness :
  exists E0q Dcm,
    summary [1; 3] (Given 2) (Given 10) 5 100 7 [-1; 0]%Z [98; 99] [8; 9]
    = Done E0q /\
    chemical_potential [1; 3] = Some Dcm /\
    nth 1 E0q 0 == 99 - 100 + Dcm.
Proof.
  eexists.
  destruct (neutral_state_energy [1; 3] (Given 2) (Given 10) 5 100 7
              [-1; 0]%Z [98; 99] [8; 9] _ eq_refl) as (Dcm & HD & Hq).
  exists Dcm. split; [reflexivity|]. split; [exact HD|].
  apply (Hq 1%nat); [simpl; lia|reflexivity].
Defined.

End SummaryFacts.

(** ** [Cell.uniquepos] and [Cell.replace] *)

Module CellFacts.
Import Cell.
Import Stdlib.Sorting.Permutation.

(** *** The dictionary *)

Lemma contains_In (d : OrderedDict) (k : string) :
  contains d k = true <-> In k (map fst d).
Proof.
  unfold contains. rewrite existsb_exists. split.
  - intros (kv & Hin & E). apply String.eqb_eq in E. subst.
    now apply in_map.
  - intro Hin. apply in_map_iff in Hin. destruct Hin as (kv & <- & Hin).
    exists kv. split; [exact Hin|apply String.eqb_refl].
Qed.

(** The first loop: the symbols in the order of their first occurrence,
    each with an empty list. *)
Lemma add_keys_spec (l : list string) (d : OrderedDict) :
  NoDup (map fst d) -> Forall (fun kv => snd kv = []) d ->
  NoDup (map fst (fold_left add_key l d)) /\
  Forall (fun kv => snd kv = []) (fold_left add_key l d) /\
  forall k, In k (map fst (fold_left add_key l d))
            <-> In k (map fst d) \/ In k l.
Proof.
  revert d. induction l as [|a l IH]; intros d Hnd Hempty; simpl.
  - split; [exact Hnd|]. split; [exact Hempty|]. intro k. tauto.
  - unfold add_key at 2 4 6. destruct (contains d a) eqn:E.
    + destruct (IH d Hnd Hempty) as (H1 & H2 & H3).
      split; [exact H1|]. split; [exact H2|]. intro k. rewrite H3.
      apply contains_In in E. split; [tauto|].
      intros [Hk|[<-|Hk]]; tauto.
    + assert (Ha : ~ In a (map fst d)).
      { intro Hin. apply contains_In in Hin. congruence. }
      destruct (IH (d ++ [(a, [])])) as (H1 & H2 & H3).
      * rewrite map_app. simpl.
        apply NoDup_app; [exact Hnd|repeat constructor; auto|].
        intros x Hx [<-|[]]. contradiction.
      * apply Forall_app. split; [exact Hempty|now repeat constructor].
      * split; [exact H1|]. split; [exact H2|]. intro k. rewrite H3.
        rewrite map_app, in_app_iff. simpl. tauto.
Qed.

Lemma lookup_empty (d : OrderedDict) (k : string) :
  Forall (fun kv => snd kv = []) d -> lookup d k = [].
Proof.
  induction 1 as [|[k' l] d Hl _ IH]; simpl; [reflexivity|].
  simpl in Hl. subst. now destruct (String.eqb k k').
Qed.

Lemma append_to_spec (d : OrderedDict) (atom : string) (i : nat) :
  In atom (map fst d) ->
  exists d',
    append_to d atom i = Done d' /\
    map fst d' = map fst d /\
    forall k, lookup d' k
              = if String.eqb k atom then lookup d k ++ [i] else lookup d k.
Proof.
  induction d as [|[k l] d IH]; simpl; intro Hin; [destruct Hin|].
  destruct (String.eqb_spec atom k) as [->|Hne].
  - eexists. split; [reflexivity|]. split; [reflexivity|].
    intro k'. simpl. now destruct (String.eqb_spec k' k).
  - destruct Hin as [E|Hin]; [congruence|].
    destruct (IH Hin) as (d' & -> & Hk & Hl). cbn [and_then].
    eexists. split; [reflexivity|]. split; [simpl; congruence|].
    intro k'. simpl. destruct (String.eqb_spec k' k) as [->|_].
    + destruct (String.eqb_spec k atom); [congruence|reflexivity].
    + apply Hl.
Qed.

Lemma append_run (l : list nat) (d : OrderedDict) (atom : string) :
  In atom (map fst d) ->
  exists d',
    fold_left (fun d i => and_then d (fun d => append_to d atom i)) l (Done d)
    = Done d' /\
    map fst d' = map fst d /\
    forall k, lookup d' k
              = if String.eqb k atom then lookup d k ++ l else lookup d k.
Proof.
  revert d. induction l as [|i l IH]; intros d Hin; simpl.
  - exists d. split; [reflexivity|]. split; [reflexivity|]. intro k.
    destruct (String.eqb k atom); [now rewrite app_nil_r|reflexivity].
  - destruct (append_to_spec d atom i Hin) as (d1 & -> & Hk1 & Hl1).
    destruct (IH d1) as (d' & -> & Hk & Hl); [now rewrite Hk1|].
    exists d'. split; [reflexivity|]. split; [congruence|]. intro k.
    rewrite Hl, Hl1.
    destruct (String.eqb k atom); [now rewrite <- app_assoc|reflexivity].
Qed.

Lemma filter_pairs (k atom : string) (l : list nat) :
  filter (fun p : string * nat => String.eqb k (fst p)) (map (pair atom) l)
  = if String.eqb k atom then map (pair atom) l else [].
Proof.
  induction l as [|i l IH]; simpl; [now destruct (String.eqb k atom)|].
  rewrite IH. now destruct (String.eqb k atom).
Qed.

Lemma map_snd_pairs (atom : string) (l : list nat) :
  map snd (map (pair atom) l) = l.
Proof. rewrite map_map. simpl. apply map_id. Qed.

(** The second loop: every key gets, in order, the positions handed out
    to its symbol. *)
Lemma fill_all (pairs : list (Z * string)) (d : OrderedDict) (pidx : nat) :
  (forall p, In p pairs -> In (snd p) (map fst d)) ->
  exists d',
    fold_left fill pairs (Done (d, pidx))
    = Done (d', (pidx + List.length (assigned pairs pidx))%nat) /\
    map fst d' = map fst d /\
    forall k, lookup d' k
              = lookup d k
                  ++ map snd (filter (fun p => String.eqb k (fst p))
                                     (assigned pairs pidx)).
Proof.
  revert d pidx. induction pairs as [|[num atom] pairs IH];
    intros d pidx Hkeys; simpl.
  - exists d. rewrite Nat.add_0_r. split; [reflexivity|].
    split; [reflexivity|]. intro k. now rewrite app_nil_r.
  - destruct (append_run (seq pidx (Z.to_nat num)) d atom)
      as (d1 & -> & Hk1 & Hl1); [apply (Hkeys (num, atom)); now left|].
    cbn [and_then].
    destruct (IH d1 (pidx + Z.to_nat num)%nat) as (d' & -> & Hk & Hl).
    { intros p Hp. rewrite Hk1. apply Hkeys. now right. }
    exists d'. split.
    + do 2 f_equal. rewrite length_app, length_map, length_seq. lia.
    + split; [congruence|]. intro k. rewrite Hl, Hl1.
      rewrite filter_app, map_app, filter_pairs.
      destruct (String.eqb k atom).
      * now rewrite map_snd_pairs, app_assoc.
      * reflexivity.
Qed.

Lemma dict_as_map (d : OrderedDict) :
  NoDup (map fst d) -> d = map (fun k => (k, lookup d k)) (map fst d).
Proof.
  induction d as [|[k l] d IH]; simpl; intro Hnd; [reflexivity|].
  inversion Hnd as [|? ? Hk Hd]; subst. rewrite String.eqb_refl. f_equal.
  rewrite IH at 1 by exact Hd. apply map_ext_in. intros k' Hk'.
  destruct (String.eqb_spec k' k) as [->|_]; [contradiction|reflexivity].
Qed.

(** *** Lists *)

Lemma map_flat_map {A B C : Type} (f : B -> C) (g : A -> list B)
    (l : list A) :
  map f (flat_map g l) = flat_map (fun x => map f (g x)) l.
Proof.
  induction l as [|x l IH]; simpl; [reflexivity|].
  now rewrite map_app, IH.
Qed.

Lemma filter_fst_repeat (k : string) (A : list (string * nat)) :
  map fst (filter (fun p => String.eqb k (fst p)) A)
  = repeat k (List.length (filter (fun p => String.eqb k (fst p)) A)).
Proof.
  induction A as [|[a i] A IH]; simpl; [reflexivity|].
  destruct (String.eqb_spec k a) as [->|_]; simpl; [f_equal|]; exact IH.
Qed.

Lemma split_filter {A : Type} (f g : A -> bool) (l : list A) :
  (forall x, f x = true -> g x = false) ->
  Permutation (filter f l ++ filter g l) (filter (fun x => f x || g x) l).
Proof.
  intro Hfg. induction l as [|a l IH]; simpl; [constructor|].
  destruct (f a) eqn:Ef.
  - rewrite (Hfg a Ef). simpl. now constructor.
  - destruct (g a); simpl; [|exact IH].
    rewrite <- Permutation_middle. now constructor.
Qed.

Lemma filter_none {A : Type} (l : list A) : filter (fun _ => false) l = [].
Proof. induction l; simpl; auto. Qed.

Lemma filter_all {A : Type} (f : A -> bool) (l : list A) :
  (forall x, In x l -> f x = true) -> filter f l = l.
Proof.
  induction l as [|a l IH]; intro Hf; simpl; [reflexivity|].
  rewrite (Hf a) by now left. f_equal. apply IH. intros x Hx. apply Hf.
  now right.
Qed.

(** Grouping by keys without repetition loses and repeats nothing. *)
Lemma group_perm (keys : list string) (A : list (string * nat)) :
  NoDup keys ->
  Permutation
    (flat_map (fun k => filter (fun p => String.eqb k (fst p)) A) keys)
    (filter (fun p => existsb (fun k => String.eqb k (fst p)) keys) A).
Proof.
  induction 1 as [|k ks Hk Hnd IH]; simpl; [now rewrite filter_none|].
  rewrite IH. apply split_filter. intros p E. apply String.eqb_eq in E.
  destruct (existsb _ ks) eqn:Ex; [|reflexivity].
  apply existsb_exists in Ex. destruct Ex as (k' & Hin & E').
  apply String.eqb_eq in E'. subst. contradiction.
Qed.

Lemma map_const_seq {A : Type} (a : A) (start n : nat) :
  map (fun _ => a) (seq start n) = repeat a n.
Proof.
  revert start. induction n as [|n IH]; intro start; simpl; [reflexivity|].
  now rewrite IH.
Qed.

Lemma assigned_fst (pairs : list (Z * string)) (pidx : nat) :
  map fst (assigned pairs pidx)
  = flat_map (fun ns => repeat (snd ns) (Z.to_nat (fst ns))) pairs.
Proof.
  revert pidx. induction pairs as [|[num atom] pairs IH]; intro pidx; simpl;
    [reflexivity|].
  rewrite map_app, IH. f_equal. rewrite map_map. simpl.
  apply map_const_seq.
Qed.

Lemma assigned_snd (pairs : list (Z * string)) (pidx : nat) :
  map snd (assigned pairs pidx)
  = seq pidx (List.length (assigned pairs pidx)).
Proof.
  revert pidx. induction pairs as [|[num atom] pairs IH]; intro pidx; simpl;
    [reflexivity|].
  rewrite map_app, map_snd_pairs, IH, length_app, length_map, length_seq.
  now rewrite seq_app.
Qed.

Lemma assigned_keys (pairs : list (Z * string)) (pidx : nat)
    (p : string * nat) :
  In p (assigned pairs pidx) -> exists num, In (num, fst p) pairs.
Proof.
  revert pidx. induction pairs as [|[num atom] pairs IH]; intro pidx; simpl;
    [intros []|].
  rewrite in_app_iff. intros [Hin|Hin].
  - apply in_map_iff in Hin. destruct Hin as (i & <- & _).
    exists num. now left.
  - destruct (IH _ Hin) as (num' & Hin'). exists num'. now right.
Qed.

Lemma length_assigned (number : list Z) (types : list string) (pidx : nat) :
  List.length (assigned (combine number types) pidx)
  = List.length (species number types).
Proof.
  unfold species. rewrite <- (assigned_fst _ pidx). now rewrite length_map.
Qed.

Lemma map_nth_seq {A : Type} (l : list A) (d : A) (n : nat) :
  (n <= List.length l)%nat ->
  map (fun i => nth i l d) (seq 0 n) = firstn n l.
Proof.
  revert n. induction l as [|a l IH]; intros [|n] Hn; simpl in *;
    try reflexivity; try lia.
  f_equal. rewrite <- seq_shift, map_map. apply IH. lia.
Qed.

Lemma combine_firstn {A B : Type} (l : list A) (l' : list B) :
  combine l (firstn (List.length l) l') = combine l l'.
Proof.
  revert l'. induction l as [|a l IH]; intros [|b l']; simpl;
    try reflexivity.
  f_equal. apply IH.
Qed.

Lemma combine_fst_snd_map {A B C : Type} (f : B -> C) (g : list (A * B)) :
  combine (map fst g) (map f (map snd g))
  = map (fun p => (fst p, f (snd p))) g.
Proof. induction g as [|[a b] g IH]; simpl; congruence. Qed.

Lemma map_result_getitem {A : Type} (l : list A) (d : A)
    (idxs : list nat) (out : list A) :
  map_result (getitem l) idxs = Ok out <->
  Forall (fun i => (i < List.length l)%nat) idxs /\
  out = map (fun i => nth i l d) idxs.
Proof.
  revert out. induction idxs as [|i idxs IH]; intro out; simpl.
  - split; [intros [= <-]; now split|intros [_ ->]; reflexivity].
  - unfold getitem at 1. destruct (nth_error l i) as [a|] eqn:E.
    + destruct (map_result (getitem l) idxs) as [ys|e].
      * destruct (IH ys) as [IH1 _]. destruct (IH1 eq_refl) as [HF ->].
        rewrite (nth_error_nth _ _ d E). split.
        -- intros [= <-]. split; [|reflexivity]. constructor; [|exact HF].
           apply nth_error_Some. congruence.
        -- now intros [_ ->].
      * split; [discriminate|]. intros [HF ->]. inversion HF; subst.
        destruct (IH (map (fun i => nth i l d) idxs)) as [_ IH2].
        discriminate IH2. now split.
    + split; [discriminate|]. intros [HF _]. inversion HF; subst.
      apply nth_error_None in E. lia.
Qed.

Lemma map_result_getitem_raise {A : Type} (l : list A)
    (idxs : list nat) (e : PyExn) :
  map_result (getitem l) idxs = Raise e -> e = IndexError.
Proof.
  induction idxs as [|i idxs IH]; simpl; [discriminate|].
  unfold getitem at 1. destruct (nth_error l i); [|now intros [= <-]].
  destruct (map_result (getitem l) idxs); [discriminate|].
  intros [= <-]. now apply IH.
Qed.

Lemma symbols_map (f : string -> nat) (keys : list string) :
  symbols (map f keys) keys = flat_map (fun k => repeat k (f k)) keys.
Proof.
  unfold symbols. induction keys as [|k keys IH]; simpl; [reflexivity|].
  now rewrite IH.
Qed.

Lemma species_of_nat (number : list nat) (types : list string) :
  species (map Z.of_nat number) types = symbols number types.
Proof.
  unfold species, symbols. revert types.
  induction number as [|n number IH]; intros [|t types]; simpl;
    try reflexivity.
  now rewrite Nat2Z.id, IH.
Qed.

(** *** [uniquepos] *)

(** What [uniquepos] computes, in terms of the positions handed out:
    the keys are the symbols without repetition, and the positions are
    gathered key by key. *)
Lemma uniquepos_grouped (c : Cell) :
  exists (keys : list string) (grouped : list (string * nat)),
    keys = map fst (fold_left add_key (atom_type c) []) /\
    NoDup keys /\
    (forall k, In k keys <-> In k (atom_type c)) /\
    grouped
    = flat_map (fun k => filter (fun p => String.eqb k (fst p))
                  (assigned (combine (atom_num c) (atom_type c)) 0)) keys /\
    Permutation grouped (assigned (combine (atom_num c) (atom_type c)) 0) /\
    uniquepos c
    = and_then (lift (map_result (getitem (sites c)) (map snd grouped)))
        (fun sites' =>
           let number2 :=
             map (fun k => List.length
                    (filter (fun p : string * nat => String.eqb k (fst p))
                       (assigned (combine (atom_num c) (atom_type c)) 0)))
                 keys in
           Done {| basis := basis c;
                   sites := sites';
                   atoms := map fst grouped;
                   labels := numbered number2 keys;
                   atom_type := keys;
                   atom_num := map Z.of_nat number2 |}).
Proof.
  set (A := assigned (combine (atom_num c) (atom_type c)) 0).
  destruct (add_keys_spec (atom_type c) []) as (Hnd & Hempty & Hin);
    [constructor|constructor|].
  set (d0 := fold_left add_key (atom_type c) []) in *.
  destruct (fill_all (combine (atom_num c) (atom_type c)) d0 0)
    as (d' & Hfold & Hk & Hl).
  { intros [num atom] Hp. apply Hin. right. simpl.
    now apply in_combine_r in Hp. }
  fold A in Hfold, Hl.
  set (P := fun k => filter (fun p : string * nat => String.eqb k (fst p)) A).
  assert (Hd : d' = map (fun k => (k, map snd (P k))) (map fst d0)).
  { rewrite (dict_as_map d') at 1 by (now rewrite Hk). rewrite Hk.
    apply map_ext. intro k. now rewrite Hl, (lookup_empty d0 k Hempty). }
  assert (Hin' : forall k, In k (map fst d0) <-> In k (atom_type c))
    by (intro k; rewrite Hin; simpl; tauto).
  clear Hin Hk Hl Hempty.
  exists (map fst d0), (flat_map P (map fst d0)). split; [reflexivity|].
  revert Hnd Hd Hin' Hfold.
  generalize (map fst d0) as keys. intros keys Hnd Hd Hin Hfold.
  split; [exact Hnd|]. split; [exact Hin|].
  split; [reflexivity|]. split.
  - unfold P. rewrite group_perm by exact Hnd. rewrite filter_all; [reflexivity|].
    intros p Hp. apply existsb_exists. exists (fst p).
    split; [|apply String.eqb_refl].
    destruct (assigned_keys _ _ _ Hp) as (num & Hnum).
    apply Hin. now apply in_combine_r in Hnum.
  - unfold uniquepos. fold d0. rewrite Hfold. cbn [and_then fst].
    rewrite Hd. rewrite !map_map. cbn [fst snd].
    rewrite map_id.
    replace (List.concat (map (fun k => map snd (P k)) keys))
      with (map snd (flat_map P keys))
      by (now rewrite map_flat_map, flat_map_concat_map).
    replace (map (fun k => List.length (map snd (P k))) keys)
      with (map (fun k => List.length (P k)) keys)
      by (apply map_ext; intro k; now rewrite length_map).
    replace (symbols (map (fun k => List.length (P k)) keys) keys)
      with (map fst (flat_map P keys)).
    2:{ rewrite symbols_map, map_flat_map. apply flat_map_ext. intro k.
        unfold P. now rewrite filter_fst_repeat. }
    replace (map (fun k => Z.of_nat (List.length (map snd (P k)))) keys)
      with (map (fun k => Z.of_nat (List.length (P k))) keys)
      by (apply map_ext; intro k; now rewrite length_map).
    reflexivity.
Qed.

Lemma positions_in_range (grouped A : list (string * nat)) (m : nat) :
  Permutation grouped A ->
  map snd A = seq 0 (List.length A) ->
  Forall (fun i => (i < m)%nat) (map snd grouped)
  <-> (List.length A <= m)%nat.
Proof.
  intros Hperm Hseq.
  assert (Hp : Permutation (map snd grouped) (seq 0 (List.length A)))
    by (rewrite <- Hseq; now apply Permutation_map).
  rewrite Forall_forall. split.
  - intro HF. destruct (List.length A) as [|n] eqn:En; [lia|].
    assert (Hn : In n (map snd grouped)).
    { apply (Permutation_in _ (Permutation_sym Hp)). apply in_seq. lia. }
    specialize (HF n Hn). lia.
  - intros Hle i Hi. apply (Permutation_in _ Hp) in Hi.
    apply in_seq in Hi. lia.
Qed.

(** Every site keeps its symbol. *)
Lemma uniquepos_permutes (c c' : Cell) :
  uniquepos c = Done c' ->
  Permutation (combine (atoms c') (sites c'))
              (combine (species (atom_num c) (atom_type c)) (sites c)).
Proof.
  destruct (uniquepos_grouped c)
    as (keys & grouped & _ & Hnd & Hin & Hg & Hperm & ->).
  destruct (map_result (getitem (sites c)) (map snd grouped))
    as [sites'|e] eqn:E; [|discriminate].
  cbn [lift and_then]. intros [= <-]. cbn [atoms sites].
  apply (map_result_getitem _ []) in E. destruct E as [HF ->].
  rewrite combine_fst_snd_map.
  rewrite (Permutation_map (fun p => (fst p, nth (snd p) (sites c) []))
             Hperm).
  rewrite <- (combine_fst_snd_map (fun i => nth i (sites c) [])).
  rewrite assigned_snd, assigned_fst.
  fold (species (atom_num c) (atom_type c)).
  rewrite map_nth_seq
    by (apply (positions_in_range grouped _ _ Hperm);
        [apply assigned_snd|exact HF]).
  rewrite length_assigned. now rewrite combine_firstn.
Qed.

(** X17. [uniquepos] regroups the sites by symbol and changes nothing
    else: the new [atom_type] lists the symbols of the old one without
    repetition, and every site keeps its symbol -- the new pairs (symbol,
    site) are the old ones in another order; the new [atoms] is what the
    new [atom_num] and [atom_type] say, one symbol per site. *)
Theorem uniquepos_regroups (c c' : Cell) :
  uniquepos c = Done c' ->
  NoDup (atom_type c') /\
  (forall k, In k (atom_type c') <-> In k (atom_type c)) /\
  atoms c' = species (atom_num c') (atom_type c') /\
  List.length (sites c') = List.length (atoms c') /\
  Permutation (combine (atoms c') (sites c'))
              (combine (species (atom_num c) (atom_type c)) (sites c)) /\
  basis c' = basis c.
Proof.
  intro Hdone. pose proof (uniquepos_permutes c c' Hdone) as Hpairs.
  revert Hdone Hpairs.
  destruct (uniquepos_grouped c)
    as (keys & grouped & _ & Hnd & Hin & Hg & Hperm & ->).
  destruct (map_result (getitem (sites c)) (map snd grouped))
    as [sites'|e] eqn:E; [|discriminate].
  cbn [lift and_then]. intros [= <-].
  cbn [atom_type atoms sites atom_num basis]. intro Hpairs.
  apply (map_result_getitem _ []) in E. destruct E as [HF ->].
  split; [exact Hnd|]. split; [exact Hin|]. split; [|split; [|split]].
  - rewrite species_of_nat, symbols_map, Hg, map_flat_map.
    apply flat_map_ext. intro k. apply filter_fst_repeat.
  - now rewrite !length_map.
  - exact Hpairs.
  - reflexivity.
Qed.

(** X18. [uniquepos] fails in one way only: with [IndexError], exactly
    when [atom_num] announces more sites than the cell has.  No symbol is
    ever looked up that is not a key, and a cell with more sites than
    announced is accepted. *)
Theorem uniquepos_failure (c : Cell) (e : Failure) :
  uniquepos c = Fails e <->
  e = Python IndexError /\
  (List.length (sites c)
   < List.length (species (atom_num c) (atom_type c)))%nat.
Proof.
  destruct (uniquepos_grouped c)
    as (keys & grouped & _ & Hnd & Hin & Hg & Hperm & ->).
  pose proof (positions_in_range grouped _ (List.length (sites c)) Hperm
                (assigned_snd _ _)) as Hrange.
  rewrite length_assigned in Hrange.
  destruct (map_result (getitem (sites c)) (map snd grouped))
    as [sites'|e0] eqn:E; cbn [lift and_then].
  - apply (map_result_getitem _ []) in E. destruct E as [HF _].
    apply Hrange in HF. split; [discriminate|]. intros [_ Hlt]. lia.
  - pose proof (map_result_getitem_raise _ _ _ E) as ->. split.
    + intros [= <-]. split; [reflexivity|].
      destruct (Nat.lt_ge_cases (List.length (sites c))
                  (List.length (species (atom_num c) (atom_type c))))
        as [Hlt|Hge]; [exact Hlt|].
      apply Hrange in Hge.
      assert (Hok : map_result (getitem (sites c)) (map snd grouped)
                    = Ok (map (fun i => nth i (sites c) []) (map snd grouped)))
        by (apply (map_result_getitem _ []); now split).
      congruence.
    + now intros [-> _].
Qed.

(** *** A cell already grouped *)

Lemma add_keys_fresh (l : list string) (d : OrderedDict) :
  NoDup (map fst d ++ l) ->
  fold_left add_key l d = d ++ map (fun k => (k, [])) l.
Proof.
  revert d. induction l as [|a l IH]; intros d Hnd; simpl.
  - now rewrite app_nil_r.
  - change (add_key d a) with (if contains d a then d else d ++ [(a, [])]).
    assert (Ha : contains d a = false).
    { destruct (contains d a) eqn:E; [|reflexivity].
      apply contains_In in E. apply NoDup_remove_2 in Hnd.
      destruct Hnd. apply in_or_app. now left. }
    rewrite Ha, IH.
    + now rewrite <- app_assoc.
    + rewrite map_app, <- app_assoc. exact Hnd.
Qed.

Lemma flat_map_same {A B : Type} (f g : A -> list B) (l : list A) :
  (forall x, In x l -> f x = g x) -> flat_map f l = flat_map g l.
Proof.
  induction l as [|a l IH]; intro Hfg; simpl; [reflexivity|].
  rewrite (Hfg a) by now left. f_equal. apply IH. intros x Hx.
  apply Hfg. now right.
Qed.

Lemma filter_absent (k : string) (pairs : list (Z * string)) (pidx : nat) :
  ~ In k (map snd pairs) ->
  filter (fun p : string * nat => String.eqb k (fst p)) (assigned pairs pidx)
  = [].
Proof.
  intro Hk.
  rewrite (filter_ext_in _ (fun _ : string * nat => false));
    [apply filter_none|].
  intros p Hp. destruct (String.eqb_spec k (fst p)) as [E|_]; [|reflexivity].
  destruct (assigned_keys _ _ _ Hp) as (num & Hnum). destruct Hk.
  rewrite E. apply (in_map snd) in Hnum. exact Hnum.
Qed.

Lemma map_snd_combine {A B : Type} (l : list A) (l' : list B) :
  List.length l = List.length l' -> map snd (combine l l') = l'.
Proof.
  revert l'. induction l as [|a l IH]; intros [|b l'] Hlen; simpl in *;
    try reflexivity; try discriminate.
  f_equal. apply IH. lia.
Qed.

(** When the symbols do not repeat, the positions are handed out symbol
    by symbol already. *)
Lemma grouped_blocks (ks : list string) (ns : list nat) (pidx : nat) :
  NoDup ks -> List.length ns = List.length ks ->
  flat_map (fun k => filter (fun p => String.eqb k (fst p))
                       (assigned (combine (map Z.of_nat ns) ks) pidx)) ks
  = assigned (combine (map Z.of_nat ns) ks) pidx /\
  map (fun k => List.length
                  (filter (fun p : string * nat => String.eqb k (fst p))
                     (assigned (combine (map Z.of_nat ns) ks) pidx))) ks
  = ns.
Proof.
  intro Hnd. revert ns pidx.
  induction Hnd as [|k ks Hk Hnd IH]; intros [|n ns] pidx Hlen;
    try discriminate; [now split|].
  simpl in Hlen. injection Hlen as Hlen.
  cbn [map combine assigned flat_map]. rewrite Nat2Z.id.
  assert (Hsnd : map snd (combine (map Z.of_nat ns) ks) = ks)
    by (apply map_snd_combine; now rewrite length_map).
  assert (Hrest : forall k', In k' ks ->
            filter (fun p : string * nat => String.eqb k' (fst p))
              (map (pair k) (seq pidx n)
                 ++ assigned (combine (map Z.of_nat ns) ks) (pidx + n))
            = filter (fun p : string * nat => String.eqb k' (fst p))
                (assigned (combine (map Z.of_nat ns) ks) (pidx + n))).
  { intros k' Hk'. rewrite filter_app, filter_pairs.
    destruct (String.eqb_spec k' k) as [->|_]; [contradiction|reflexivity]. }
  assert (Hfirst :
            filter (fun p : string * nat => String.eqb k (fst p))
              (map (pair k) (seq pidx n)
                 ++ assigned (combine (map Z.of_nat ns) ks) (pidx + n))
            = map (pair k) (seq pidx n)).
  { rewrite filter_app, filter_pairs, String.eqb_refl.
    rewrite filter_absent by (now rewrite Hsnd). apply app_nil_r. }
  destruct (IH ns (pidx + n)%nat Hlen) as [IH1 IH2]. split.
  - rewrite Hfirst. f_equal.
    rewrite (flat_map_same _ _ ks Hrest). exact IH1.
  - rewrite Hfirst, length_map, length_seq. f_equal.
    etransitivity; [|exact IH2]. apply map_ext_in. intros k' Hk'.
    now rewrite Hrest.
Qed.

(** A cell whose symbols do not repeat, whose numbers are those of its
    sites and whose labels are in order is left as it is. *)
Lemma uniquepos_fixed (c : Cell) (ns : list nat) :
  NoDup (atom_type c) ->
  List.length ns = List.length (atom_type c) ->
  atom_num c = map Z.of_nat ns ->
  List.length (sites c) = List.length (symbols ns (atom_type c)) ->
  atoms c = symbols ns (atom_type c) ->
  labels c = numbered ns (atom_type c) ->
  uniquepos c = Done c.
Proof.
  intros Hnd Hlen Hnum Hsites Hatoms Hlabels.
  destruct (uniquepos_grouped c)
    as (keys & grouped & Hkeys & _ & _ & Hg & _ & ->).
  rewrite (add_keys_fresh (atom_type c) []) in Hkeys by exact Hnd.
  simpl in Hkeys. rewrite map_map, map_id in Hkeys. subst keys.
  rewrite Hnum in *.
  destruct (grouped_blocks (atom_type c) ns 0 Hnd Hlen) as [Hblocks Hcount].
  rewrite Hblocks in Hg. rewrite Hcount. subst grouped.
  rewrite assigned_snd, assigned_fst.
  fold (species (map Z.of_nat ns) (atom_type c)).
  rewrite length_assigned, species_of_nat, <- Hsites.
  assert (Hok : map_result (getitem (sites c)) (seq 0 (List.length (sites c)))
                = Ok (sites c)).
  { apply (map_result_getitem _ []). split.
    - apply Forall_forall. intros i Hi. apply in_seq in Hi. lia.
    - rewrite map_nth_seq by lia. now rewrite firstn_all. }
  rewrite Hok. cbn [lift and_then].
  rewrite <- Hatoms, <- Hlabels, <- Hnum. now destruct c.
Qed.

(** X19. [uniquepos] is idempotent: a cell it has produced is left as it
    is when it runs again (as in [replace] after [read]). *)
Theorem uniquepos_idempotent (c c' : Cell) :
  uniquepos c = Done c' -> uniquepos c' = Done c'.
Proof.
  destruct (uniquepos_grouped c)
    as (keys & grouped & _ & Hnd & _ & Hg & _ & ->).
  destruct (map_result (getitem (sites c)) (map snd grouped))
    as [sites'|e] eqn:E; [|discriminate].
  cbn [lift and_then]. intros [= <-].
  apply (map_result_getitem _ []) in E. destruct E as [_ ->].
  set (ns := map (fun k => List.length
                    (filter (fun p : string * nat => String.eqb k (fst p))
                       (assigned (combine (atom_num c) (atom_type c)) 0)))
                 keys).
  apply (uniquepos_fixed _ ns); cbn [atom_type atom_num sites atoms labels].
  - exact Hnd.
  - unfold ns. now rewrite length_map.
  - reflexivity.
  - rewrite !length_map. unfold ns. rewrite symbols_map.
    rewrite <- (length_map fst grouped). f_equal.
    rewrite Hg, map_flat_map. apply flat_map_ext. intro k.
    apply filter_fst_repeat.
  - unfold ns. rewrite symbols_map, Hg, map_flat_map.
    apply flat_map_ext. intro k. apply filter_fst_repeat.
  - reflexivity.
Qed.

(** *** [replace] *)

Lemma index_spec (x : string) (l : list string) (i : nat) :
  index x l = Some i -> nth_error l i = Some x /\ ~ In x (firstn i l).
Proof.
  revert i. induction l as [|y l IH]; intro i; simpl; [discriminate|].
  destruct (String.eqb_spec x y) as [->|Hne].
  - intros [= <-]. split; [reflexivity|]. intros [].
  - destruct (index x l) as [j|]; [|discriminate]. intros [= <-].
    destruct (IH j eq_refl) as [Hnth Hnot]. split; [exact Hnth|].
    simpl. intros [E|Hin]; [congruence|contradiction].
Qed.

Lemma index_none (x : string) (l : list string) :
  index x l = None <-> ~ In x l.
Proof.
  induction l as [|y l IH]; simpl; [tauto|].
  destruct (String.eqb_spec x y) as [->|Hne].
  - split; [discriminate|]. intro Hnot. destruct Hnot. now left.
  - destruct (index x l); simpl.
    + split; [discriminate|]. intro Hnot. exfalso.
      destruct IH as [_ IH]. discriminate IH. tauto.
    + split; [|reflexivity]. intros _ [E|Hin]; [congruence|].
      now apply IH.
Qed.

Lemma species_In (x : string) (number : list Z) (types : list string) :
  In x (species number types) -> In x types.
Proof.
  unfold species. revert types.
  induction number as [|n number IH]; intros [|t types]; simpl; try tauto.
  rewrite in_app_iff. intros [Hin|Hin].
  - apply repeat_spec in Hin. now left.
  - right. now apply IH.
Qed.

Lemma species_cons (n : Z) (t : string) (number : list Z)
    (types : list string) :
  species (n :: number) (t :: types)
  = repeat t (Z.to_nat n) ++ species number types.
Proof. reflexivity. Qed.

(** The symbols of the sites around the block of entry [i]. *)
Lemma species_split (number : list Z) (types : list string) (i : nat)
    (a : string) (n : Z) :
  nth_error types i = Some a -> nth_error number i = Some n ->
  species number types
  = species (firstn i number) (firstn i types)
      ++ repeat a (Z.to_nat n)
      ++ species (skipn (S i) number) (skipn (S i) types).
Proof.
  revert number types.
  induction i as [|i IH]; intros [|n0 number] [|t0 types]; simpl;
    try discriminate.
  - now intros [= ->] [= ->].
  - intros Ht Hn. rewrite !species_cons, (IH _ _ Ht Hn).
    now rewrite <- app_assoc.
Qed.

Lemma species_set_item (number : list Z) (types : list string) (i : nat)
    (a b : string) (n : Z) :
  nth_error types i = Some a -> nth_error number i = Some n ->
  species number (set_item types i b)
  = species (firstn i number) (firstn i types)
      ++ repeat b (Z.to_nat n)
      ++ species (skipn (S i) number) (skipn (S i) types).
Proof.
  revert number types.
  induction i as [|i IH]; intros [|n0 number] [|t0 types]; simpl;
    try discriminate.
  - now intros _ [= ->].
  - intros Ht Hn. rewrite !species_cons, (IH _ _ Ht Hn).
    now rewrite <- app_assoc.
Qed.

Lemma species_insert (number : list Z) (types : list string) (i : nat)
    (a b : string) (n m : Z) :
  nth_error types i = Some a -> nth_error number i = Some n ->
  species (insert (set_item number i m) i 1%Z) (insert types i b)
  = species (firstn i number) (firstn i types)
      ++ b :: repeat a (Z.to_nat m)
      ++ species (skipn (S i) number) (skipn (S i) types).
Proof.
  unfold insert. revert number types.
  induction i as [|i IH]; intros [|n0 number] [|t0 types]; simpl;
    try discriminate.
  - now intros [= ->] _.
  - intros Ht Hn. rewrite !species_cons, (IH _ _ Ht Hn).
    now rewrite <- app_assoc.
Qed.

Lemma uniquepos_raises (c : Cell) (e : Failure) :
  uniquepos c = Fails e -> e = Python IndexError.
Proof.
  destruct (uniquepos_grouped c)
    as (keys & grouped & _ & _ & _ & _ & _ & ->).
  destruct (map_result (getitem (sites c)) (map snd grouped))
    as [sites'|e0] eqn:E; cbn [lift and_then]; [discriminate|].
  intros [= <-]. now rewrite (map_result_getitem_raise _ _ _ E).
Qed.

(** X20. [replace(atom1, atom2)] on a cell whose first entry for [atom1]
    counts at least one site: exactly one site changes its symbol, the
    first site of [atom1] in the order of the file, which becomes
    [atom2]; every other site keeps its symbol. *)
Theorem replace_changes_one_site (c c' : Cell) (atom1 atom2 : string) :
  replace c atom1 atom2 = Done c' ->
  (forall idx, index atom1 (atom_type c) = Some idx ->
               (1 <= nth idx (atom_num c) 0)%Z) ->
  exists before after,
    species (atom_num c) (atom_type c) = before ++ atom1 :: after /\
    ~ In atom1 before /\
    Permutation (combine (atoms c') (sites c'))
                (combine (before ++ atom2 :: after) (sites c)).
Proof.
  unfold replace. destruct (index atom1 (atom_type c)) as [idx|] eqn:Eidx;
    [|discriminate].
  destruct (index_spec _ _ _ Eidx) as [Htype Hfirst].
  unfold getitem. destruct (nth_error (atom_num c) idx) as [n|] eqn:En;
    cbn [lift and_then]; [|discriminate].
  intros Hdone Hcount. specialize (Hcount idx eq_refl).
  rewrite (nth_error_nth _ _ 0%Z En) in Hcount.
  apply uniquepos_permutes in Hdone. cbn [atom_num atom_type sites] in Hdone.
  exists (species (firstn idx (atom_num c)) (firstn idx (atom_type c))),
         (repeat atom1 (Z.to_nat (n - 1))
            ++ species (skipn (S idx) (atom_num c))
                       (skipn (S idx) (atom_type c))).
  split; [|split].
  - rewrite (species_split _ _ idx atom1 n Htype En).
    replace (Z.to_nat n) with (S (Z.to_nat (n - 1))) by lia. reflexivity.
  - intro Hin. apply species_In in Hin. contradiction.
  - destruct (Z.eqb_spec n 1) as [->|Hn]; cbn [fst snd] in Hdone.
    + rewrite (species_set_item _ _ idx atom1 atom2 1 Htype En) in Hdone.
      exact Hdone.
    + rewrite (species_insert _ _ idx atom1 atom2 n (n - 1) Htype En)
        in Hdone.
      exact Hdone.
Qed.

(** X21. [replace] raises its [RuntimeError] exactly when [atom1] is not
    among the symbols of the cell; with [atom1] present, whatever fails
    is an [IndexError]. *)
Theorem replace_missing_symbol (c : Cell) (atom1 atom2 : string) :
  (replace c atom1 atom2
   = Fails (Python (RuntimeError ("Failed to locate " ++ atom1)))
   <-> ~ In atom1 (atom_type c)) /\
  (In atom1 (atom_type c) ->
   forall e, replace c atom1 atom2 = Fails e -> e = Python IndexError).
Proof.
  assert (Hin : In atom1 (atom_type c) ->
                forall e, replace c atom1 atom2 = Fails e ->
                          e = Python IndexError).
  { intros Hin e. unfold replace.
    destruct (index atom1 (atom_type c)) as [idx|] eqn:Eidx;
      [|now apply index_none in Eidx].
    unfold getitem. destruct (nth_error (atom_num c) idx) as [n|];
      cbn [lift and_then]; [apply uniquepos_raises|now intros [= <-]]. }
  split; [|exact Hin]. split.
  - intros Hfail Hin'. specialize (Hin Hin' _ Hfail). discriminate.
  - intro Hnot. unfold replace. apply index_none in Hnot.
    now rewrite Hnot.
Qed.

Lemma uniquepos_failure_witness :
  uniquepos short_cell = Fails (Python IndexError).
Proof.
  apply (uniquepos_failure short_cell). split; [reflexivity|].
  simpl. lia.
Defined.

Lemma replace_missing_symbol_witness :
  replace grouped_cell "Mn" "Ga"
  = Fails (Python (RuntimeError "Failed to locate Mn")).
Proof.
  apply (proj1 (replace_missing_symbol grouped_cell "Mn" "Ga")).
  simpl. intuition discriminate.
Defined.

Lemma uniquepos_idempotent_witness :
  uniquepos grouped_cell = Done grouped_cell.
Proof.
  apply (uniquepos_idempotent scattered_cell grouped_cell). reflexivity.
Defined.

Lemma replace_changes_one_site_witness :
  exists c' before after,
    replace grouped_cell "Ga" "Mn" = Done c' /\
    ["Ga"; "Ga"; "Ga"; "Ga"; "As"]%string
    = (before ++ "Ga"%string :: after)%list /\
    ~ In "Ga"%string before /\
    Permutation (combine (atoms c') (sites c'))
                (combine (before ++ "Mn"%string :: after)
                         (sites grouped_cell)).
Proof.
  eexists.
  destruct (replace_changes_one_site grouped_cell _ "Ga" "Mn" eq_refl)
    as (before & after & Hsplit & Hnot & Hperm).
  - intros idx [= <-]. simpl. lia.
  - exists before, after. split; [reflexivity|].
    split; [exact Hsplit|]. split; [exact Hnot|exact Hperm].
Defined.

Lemma uniquepos_regroups_witness :
  exists c',
    uniquepos scattered_cell = Done c' /\
    atom_type c' = ["Ga"; "As"]%string /\
    NoDup (atom_type c') /\
    Permutation
      (combine (atoms c') (sites c'))
      (combine ["Ga"; "Ga"; "As"; "Ga"; "Ga"]%string (sites scattered_cell)).
Proof.
  eexists. split; [reflexivity|]. split; [reflexivity|].
  destruct (uniquepos_regroups scattered_cell _ eq_refl)
    as (Hnd & _ & _ & _ & Hperm & _).
  split; [exact Hnd|exact Hperm].
Defined.

End CellFacts.

(** ** [rstrip] and [split] *)

Module StringsFacts.
Import Text Strings.




End StringsFacts.

(** ** The numbers read from an OUTCAR *)

Module OutcarFacts.
Import Strings Outcar.

Lemma find_app_none {A : Type} (p : A -> bool) (l1 l2 : list A) :
  Forall (fun x => p x = false) l1 -> find p (l1 ++ l2) = find p l2.
Proof.
  induction 1 as [|x l1 Hx _ IH]; simpl; [reflexivity|]. now rewrite Hx.
Qed.

(** The loop over [reversed(data)] stops at the last line that
    matches. *)
Lemma last_match_app (needle : string) (pre post : list string)
    (line : string) :
  substring_in needle line = true ->
  Forall (fun l => substring_in needle l = false) post ->
  last_match needle (pre ++ line :: post) = Some line.
Proof.
  intros Hline Hpost. unfold last_match.
  rewrite rev_app_distr. simpl. rewrite <- app_assoc.
  rewrite find_app_none by (now apply Forall_rev).
  simpl. now rewrite Hline.
Qed.

Lemma last_match_none (needle : string) (data : list string) :
  Forall (fun l => substring_in needle l = false) data ->
  last_match needle data = None.
Proof.
  intro Hdata. unfold last_match.
  rewrite <- (app_nil_r (rev data)), find_app_none; [reflexivity|].
  now apply Forall_rev.
Qed.

Section Generic.
Context `{Float}.

(** X22. [read_energy] returns the number that ends the last line
    containing [sigma]: the energies of earlier steps, and whatever
    comes before or after, do not count. *)
Theorem read_energy_last_step (pre post : list string) (line : string) :
  substring_in "sigma" line = true ->
  Forall (fun l => substring_in "sigma" l = false) post ->
  read_energy (pre ++ line :: post) = lift (last_number line).
Proof.
  intros Hline Hpost. unfold read_energy.
  now rewrite (last_match_app _ pre post line Hline Hpost).
Qed.

(** X23. An OUTCAR without a line containing [sigma] (a run that did
    not complete a step): [read_energy] fails on the unassigned
    [energy]. *)
Theorem read_energy_without_step (data : list string) :
  Forall (fun l => substring_in "sigma" l = false) data ->
  read_energy data = Fails (UnboundLocalError "energy").
Proof.
  intro Hdata. unfold read_energy. now rewrite last_match_none.
Qed.

(** X24. When no line contains [volume], [read_volume] does not fail
    on that account: the loop ends on the first line of the file, and
    the last field of that line is converted instead. *)
Theorem read_volume_without_match (line : string) (rest : list string) :
  Forall (fun l => substring_in "volume" l = false) (line :: rest) ->
  read_volume (line :: rest) = lift (last_number line).
Proof.
  intro Hdata. unfold read_volume. now rewrite last_match_none.
Qed.

End Generic.

(** X25. [read_ewald] returns a magnitude: the number after the last
    [=] of the last line containing [Ewald energy   TEWEN], never
    negative. *)
Theorem read_ewald_magnitude (pre post : list string) (line : string)
    (x : Q) :
  substring_in "Ewald energy   TEWEN" line = true ->
  Forall (fun l => substring_in "Ewald energy   TEWEN" l = false) post ->
  read_ewald (pre ++ line :: post) = Done x ->
  (0 <= x)%Q /\
  exists piece v,
    last_item (split_on "=" (rstrip line)) = Ok piece /\
    float_of_padded (H := QFloat) piece = Ok v /\
    x = Qabs v.
Proof.
  intros Hline Hpost. unfold read_ewald.
  rewrite (last_match_app _ pre post line Hline Hpost).
  destruct (last_item (split_on "=" (rstrip line))) as [piece|e];
    cbn [bind lift];
    [|discriminate].
  destruct (float_of_padded piece) as [v|e] eqn:Ev; cbn [lift and_then];
    [|discriminate].
  intros [= <-]. split; [apply Qabs_nonneg|]. now exists piece, v.
Qed.

Lemma read_energy_last_step_witness :
  read_energy (H := QFloat) outcar = Done (-1125 # 100).
Proof.
  change outcar with (firstn 3 outcar ++ nth 3 outcar ""%string :: skipn 4 outcar).
  rewrite (read_energy_last_step (H := QFloat)) by (cbv; repeat constructor).
  reflexivity.
Defined.

Lemma read_energy_without_step_witness :
  read_energy (H := QFloat) (skipn 4 outcar)
  = Fails (UnboundLocalError "energy").
Proof.
  apply (read_energy_without_step (H := QFloat)). cbv. repeat constructor.
Defined.

Lemma read_volume_without_match_witness :
  read_volume (H := QFloat) (firstn 1 outcar) = Done (-1025 # 100).
Proof.
  change (firstn 1 outcar) with [nth 0 outcar ""%string].
  rewrite (read_volume_without_match (H := QFloat)) by (cbv; repeat constructor).
  reflexivity.
Defined.

Lemma read_ewald_magnitude_witness :
  exists x, read_ewald outcar = Done x /\ (0 <= x)%Q.
Proof.
  exists (Qabs (-1395 # 10)). split; [reflexivity|].
  apply (read_ewald_magnitude (firstn 2 outcar) (skipn 3 outcar)
           (nth 2 outcar ""%string)).
  - reflexivity.
  - cbv. repeat constructor.
  - reflexivity.
Defined.

End OutcarFacts.

(** ** The tasks [energy], [ewald] and [volume] *)

Module CliNumbersFacts.
Import Text Strings Outcar CliNumbers.







End CliNumbersFacts.

(** ** [InputList.parse] and [InputList.from_file] *)

Module InputFileFacts.
Import Strings InputFile.

Local Open Scope string_scope.

(** *** Strings *)

Lemma char_in_app (c : ascii) (a b : string) :
  char_in c (a ++ b) = char_in c a || char_in c b.
Proof.
  induction a as [|x a IH]; simpl; [reflexivity|].
  now rewrite IH, orb_assoc.
Qed.

Lemma split_once_app (sep : ascii) (a b : string) :
  char_in sep a = false -> split_once sep (a ++ String sep b) = (a, b).
Proof.
  induction a as [|x a IH]; simpl; intro Ha.
  - now rewrite Ascii.eqb_refl.
  - apply orb_false_iff in Ha. destruct Ha as [Hx Ha].
    now rewrite Hx, (IH Ha).
Qed.

Lemma lstrip_app (l r : string) (c : ascii) :
  Text.isspace c = false ->
  lstrip (l ++ String c r) = lstrip l ++ String c r.
Proof.
  intro Hc. induction l as [|a l IH]; simpl.
  - now rewrite Hc.
  - now destruct (Text.isspace a).
Qed.

Lemma rstrip_app (x r : string) (c : ascii) :
  Text.isspace c = false ->
  rstrip (x ++ String c r) = x ++ String c (rstrip r).
Proof.
  intro Hc. induction x as [|a x IH]; simpl.
  - rewrite Hc. now destruct (rstrip r).
  - rewrite IH. now destruct x.
Qed.

Lemma lstrip_lstrip (s : string) : lstrip (lstrip s) = lstrip s.
Proof.
  induction s as [|a s IH]; simpl; [reflexivity|].
  destruct (Text.isspace a) eqn:Ha; [exact IH|]. simpl. now rewrite Ha.
Qed.

Lemma char_in_lstrip (c : ascii) (s : string) :
  Text.isspace c = false -> char_in c (lstrip s) = char_in c s.
Proof.
  intro Hc. induction s as [|a s IH]; simpl; [reflexivity|].
  destruct (Text.isspace a) eqn:Ha; [|reflexivity].
  rewrite IH. destruct (Ascii.eqb_spec a c) as [->|_]; [congruence|reflexivity].
Qed.

Lemma split_once_lstrip (sep : ascii) (s : string) :
  Text.isspace sep = false -> char_in sep s = true ->
  split_once sep (lstrip s)
  = (lstrip (fst (split_once sep s)), snd (split_once sep s)).
Proof.
  intro Hsep. induction s as [|a s IH]; simpl; [discriminate|].
  destruct (Ascii.eqb_spec a sep) as [->|Hne]; simpl.
  - intros _. rewrite Hsep. simpl. now rewrite Ascii.eqb_refl.
  - intro Hin. destruct (Text.isspace a) eqn:Ha.
    + rewrite (IH Hin). destruct (split_once sep s) as [x y]. simpl.
      now rewrite Ha.
    + simpl. destruct (Ascii.eqb_spec a sep); [contradiction|].
      destruct (split_once sep s) as [x y]. simpl. now rewrite Ha.
Qed.

Lemma map_result_only {A B : Type} (f : A -> result B) (l : list A)
    (e0 e : PyExn) :
  map_result f l = Raise e ->
  (forall x e', f x = Raise e' -> e' = e0) -> e = e0.
Proof.
  intros E Hf. induction l as [|x l IH]; simpl in E; [discriminate|].
  destruct (f x) as [y|e1] eqn:Ex.
  - destruct (map_result f l); [discriminate|]. injection E as <-.
    now apply IH.
  - injection E as <-. now apply (Hf x).
Qed.

Section Generic.
Context `{Float}.

(** Every failure of [parse] is a [ValueError]. *)
Lemma value_of_raises (name p2 : string) (e : PyExn) :
  value_of name p2 = Raise e -> e = ValueError.
Proof.
  unfold value_of, int_of_padded, float_of_padded, py_int, py_float.
  destruct (member name ["dperfect"; "ddefect"; "prefix"]); [discriminate|].
  destruct (member name ["npts"]).
  { destruct (Text.split p2) as [|tok [|? ?]]; cbn [bind];
      try (now intros [= <-]).
    destruct (int_of_string tok); cbn [bind];
      [discriminate|now intros [= <-]]. }
  destruct (member name _).
  { destruct (Text.split p2) as [|tok [|? ?]]; cbn [bind];
      try (now intros [= <-]).
    destruct (float_of_string tok); cbn [bind];
      [discriminate|now intros [= <-]]. }
  destruct (member name ["valence"]).
  { destruct (map_result _ _) as [l|e0] eqn:E; cbn [bind]; [discriminate|].
    intros [= <-]. apply (map_result_only _ _ _ _ E).
    intros tok e1. destruct (int_of_string tok); [discriminate|].
    now intros [= <-]. }
  destruct (member name ["cmpot"]).
  { destruct (map_result _ _) as [l|e0] eqn:E; cbn [bind]; [discriminate|].
    intros [= <-]. apply (map_result_only _ _ _ _ E).
    intros tok e1. destruct (float_of_string tok); [discriminate|].
    now intros [= <-]. }
  destruct (String.eqb name "ddname"); [|discriminate].
  destruct (_ || _ || _); discriminate.
Qed.

Lemma parse_line_raises (line : string) (e : PyExn) :
  parse_line line = Raise e -> e = ValueError.
Proof.
  unfold parse_line.
  destruct (char_in "=" _); [|discriminate].
  destruct (split_once "=" _) as [p1 p2].
  destruct (existsb _ _); [now intros [= <-]|].
  destruct (value_of _ p2) as [v|e0] eqn:E; cbn [bind]; [discriminate|].
  intros [= <-]. now apply value_of_raises in E.
Qed.

Lemma parse_raises (lines : list string) (e : PyExn) :
  parse lines = Raise e -> e = ValueError.
Proof.
  induction lines as [|line rest IH]; simpl; [discriminate|].
  destruct (parse_line line) as [para|e0] eqn:E; cbn [bind].
  - destruct (parse rest) as [paras|e1]; cbn [bind].
    + now destruct (fst (fst para)).
    + intros [= <-]. now apply IH.
  - intros [= <-]. now apply parse_line_raises in E.
Qed.

(** X27. A comment at the end of a line changes nothing of what the
    line sets: with [#] and any text appended, [parse] gives the same
    name and the same value, or fails as before. *)
Theorem comment_changes_nothing (line comment : string) :
  char_in "#" line = false ->
  parse_line (line ++ String "#" comment)
  = match parse_line line with
    | Ok (name, v, _) => Ok (name, v, Some (rstrip comment))
    | Raise e => Raise e
    end.
Proof.
  intro Hline. unfold parse_line at 1.
  rewrite char_in_app. cbn [char_in]. rewrite Ascii.eqb_refl.
  rewrite orb_true_r. unfold strip.
  rewrite lstrip_app, rstrip_app by reflexivity.
  rewrite split_once_app by (now rewrite char_in_lstrip).
  cbn [fst snd]. unfold parse_line. rewrite Hline. cbn [fst snd].
  rewrite char_in_lstrip by reflexivity.
  destruct (char_in "=" line) eqn:Heq; [|reflexivity].
  rewrite split_once_lstrip by (reflexivity || assumption).
  destruct (split_once "=" line) as [p1 p2]. cbn [fst snd].
  destruct (existsb _ _); [reflexivity|].
  unfold strip. rewrite ?lstrip_lstrip.
  now destruct (value_of (lower (rstrip (lstrip p1))) p2).
Qed.

(** X28. A line that sets a parameter and carries one of [= , ; ?] in
    what follows the first [=] makes [parse] fail with [ValueError],
    wherever the line stands in the file and whatever the keyword. *)
Theorem several_settings_are_rejected
    (pre post : list string) (p1 p2 : string) :
  char_in "#" (p1 ++ String "=" p2) = false ->
  char_in "=" p1 = false ->
  existsb (fun ig => char_in ig p2) ["="; ","; ";"; "?"]%char = true ->
  parse (pre ++ (p1 ++ String "=" p2) :: post) = Raise ValueError.
Proof.
  intros Hhash Hp1 Hp2.
  assert (Hline : parse_line (p1 ++ String "=" p2) = Raise ValueError).
  { unfold parse_line. rewrite Hhash. cbn [fst snd].
    rewrite char_in_app. cbn [char_in]. rewrite Ascii.eqb_refl, orb_true_r.
    rewrite split_once_app by exact Hp1. now rewrite Hp2. }
  induction pre as [|line pre IH]; simpl.
  - now rewrite Hline.
  - destruct (parse_line line) as [para|e] eqn:E; cbn [bind].
    + now rewrite IH.
    + now rewrite (parse_line_raises _ _ E).
Qed.

End Generic.

Section Assign.
Context `{Float}.

Lemma setattr_known (self : attributes) (key : string) (v : value) :
  In key (map fst self) ->
  exists self',
    setattr self key v = Done self' /\
    map fst self' = map fst self /\
    forall k, getattr self' k = if String.eqb k key then v else getattr self k.
Proof.
  induction self as [|[k0 v0] self IH]; simpl; intro Hin; [destruct Hin|].
  destruct (String.eqb_spec key k0) as [->|Hne].
  - eexists. split; [reflexivity|]. split; [reflexivity|].
    intro k. simpl. now destruct (String.eqb_spec k k0).
  - destruct Hin as [E|Hin]; [congruence|].
    destruct (IH Hin) as (self' & -> & Hk & Hg). cbn [and_then].
    eexists. split; [reflexivity|]. split; [simpl; congruence|].
    intro k. simpl. destruct (String.eqb_spec k k0) as [->|_]; [|apply Hg].
    destruct (String.eqb_spec k0 key); [congruence|reflexivity].
Qed.

Lemma setattr_unknown (self : attributes) (key : string) (v : value) :
  ~ In key (map fst self) -> setattr self key v = Fails (not_a_slot key).
Proof.
  induction self as [|[k0 v0] self IH]; simpl; intro Hnot; [reflexivity|].
  destruct (String.eqb_spec key k0) as [->|_]; [tauto|].
  rewrite IH by tauto. reflexivity.
Qed.

Lemma assign_failed (opts : list (string * value * option string))
    (e : Failure) :
  fold_left (fun self opt =>
               and_then self
                 (fun self => setattr self (fst (fst opt)) (snd (fst opt))))
            opts (Fails e)
  = Fails e.
Proof. induction opts as [|opt opts IH]; simpl; auto. Qed.

Lemma find_app_or {A : Type} (p : A -> bool) (l1 l2 : list A) :
  find p (l1 ++ l2)
  = match find p l1 with Some x => Some x | None => find p l2 end.
Proof.
  induction l1 as [|x l1 IH]; simpl; [reflexivity|].
  now destruct (p x).
Qed.

(** The assignments of [from_file], one after the other. *)
Lemma assign_all (opts : list (string * value * option string))
    (self : attributes) :
  Forall (fun opt => In (fst (fst opt)) (map fst self)) opts ->
  exists self',
    fold_left (fun self opt =>
                 and_then self
                   (fun self => setattr self (fst (fst opt)) (snd (fst opt))))
              opts (Done self)
    = Done self' /\
    map fst self' = map fst self /\
    forall key,
      getattr self' key
      = match find (fun opt => String.eqb key (fst (fst opt))) (rev opts) with
        | Some opt => snd (fst opt)
        | None => getattr self key
        end.
Proof.
  revert self. induction opts as [|opt opts IH]; intros self Hknown; simpl.
  - exists self. now split.
  - inversion Hknown as [|? ? Hopt Hopts]; subst.
    destruct (setattr_known self (fst (fst opt)) (snd (fst opt)) Hopt)
      as (self1 & -> & Hk1 & Hg1).
    destruct (IH self1) as (self' & -> & Hk & Hg); [now rewrite Hk1|].
    exists self'. split; [reflexivity|]. split; [congruence|].
    intro key. rewrite Hg, find_app_or.
    destruct (find _ (rev opts)); [reflexivity|].
    simpl. rewrite Hg1. now destruct (String.eqb key (fst (fst opt))).
Qed.


(** X30. When [from_file] succeeds, the attributes are the same
    fourteen, and each one holds the value of the last line of the file
    that sets it, or what it held before when no line does. *)
Theorem from_file_last_setting_wins
    (self self' : attributes) (lines : list string) :
  from_file self lines = Done self' ->
  exists opts,
    parse lines = Ok opts /\
    map fst self' = map fst self /\
    forall key,
      getattr self' key
      = match find (fun opt => String.eqb key (fst (fst opt))) (rev opts) with
        | Some opt => snd (fst opt)
        | None => getattr self key
        end.
Proof.
  unfold from_file. destruct (parse lines) as [opts|e]; cbn [lift and_then];
    [|discriminate].
  intro Hdone. exists opts. split; [reflexivity|].
  assert (Hknown : Forall (fun opt => In (fst (fst opt)) (map fst self)) opts).
  { revert self Hdone. induction opts as [|opt opts IH]; intros self Hdone;
      [constructor|].
    simpl in Hdone.
    destruct (in_dec string_dec (fst (fst opt)) (map fst self)) as [Hin|Hnot].
    - constructor; [exact Hin|].
      destruct (setattr_known self _ (snd (fst opt)) Hin)
        as (self1 & E1 & Hk1 & _).
      rewrite E1 in Hdone. rewrite <- Hk1. now apply IH.
    - rewrite setattr_unknown, assign_failed in Hdone by exact Hnot.
      discriminate. }
  destruct (assign_all opts self Hknown) as (self2 & E2 & Hk & Hg).
  rewrite E2 in Hdone. injection Hdone as <-. now split.
Qed.

End Assign.


Lemma from_file_last_setting_wins_witness :
  exists self',
    from_file (H := QFloat) empty input_file = Done self' /\
    getattr self' "emin" = @Flt QFloat (25 # 100)%Q.
Proof.
  eexists. split; [reflexivity|].
  destruct (from_file_last_setting_wins (H := QFloat) empty _ input_file
              eq_refl) as (opts & Hparse & _ & Hget).
  injection Hparse as <-. exact (Hget "emin").
Defined.

Lemma comment_changes_nothing_witness :
  parse_line (H := QFloat) ("emin = 0.5 " ++ String "#" " lower bound  ")
  = Ok (Some "emin", @Flt QFloat (5 # 10)%Q, Some " lower bound").
Proof.
  rewrite (comment_changes_nothing (H := QFloat)) by reflexivity.
  reflexivity.
Defined.

Lemma several_settings_are_rejected_witness :
  parse (H := QFloat) ["npts = 11"; "emin " ++ String "=" " 0, emax = 1"]
  = Raise ValueError.
Proof.
  apply (several_settings_are_rejected (H := QFloat) ["npts = 11"] []
           "emin " " 0, emax = 1"); reflexivity.
Defined.

End InputFileFacts.
